(** * Six-device volume monitoring server: a shallow embedding

    This development embeds [server-full-test.js] (a WebSocket relay for six
    volume sensors) in Rocq and checks the properties of its specification
    against the embedded code.

    Layout:
    - [JsNum]    numbers as the program sees them (NaN, infinities, finite
                 values), with the rounding to binary64, the comparisons,
                 the sum and [Math.max]/[Math.min];
    - [JsStr]    the string <-> number conversions the program calls
                 ([parseInt], [parseFloat], [Number], [toString], [toFixed]);
    - [JsVal]    JSON values and the coercions applied to message fields;
    - [Server]   the program itself: device table, flags, handlers, the
                 event loop;
    - [Spec]     the vocabulary of the properties;
    - [Hoare]    a weakest-precondition reading of handlers;
    - the facts about each layer, [Properties], the properties of the
      specification, and [Behaviour], further properties of the program.

    Conventions of the model.
    - A finite number is a decimal [m * 10^e]; every JSON numeral and every
      binary double is such a decimal.  The values of the program are
      doubles: [JsNum.to_double] rounds a decimal to the nearest double
      (ties to even, overflow to an infinity, underflow to zero), and every
      numeral is read through it, that of a message when it is converted,
      that of a string when it is parsed; the sum and the quotient are
      rounded in the same way.  Comparisons, [Math.max] and [Math.min] are
      exact on doubles, and a double is the double nearest to itself
      ([JsNumFacts.to_double_idempotent]).  [-0] is identified with [0] (the
      program never distinguishes them).
    - Strings are sequences of 8-bit code units.
    - [Date.now()] is an integer supplied by the environment with each event.
    - [JSON.parse] is not modelled: a message event carries its result,
      each number as the numeral of the text, or [None] when it throws.
    - A handler is a function from the state to a result (a value, a thrown
      exception, or the exit of the process), the state it leaves and the
      effects it had.  Objects are mutated in place in the source; an
      exception thrown half way leaves the assignments already made.
    - The [ws] and [readline] libraries are the environment: a connection,
      a message, the close or error of a socket, a console line, the close
      notifications of the server arrive as events.  Sockets are told apart
      by a number.
    - Log lines are left out, but for the two that matter to control flow:
      the [console.error] of the message handler's catch clause, and the
      template literal of [handleTerminateProcess], which converts its
      argument to a string and may throw. *)

From Stdlib Require Import ZArith QArith List String Ascii Bool Lia.
From Stdlib Require Import DecimalString.
Import ListNotations.

Set Warnings "-register-all".
Local Open Scope Z_scope.

(* ===================================================================== *)
(** ** Numbers *)
(* ===================================================================== *)

Module JsNum.

Inductive num : Type :=
| NaN
| PInf
| NInf
| Fin (m e : Z).

(** The rational denoted by the decimal [m * 10^e]. *)
Definition Qval (m e : Z) : Q :=
  if 0 <=? e then inject_Z (m * 10 ^ e)
  else Qmake m (Z.to_pos (10 ^ (- e))).

(** Three-way comparison; [None] when an operand is NaN. *)
Definition compare (a b : num) : option comparison :=
  match a, b with
  | NaN, _ | _, NaN => None
  | PInf, PInf => Some Eq
  | PInf, _ => Some Gt
  | _, PInf => Some Lt
  | NInf, NInf => Some Eq
  | NInf, _ => Some Lt
  | _, NInf => Some Gt
  | Fin m e, Fin m' e' => Some (Qcompare (Qval m e) (Qval m' e'))
  end.

(** [a < b], [a <= b], [a > b], [a >= b], [a === b] on numbers. *)
Definition lt (a b : num) : bool :=
  match compare a b with Some Lt => true | _ => false end.
Definition le (a b : num) : bool :=
  match compare a b with Some Lt | Some Eq => true | _ => false end.
Definition gt (a b : num) : bool := lt b a.
Definition ge (a b : num) : bool := le b a.
Definition eq (a b : num) : bool :=
  match compare a b with Some Eq => true | _ => false end.

Definition isNaN (a : num) : bool :=
  match a with NaN => true | _ => false end.

(** [Math.max(a, b)] and [Math.min(a, b)]: NaN if either argument is. *)
Definition Math_max (a b : num) : num :=
  match a, b with
  | NaN, _ | _, NaN => NaN
  | _, _ => if lt a b then b else a
  end.

Definition Math_min (a b : num) : num :=
  match a, b with
  | NaN, _ | _, NaN => NaN
  | _, _ => if lt b a then b else a
  end.

(** *** Binary64

    A double is [n * 2^x] with [n < 2^53] and [-1074 <= x <= 971]. *)

(** The integer nearest to [p / q], the even one of two ([q > 0]). *)
Definition nearest_even (p q : Z) : Z :=
  let n := p / q in
  match 2 * (p mod q) ?= q with
  | Lt => n
  | Gt => n + 1
  | Eq => if Z.even n then n else n + 1
  end.

(** The fraction [p / q / 2^x]: the denominator is multiplied by [2^x]
    when [x] is positive, the numerator by [2^(-x)] when it is negative. *)
Definition scale2 (p q x : Z) : Z * Z :=
  (p * 2 ^ Z.max (- x) 0, q * 2 ^ Z.max x 0).

(** The integer part of the binary logarithm of [p / q], both positive. *)
Definition log2_ratio (p q : Z) : Z :=
  let l := Z.log2 p - Z.log2 q in
  let (a, b) := scale2 p q l in
  if a <? b then l - 1 else l.

(** The double nearest to [p / q], both positive, as [n * 2^x]: 53
    significant bits are kept, fewer below [2^-1022]; [None] when the
    rounded value reaches [2^1024]. *)
Definition round64 (p q : Z) : option (Z * Z) :=
  let x := Z.max (-1074) (log2_ratio p q - 52) in
  let (a, b) := scale2 p q x in
  let n := nearest_even a b in
  if 1024 <=? Z.log2 n + x then None else Some (n, x).

(** Removes trailing zeros of [m] while the exponent is negative. *)
Fixpoint strip (fuel : nat) (m e : Z) : Z * Z :=
  match fuel with
  | O => (m, e)
  | S k => if (e <? 0) && (m mod 10 =? 0) then strip k (m / 10) (e + 1)
           else (m, e)
  end.

(** The one way [m * 10^e] is written: an integer as [Fin n 0], any other
    value with a mantissa that does not end in 0. *)
Definition canon (m e : Z) : num :=
  if 0 <=? e then Fin (m * 10 ^ e) 0
  else let (m', e') := strip (Z.to_nat (- e)) m e in Fin m' e'.

(** [n * 2^x] as a decimal. *)
Definition of_binary (n x : Z) : num :=
  if 0 <=? x then Fin (n * 2 ^ x) 0 else canon (n * 5 ^ (- x)) x.

(** The double nearest to a decimal. *)
Definition to_double (a : num) : num :=
  match a with
  | Fin m e =>
      if m =? 0 then Fin 0 0
      else
        let (p, q) := if 0 <=? e then (Z.abs m * 10 ^ e, 1)
                      else (Z.abs m, 10 ^ (- e)) in
        match round64 p q with
        | Some (n, x) => of_binary (Z.sgn m * n) x
        | None => if m <? 0 then NInf else PInf
        end
  | _ => a
  end.

(** [a + b] on numbers: the exact sum, rounded. *)
Definition add (a b : num) : num :=
  match to_double a, to_double b with
  | NaN, _ | _, NaN => NaN
  | PInf, NInf | NInf, PInf => NaN
  | PInf, _ | _, PInf => PInf
  | NInf, _ | _, NInf => NInf
  | Fin m e, Fin m' e' =>
      let c := Z.min e e' in
      to_double (Fin (m * 10 ^ (e - c) + m' * 10 ^ (e' - c)) c)
  end.

(** [a / 2]: the exact quotient, rounded. *)
Definition half (a : num) : num :=
  match to_double a with
  | Fin m e => to_double (Fin (5 * m) (e - 1))
  | other => other
  end.

End JsNum.

Export JsNum(num, NaN, PInf, NInf, Fin).

(* ===================================================================== *)
(** ** Strings and numerals *)
(* ===================================================================== *)

Module JsStr.

Local Open Scope string_scope.
Local Open Scope Z_scope.

(** White space of [TrimString]: TAB, LF, VT, FF, CR, SP and NBSP. *)
Definition is_ws (c : ascii) : bool :=
  let n := Z.of_nat (nat_of_ascii c) in
  ((9 <=? n) && (n <=? 13)) || (n =? 32) || (n =? 160).

Definition digit_val (c : ascii) : option Z :=
  let n := Z.of_nat (nat_of_ascii c) in
  if (48 <=? n) && (n <=? 57) then Some (n - 48) else None.

Definition hex_val (c : ascii) : option Z :=
  let n := Z.of_nat (nat_of_ascii c) in
  if (48 <=? n) && (n <=? 57) then Some (n - 48)
  else if (97 <=? n) && (n <=? 102) then Some (n - 87)
  else if (65 <=? n) && (n <=? 70) then Some (n - 55)
  else None.

Definition oct_val (c : ascii) : option Z :=
  let n := Z.of_nat (nat_of_ascii c) in
  if (48 <=? n) && (n <=? 55) then Some (n - 48) else None.

Definition bin_val (c : ascii) : option Z :=
  let n := Z.of_nat (nat_of_ascii c) in
  if (48 <=? n) && (n <=? 49) then Some (n - 48) else None.

Fixpoint skip_ws (s : string) : string :=
  match s with
  | String c r => if is_ws c then skip_ws r else s
  | EmptyString => s
  end.

(** Longest run of digits at the head of [s]: the accumulated value, the
    number of digits read, and the rest of the string. *)
Fixpoint scan_digits (val : ascii -> option Z) (radix : Z)
         (s : string) (acc : Z) (n : nat) : Z * nat * string :=
  match s with
  | String c r =>
      match val c with
      | Some d => scan_digits val radix r (acc * radix + d) (S n)
      | None => (acc, n, s)
      end
  | EmptyString => (acc, n, s)
  end.

(** An optional sign at the head of [s]. *)
Definition scan_sign (s : string) : bool * string :=
  match s with
  | String "-" r => (true, r)
  | String "+" r => (false, r)
  | _ => (false, s)
  end.

Definition signed (neg : bool) (v : Z) : Z := if neg then - v else v.

(** [parseInt(s)] with no radix argument. *)
Definition parseInt_str (s : string) : num :=
  let (neg, s2) := scan_sign (skip_ws s) in
  let (hex, s3) :=
    match s2 with
    | String "0" (String "x" r) => (true, r)
    | String "0" (String "X" r) => (true, r)
    | _ => (false, s2)
    end in
  let '(v, n, _) :=
    if hex then scan_digits hex_val 16 s3 0 O
    else scan_digits digit_val 10 s3 0 O in
  match n with
  | O => NaN
  | S _ => JsNum.to_double (Fin (signed neg v) 0)
  end.

(** The exponent part [e[+-]ddd] at the head of [s], if well formed. *)
Definition scan_exponent (s : string) : Z * string :=
  match s with
  | String c r =>
      if (Ascii.eqb c "e" || Ascii.eqb c "E")%bool then
        let (neg, r1) := scan_sign r in
        let '(x, n, r2) := scan_digits digit_val 10 r1 0 O in
        match n with
        | O => (0, s)
        | S _ => (signed neg x, r2)
        end
      else (0, s)
  | EmptyString => (0, s)
  end.

(** Longest prefix of [s] that is a [StrDecimalLiteral], with its value
    (the double nearest to the numeral) and the unread rest; [None] when no
    prefix is one. *)
Definition scan_decimal (s : string) : option (num * string) :=
  let (neg, s1) := scan_sign s in
  if prefix "Infinity" s1 then
    Some (if neg then NInf else PInf, substring 8 (length s1 - 8) s1)
  else
    let '(ip, n1, r1) := scan_digits digit_val 10 s1 0 O in
    let '(mant, n2, r2, dot) :=
      match r1 with
      | String "." r =>
          let '(v, n, r') := scan_digits digit_val 10 r ip O in
          (v, n, r', true)
      | _ => (ip, O, r1, false)
      end in
    match n1, n2 with
    | O, O => None
    | _, _ =>
        let (x, r3) := scan_exponent r2 in
        Some (JsNum.to_double (Fin (signed neg mant) (x - Z.of_nat n2)), r3)
    end.

(** [parseFloat(s)]. *)
Definition parseFloat_str (s : string) : num :=
  match scan_decimal (skip_ws s) with
  | Some (v, _) => v
  | None => NaN
  end.

(** A [NonDecimalIntegerLiteral] ([0x..], [0o..], [0b..]) filling [s]. *)
Definition scan_nondecimal (s : string) : option num :=
  let go (val : ascii -> option Z) (radix : Z) (r : string) :=
    let '(v, n, rest) := scan_digits val radix r 0 O in
    match n, skip_ws rest with
    | S _, EmptyString => Some (JsNum.to_double (Fin v 0))
    | _, _ => None
    end in
  match s with
  | String "0" (String c r) =>
      if (Ascii.eqb c "x" || Ascii.eqb c "X")%bool then go hex_val 16 r
      else if (Ascii.eqb c "o" || Ascii.eqb c "O")%bool then go oct_val 8 r
      else if (Ascii.eqb c "b" || Ascii.eqb c "B")%bool then go bin_val 2 r
      else None
  | _ => None
  end.

(** [Number(s)], the conversion of a string by [ToNumber]: the whole
    string, white space trimmed, must be a numeral; the empty string is 0. *)
Definition StringToNumber (s : string) : num :=
  let t := skip_ws s in
  match t with
  | EmptyString => Fin 0 0
  | _ =>
      match scan_nondecimal t with
      | Some v => v
      | None =>
          match scan_decimal t with
          | Some (v, rest) =>
              match skip_ws rest with
              | EmptyString => v
              | _ => NaN
              end
          | None => NaN
          end
      end
  end.

(** Decimal digits of a positive integer. *)
Definition digits (p : positive) : string :=
  NilEmpty.string_of_uint (Pos.to_uint p).

Fixpoint zeros (n : nat) : string :=
  match n with
  | O => EmptyString
  | S k => String "0" (zeros k)
  end.

(** Removes the trailing decimal zeros of [p * 10^e]. *)
Fixpoint strip_zeros (fuel : nat) (p : Z) (e : Z) : Z * Z :=
  match fuel with
  | O => (p, e)
  | S k => if (p mod 10 =? 0) && (0 <? p) then strip_zeros k (p / 10) (e + 1)
           else (p, e)
  end.

Definition ndigits (m : Z) : Z := Z.of_nat (length (digits (Z.to_pos m))).

(** The shortest decimal [s * 10^t] that reads back as the double
    [m * 10^e] ([m > 0]).  Decimals of [k], [k + 1], ... digits are tried
    in turn, the two next to the value on either side; of two that read
    back the nearer is taken, the even one if they are as near.  Seventeen
    digits tell any two doubles apart. *)
Fixpoint shortest (fuel : nat) (k : Z) (m e : Z) : Z * Z :=
  match fuel with
  | O => (m, e)
  | S f =>
      let t := ndigits m + e - k in
      let (a, b) := if t <=? e then (m * 10 ^ (e - t), 1)
                    else (m, 10 ^ (t - e)) in
      let lo := a / b in
      let hi := lo + 1 in
      let reads s := JsNum.eq (JsNum.to_double (Fin s t)) (Fin m e) in
      match reads lo, reads hi with
      | true, true =>
          match 2 * (a mod b) ?= b with
          | Lt => (lo, t)
          | Gt => (hi, t)
          | Eq => if Z.even lo then (lo, t) else (hi, t)
          end
      | true, false => (lo, t)
      | false, true => (hi, t)
      | false, false => shortest f (k + 1) m e
      end
  end.

(** [Number.prototype.toString()] (radix 10): the digits are those of the
    shortest decimal that reads back as the number. *)
Definition num_to_string (x : num) : string :=
  match JsNum.to_double x with
  | NaN => "NaN"
  | PInf => "Infinity"
  | NInf => "-Infinity"
  | Fin m e =>
      if m =? 0 then "0"
      else
        let sgn := if m <? 0 then "-" else "" in
        let (s0, e0) := shortest 17 1 (Z.abs m) e in
        let (s, e') := strip_zeros (Z.to_nat (Z.log2 s0) + 1) s0 e0 in
        let ds := digits (Z.to_pos s) in
        let k := Z.of_nat (length ds) in
        let n := e' + k in
        sgn ++
        (if (k <=? n) && (n <=? 21) then ds ++ zeros (Z.to_nat (n - k))
         else if (0 <? n) && (n <=? 21) then
           substring 0 (Z.to_nat n) ds ++ "." ++
           substring (Z.to_nat n) (Z.to_nat (k - n)) ds
         else if (-6 <? n) && (n <=? 0) then
           "0." ++ zeros (Z.to_nat (- n)) ++ ds
         else
           let x := n - 1 in
           let xs := (if x <? 0 then "-" else "+") ++
                     digits (Z.to_pos (Z.abs x)) in
           if k =? 1 then ds ++ "e" ++ xs
           else substring 0 1 ds ++ "." ++
                substring 1 (Z.to_nat (k - 1)) ds ++ "e" ++ xs)
  end.

(** [x.toFixed(2)] for a number [x]: the digits of the integer nearest to
    100 times the exact value of the double. *)
Definition toFixed2 (x : num) : string :=
  match JsNum.to_double x with
  | Fin m e =>
      if JsNum.le (Fin 1 21) (Fin (Z.abs m) e) then num_to_string x
      else
        (* n = the integer nearest to |x| * 100, the larger one on a tie *)
        let n := if 0 <=? e + 2 then Z.abs m * 10 ^ (e + 2)
                 else (2 * Z.abs m + 10 ^ (- (e + 2))) / (2 * 10 ^ (- (e + 2))) in
        let ds := if n =? 0 then "" else digits (Z.to_pos n) in
        let ds := zeros (3 - length ds) ++ ds in
        let k := length ds in
        (if m <? 0 then "-" else "") ++
        substring 0 (k - 2) ds ++ "." ++ substring (k - 2) 2 ds
  | _ => num_to_string x
  end.

End JsStr.

(* ===================================================================== *)
(** ** JSON values and their coercions *)
(* ===================================================================== *)

Module JsVal.

Import JsStr.
Local Open Scope string_scope.

(** What [JSON.parse] can return, and [undefined] for an absent property.
    An object is the list of its own properties; a number is the numeral
    of the message, whose value is the double nearest to it. *)
Inductive jsval : Type :=
| VUndef
| VNull
| VBool (b : bool)
| VNum (x : num)
| VStr (s : string)
| VArr (l : list jsval)
| VObj (fields : list (string * jsval)).

Fixpoint own_property (k : string) (fields : list (string * jsval))
  : option jsval :=
  match fields with
  | [] => None
  | (k', v) :: r => if String.eqb k k' then Some v else own_property k r
  end.

(** [data.k].  Reading a property of [null] or [undefined] throws
    ([None]); the prototypes of parsed values carry none of the names the
    program reads, so on anything but an object the result is undefined. *)
Definition get_property (data : jsval) (k : string) : option jsval :=
  match data with
  | VUndef | VNull => None
  | VObj fields =>
      match own_property k fields with
      | Some v => Some v
      | None => Some VUndef
      end
  | _ => Some VUndef
  end.

(** [ToString].  [None] is a thrown TypeError: an object is converted by
    its [toString] method, and an own property of that name, which in
    parsed JSON is never callable, hides the inherited one.  An array is
    the comma-joined conversion of its elements, [null] and [undefined]
    giving the empty string. *)
Fixpoint ToString (v : jsval) : option string :=
  match v with
  | VUndef => Some "undefined"
  | VNull => Some "null"
  | VBool true => Some "true"
  | VBool false => Some "false"
  | VNum x => Some (num_to_string x)
  | VStr s => Some s
  | VArr l =>
      let elt (x : jsval) :=
        match x with
        | VUndef | VNull => Some ""
        | _ => ToString x
        end in
      (fix join (l : list jsval) : option string :=
         match l with
         | [] => Some ""
         | [x] => elt x
         | x :: r =>
             match elt x with
             | Some a =>
                 match join r with
                 | Some b => Some (a ++ "," ++ b)
                 | None => None
                 end
             | None => None
             end
         end) l
  | VObj fields =>
      match own_property "toString" fields with
      | Some _ => None
      | None => Some "[object Object]"
      end
  end.

(** [ToPrimitive]: arrays and objects convert through [toString] (their
    [valueOf] returns the object itself). *)
Definition ToPrimitive (v : jsval) : option jsval :=
  match v with
  | VArr _ | VObj _ => option_map VStr (ToString v)
  | _ => Some v
  end.

(** [ToNumber]. *)
Definition ToNumber (v : jsval) : option num :=
  match ToPrimitive v with
  | Some VUndef => Some NaN
  | Some VNull => Some (Fin 0 0)
  | Some (VBool true) => Some (Fin 1 0)
  | Some (VBool false) => Some (Fin 0 0)
  | Some (VNum x) => Some (JsNum.to_double x)
  | Some (VStr s) => Some (StringToNumber s)
  | _ => None
  end.

(** [ToBoolean]. *)
Definition ToBoolean (v : jsval) : bool :=
  match v with
  | VUndef | VNull => false
  | VBool b => b
  | VNum x => negb (JsNum.isNaN x || JsNum.eq (JsNum.to_double x) (Fin 0 0))
  | VStr s => negb (String.eqb s "")
  | VArr _ | VObj _ => true
  end.

(** [parseInt(v)] and [parseFloat(v)]: the argument is converted to a
    string first. *)
Definition parseInt (v : jsval) : option num :=
  option_map parseInt_str (ToString v).

Definition parseFloat (v : jsval) : option num :=
  option_map parseFloat_str (ToString v).

(** [v < n] and [v > n] against a number [n]. *)
Definition lt_num (v : jsval) (n : num) : option bool :=
  option_map (fun x => JsNum.lt x n) (ToNumber v).

Definition gt_num (v : jsval) (n : num) : option bool :=
  option_map (fun x => JsNum.gt x n) (ToNumber v).

(** [a + b] where [b] is a number: concatenation when [a] converts to a
    string, addition otherwise. *)
Definition add_num (a : jsval) (b : num) : option jsval :=
  match ToPrimitive a with
  | Some (VStr s) => Some (VStr (s ++ num_to_string b))
  | Some p => option_map (fun x => VNum (JsNum.add x b)) (ToNumber p)
  | None => None
  end.

(** [v / 2]. *)
Definition div2 (v : jsval) : option num :=
  option_map JsNum.half (ToNumber v).

(** [v === s] for a string literal [s]. *)
Definition is_string (v : jsval) (s : string) : bool :=
  match v with
  | VStr t => String.eqb t s
  | _ => false
  end.

(** [a || b]. *)
Definition or_else (a b : jsval) : jsval :=
  if ToBoolean a then a else b.

(** [v.toFixed(2)]: only a number has the method; calling it on anything
    else throws. *)
Definition toFixed (v : jsval) : option string :=
  match v with
  | VNum x => Some (toFixed2 x)
  | _ => None
  end.

End JsVal.

Export JsVal(jsval, VUndef, VNull, VBool, VNum, VStr, VArr, VObj).

(* ===================================================================== *)
(** ** The server *)
(* ===================================================================== *)

Module Server.

Import JsVal JsStr.
Local Open Scope string_scope.
Local Open Scope list_scope.
Local Open Scope Z_scope.

(** *** Configuration *)

Definition PORT : Z := 2065.
Definition DEVICE_TIMEOUT : Z := 10000.
Definition CLOSE_TIMEOUT : Z := 5000.
Definition PREPARE_DELAY : Z := 11000.
Definition DEVICE_CHECK_INTERVAL : Z := 50.

(** *** Data *)

(** One entry of [deviceMap].  [vol], [max] and [min] only ever receive
    numbers; [avg] receives whatever the client sent. *)
Record Device : Type := mkDevice {
  deviceId : Z;
  vol : num;
  avg : jsval;
  max : num;
  min : num;
  con : bool;
  lastUpdate : Z
}.

Definition set_vol (x : num) (d : Device) : Device :=
  mkDevice (deviceId d) x (avg d) (max d) (min d) (con d) (lastUpdate d).
Definition set_avg (x : jsval) (d : Device) : Device :=
  mkDevice (deviceId d) (vol d) x (max d) (min d) (con d) (lastUpdate d).
Definition set_max (x : num) (d : Device) : Device :=
  mkDevice (deviceId d) (vol d) (avg d) x (min d) (con d) (lastUpdate d).
Definition set_min (x : num) (d : Device) : Device :=
  mkDevice (deviceId d) (vol d) (avg d) (max d) x (con d) (lastUpdate d).
Definition set_con (b : bool) (d : Device) : Device :=
  mkDevice (deviceId d) (vol d) (avg d) (max d) (min d) b (lastUpdate d).
Definition set_lastUpdate (t : Z) (d : Device) : Device :=
  mkDevice (deviceId d) (vol d) (avg d) (max d) (min d) (con d) t.

(** A JavaScript [Map] keeps its entries in insertion order. *)
Definition DeviceMap : Type := list (Z * Device).

Inductive readyState : Type := CONNECTING | OPEN | CLOSING | CLOSED.

Record Client : Type := mkClient {
  client_id : nat;
  ready : readyState
}.

(** The variables captured by the listeners that [handleTerminateProcess]
    installs: the array [clients], the set [closedClients], and the
    clients that carry a close/error listener. *)
Record Drain : Type := mkDrain {
  clients : list nat;
  closedClients : list nat;
  listening : list nat
}.

Record State : Type := mkState {
  deviceMap : DeviceMap;
  isTerminated : bool;
  isServerClosing : bool;
  deviceCheckInterval : bool;        (* the interval is scheduled *)
  closeTimeoutTimer : option Z;      (* a pending timeout and its delay *)
  wss_clients : list Client;         (* wss.clients *)
  rl_closed : bool;                  (* rl.closed *)
  drain : option Drain;
  wss_close_listeners : nat          (* calls of closeWebSocketServer *)
}.

Definition set_deviceMap (m : DeviceMap) (s : State) : State :=
  mkState m (isTerminated s) (isServerClosing s) (deviceCheckInterval s)
          (closeTimeoutTimer s) (wss_clients s) (rl_closed s) (drain s)
          (wss_close_listeners s).
Definition set_isTerminated (b : bool) (s : State) : State :=
  mkState (deviceMap s) b (isServerClosing s) (deviceCheckInterval s)
          (closeTimeoutTimer s) (wss_clients s) (rl_closed s) (drain s)
          (wss_close_listeners s).
Definition set_isServerClosing (b : bool) (s : State) : State :=
  mkState (deviceMap s) (isTerminated s) b (deviceCheckInterval s)
          (closeTimeoutTimer s) (wss_clients s) (rl_closed s) (drain s)
          (wss_close_listeners s).
Definition set_deviceCheckInterval (b : bool) (s : State) : State :=
  mkState (deviceMap s) (isTerminated s) (isServerClosing s) b
          (closeTimeoutTimer s) (wss_clients s) (rl_closed s) (drain s)
          (wss_close_listeners s).
Definition set_closeTimeoutTimer (t : option Z) (s : State) : State :=
  mkState (deviceMap s) (isTerminated s) (isServerClosing s)
          (deviceCheckInterval s) t (wss_clients s) (rl_closed s) (drain s)
          (wss_close_listeners s).
Definition set_wss_clients (l : list Client) (s : State) : State :=
  mkState (deviceMap s) (isTerminated s) (isServerClosing s)
          (deviceCheckInterval s) (closeTimeoutTimer s) l (rl_closed s)
          (drain s) (wss_close_listeners s).
Definition set_rl_closed (b : bool) (s : State) : State :=
  mkState (deviceMap s) (isTerminated s) (isServerClosing s)
          (deviceCheckInterval s) (closeTimeoutTimer s) (wss_clients s) b
          (drain s) (wss_close_listeners s).
Definition set_drain (d : option Drain) (s : State) : State :=
  mkState (deviceMap s) (isTerminated s) (isServerClosing s)
          (deviceCheckInterval s) (closeTimeoutTimer s) (wss_clients s)
          (rl_closed s) d (wss_close_listeners s).
Definition set_wss_close_listeners (n : nat) (s : State) : State :=
  mkState (deviceMap s) (isTerminated s) (isServerClosing s)
          (deviceCheckInterval s) (closeTimeoutTimer s) (wss_clients s)
          (rl_closed s) (drain s) n.

(** One record of the [end_statistics] payload. *)
Record Stat : Type := mkStat {
  stat_deviceId : Z;
  stat_max : num;
  stat_avg : num;
  stat_min : num
}.

Inductive payload : Type :=
| Snapshot (devices : list Device)      (* JSON of Array.from(deviceMap.values()) *)
| StartMonitor                          (* {type: 'start_monitor'} *)
| EndStatistics (data : list Stat).     (* {type: 'end_statistics', data} *)

(** What a handler does to the outside world. *)
Inductive effect : Type :=
| Broadcast (msg : payload) (recipients : list nat)  (* send to each open client *)
| CloseClient (c : nat)                              (* client.close(1000, ..) *)
| WssClose                                           (* wss.close(cb) *)
| ConsoleError.                                      (* the catch clause's console.error *)

(** *** Handlers as state transformers that may throw or exit *)

Inductive result (A : Type) : Type :=
| Ok (a : A)
| Throw
| Exit (code : Z).

Arguments Ok {A} a.
Arguments Throw {A}.
Arguments Exit {A} code.

Definition M (A : Type) : Type := State -> result A * State * list effect.

Definition ret {A} (a : A) : M A := fun s => (Ok a, s, []).

Definition bind {A B} (c : M A) (k : A -> M B) : M B :=
  fun s =>
    match c s with
    | (Ok a, s1, fx) =>
        match k a s1 with
        | (r, s2, fx') => (r, s2, fx ++ fx')
        end
    | (Throw, s1, fx) => (Throw, s1, fx)
    | (Exit code, s1, fx) => (Exit code, s1, fx)
    end.

Notation "x <- c1 ;; c2" := (bind c1 (fun x => c2))
  (at level 61, c1 at next level, right associativity).
Notation "c1 ;; c2" := (bind c1 (fun _ => c2))
  (at level 61, right associativity).

Definition gets {A} (f : State -> A) : M A := fun s => (Ok (f s), s, []).
Definition modify (f : State -> State) : M unit := fun s => (Ok tt, f s, []).
Definition throw {A} : M A := fun s => (Throw, s, []).
Definition process_exit {A} (code : Z) : M A := fun s => (Exit code, s, []).
Definition emit (e : effect) : M unit := fun s => (Ok tt, s, [e]).

(** An operation of the language that may throw. *)
Definition lift {A} (o : option A) : M A :=
  match o with
  | Some a => ret a
  | None => throw
  end.

(** [try { body } catch (e) { handler }]; [process.exit] is not caught. *)
Definition try_catch (body handler : M unit) : M unit :=
  fun s =>
    match body s with
    | (Throw, s1, fx) =>
        match handler s1 with
        | (r, s2, fx') => (r, s2, fx ++ fx')
        end
    | other => other
    end.

Fixpoint for_each {A} (l : list A) (body : A -> M unit) : M unit :=
  match l with
  | [] => ret tt
  | x :: r => body x ;; for_each r body
  end.

(** *** The device table *)

Definition device_ids : list Z := [1; 2; 3; 4; 5; 6].

(** The table built by the start-up loop; [clock i] is [Date.now()] as
    read in iteration [i]. *)
Definition initial_deviceMap (clock : Z -> Z) : DeviceMap :=
  map (fun i => (i, mkDevice i (Fin 0 0) (VNum (Fin 0 0)) (Fin 0 0)
                             (Fin 100 0) false (clock i)))
      device_ids.

Definition initial (clock : Z -> Z) : State :=
  mkState (initial_deviceMap clock) false false true None [] false None O.

(** Key equality of [Map.prototype.get] against an integer key. *)
Definition same_key (k : jsval) (i : Z) : bool :=
  match k with
  | VNum x => JsNum.eq (JsNum.to_double x) (Fin i 0)
  | _ => false
  end.

(** [deviceMap.get(k)]: a reference to the device stored under [k] (the
    key it is stored under), or [None] for [undefined]. *)
Fixpoint Map_get (m : DeviceMap) (k : jsval) : option Z :=
  match m with
  | [] => None
  | (i, _) :: r => if same_key k i then Some i else Map_get r k
  end.

Fixpoint lookup (m : DeviceMap) (i : Z) : option Device :=
  match m with
  | [] => None
  | (j, d) :: r => if i =? j then Some d else lookup r i
  end.

Fixpoint update (m : DeviceMap) (i : Z) (f : Device -> Device) : DeviceMap :=
  match m with
  | [] => []
  | (j, d) :: r => if i =? j then (j, f d) :: r else (j, d) :: update r i f
  end.

Definition get_device (k : jsval) : M (option Z) :=
  gets (fun s => Map_get (deviceMap s) k).

(** Reading a property of [device]; throws when [device] is undefined. *)
Definition read {A} (device : option Z) (field : Device -> A) : M A :=
  match device with
  | Some i => d <- (fun s => lift (lookup (deviceMap s) i) s) ;; ret (field d)
  | None => throw
  end.

(** Assigning a property of [device]; throws when [device] is undefined. *)
Definition assign (device : option Z) (f : Device -> Device) : M unit :=
  match device with
  | Some i => modify (fun s => set_deviceMap (update (deviceMap s) i f) s)
  | None => throw
  end.

Definition is_open (c : Client) : bool :=
  match ready c with OPEN => true | _ => false end.

Definition open_clients (s : State) : list nat :=
  map client_id (filter is_open (wss_clients s)).

(** *** Broadcasts (lines 116-145) *)

Definition broadcast : M unit :=
  closing <- gets isServerClosing ;;
  if closing then ret tt
  else
    s <- gets (fun s => s) ;;
    emit (Broadcast (Snapshot (map snd (deviceMap s))) (open_clients s)).

Definition broadcastStartMonitor : M unit :=
  s <- gets (fun s => s) ;;
  if isServerClosing s || isTerminated s then ret tt
  else emit (Broadcast StartMonitor (open_clients s)).

(** *** [updateDevice] (lines 228-243) *)

Definition updateDevice (data : jsval) (now : Z) : M bool :=
  deviceId <- lift (get_property data "deviceId") ;;
  reject <-
    (if negb (ToBoolean deviceId) then ret true
     else
       below <- lift (lt_num deviceId (Fin 1 0)) ;;
       if below then ret true else lift (gt_num deviceId (Fin 6 0))) ;;
  if reject then ret false
  else
    device <- get_device deviceId ;;
    v <- lift (get_property data "vol") ;;
    newVol <- lift (parseFloat v) ;;
    assign device (set_vol newVol) ;;
    a <- lift (get_property data "avg") ;;
    assign device (set_avg a) ;;
    hi <- read device max ;;
    assign device (set_max (JsNum.Math_max hi newVol)) ;;
    lo <- read device min ;;
    assign device (set_min (JsNum.Math_min lo newVol)) ;;
    assign device (set_con true) ;;
    assign device (set_lastUpdate now) ;;
    ret true.

(** *** [handleTerminateSignal] (lines 246-271) *)

(** [parseFloat(v.toFixed(2))]. *)
Definition rounded (v : jsval) : M num :=
  s <- lift (toFixed v) ;;
  ret (parseFloat_str s).

Fixpoint collect_stats (ids : list Z) : M (list Stat) :=
  match ids with
  | [] => ret []
  | i :: r =>
      device <- get_device (VNum (Fin i 0)) ;;
      hi <- read device max ;;
      hi' <- rounded (VNum hi) ;;
      a <- read device avg ;;
      a' <- rounded a ;;
      lo <- read device min ;;
      lo' <- rounded (VNum lo) ;;
      rest <- collect_stats r ;;
      ret (mkStat i hi' a' lo' :: rest)
  end.

Definition handleTerminateSignal : M unit :=
  terminated <- gets isTerminated ;;
  if terminated then ret tt
  else
    modify (set_isTerminated true) ;;
    statsData <- collect_stats device_ids ;;
    s <- gets (fun s => s) ;;
    emit (Broadcast (EndStatistics statsData) (open_clients s)).

(** *** Shutdown (lines 274-362) *)

Definition closeWebSocketServer : M unit :=
  emit WssClose ;;
  modify (fun s => set_wss_close_listeners (S (wss_close_listeners s)) s).

Definition forceExit : M unit :=
  modify (set_closeTimeoutTimer None) ;;
  process_exit 0.

Definition set_add (c : nat) (l : list nat) : list nat :=
  if existsb (Nat.eqb c) l then l else l ++ [c].

Definition closedClients_add (c : nat) : M unit :=
  modify (fun s =>
    match drain s with
    | Some d =>
        set_drain (Some (mkDrain (clients d) (set_add c (closedClients d))
                                 (listening d))) s
    | None => s
    end).

Definition add_listeners (c : nat) : M unit :=
  modify (fun s =>
    match drain s with
    | Some d =>
        set_drain (Some (mkDrain (clients d) (closedClients d)
                                 (set_add c (listening d)))) s
    | None => s
    end).

Definition checkAllClientsClosed : M unit :=
  d <- gets drain ;;
  match d with
  | Some d =>
      if (List.length (closedClients d) =? List.length (clients d))%nat
      then closeWebSocketServer
      else ret tt
  | None => ret tt
  end.

Definition mark_closing (c : nat) : M unit :=
  modify (fun s =>
    set_wss_clients
      (map (fun x => if (client_id x =? c)%nat then mkClient c CLOSING else x)
           (wss_clients s)) s).

(** The callback of [clients.forEach] (lines 292-309). *)
Definition drain_client (client : Client) : M unit :=
  if is_open client then
    emit (CloseClient (client_id client)) ;;
    mark_closing (client_id client) ;;
    add_listeners (client_id client)
  else
    closedClients_add (client_id client) ;;
    checkAllClientsClosed.

(** [deviceId] only feeds the log line, whose template literal converts
    it to a string. *)
Definition handleTerminateProcess (deviceId : jsval) : M unit :=
  closing <- gets isServerClosing ;;
  if closing then ret tt
  else
    modify (set_isServerClosing true) ;;
    _ <- lift (ToString deviceId) ;;
    modify (set_deviceCheckInterval false) ;;
    modify (set_closeTimeoutTimer None) ;;
    cs <- gets wss_clients ;;
    modify (set_drain (Some (mkDrain (map client_id cs) [] []))) ;;
    match cs with
    | [] => closeWebSocketServer
    | _ =>
        for_each cs drain_client ;;
        modify (set_closeTimeoutTimer (Some CLOSE_TIMEOUT))
    end.

(** The label passed by [closeServer] is the word for the console. *)
Definition closeServer : M unit :=
  closing <- gets isServerClosing ;;
  if closing then ret tt else handleTerminateProcess (VStr "console").

(** [rl.on('close')] (lines 41-43). *)
Definition on_rl_close : M unit :=
  closing <- gets isServerClosing ;;
  if closing then ret tt else closeServer.

(** [rl.close()] marks the interface closed and emits ['close']. *)
Definition closeReadline : M unit :=
  closed <- gets rl_closed ;;
  if negb closed then modify (set_rl_closed true) ;; on_rl_close
  else forceExit.

(** *** The console (lines 46-77, 365-380) *)

Definition printDeviceStatus : M unit :=
  for_each device_ids (fun i =>
    device <- get_device (VNum (Fin i 0)) ;;
    _ <- read device con ;;
    a <- read device avg ;;
    _ <- lift (toFixed a) ;;
    ret tt).

(** [input.split(' ')]. *)
Fixpoint split_space (s : string) : list string :=
  match s with
  | EmptyString => [EmptyString]
  | String c r =>
      if Ascii.eqb c " " then EmptyString :: split_space r
      else
        match split_space r with
        | h :: t => String c h :: t
        | [] => [String c EmptyString]
        end
  end.

Definition on_line (input : string) (now : Z) : M unit :=
  closing <- gets isServerClosing ;;
  if closing then ret tt
  else if String.eqb input "" then printDeviceStatus
  else if prefix "set " input then
    match split_space input with
    | [_; p1; p2] =>
        let deviceId := parseInt_str p1 in
        let vol := parseFloat_str p2 in
        if JsNum.ge deviceId (Fin 1 0) && JsNum.le deviceId (Fin 6 0)
           && negb (JsNum.isNaN vol)
           && JsNum.ge vol (Fin 0 0) && JsNum.le vol (Fin 100 0)
        then
          device <- get_device (VNum deviceId) ;;
          assign device (set_vol vol) ;;
          a <- read device avg ;;
          sum <- lift (add_num a vol) ;;
          mean <- lift (div2 sum) ;;
          assign device (set_avg (VNum mean)) ;;
          hi <- read device max ;;
          assign device (set_max (JsNum.Math_max hi vol)) ;;
          lo <- read device min ;;
          assign device (set_min (JsNum.Math_min lo vol)) ;;
          assign device (set_con true) ;;
          assign device (set_lastUpdate now) ;;
          broadcast
        else ret tt
    | _ => ret tt
    end
  else if String.eqb input "exit" || String.eqb input "quit" then closeServer
  else ret tt.

(** *** The liveness sweep (lines 80-105) *)

Definition sweep_device (now : Z) (i : Z) (statusChanged : bool) : M bool :=
  device <- get_device (VNum (Fin i 0)) ;;
  online <- read device con ;;
  if negb online then ret statusChanged
  else
    let previousStatus := online in
    seen <- read device lastUpdate ;;
    assign device (set_con (now - seen <? DEVICE_TIMEOUT)) ;;
    online' <- read device con ;;
    if Bool.eqb online' previousStatus then ret statusChanged else ret true.

Fixpoint sweep_loop (now : Z) (ids : list Z) (statusChanged : bool) : M bool :=
  match ids with
  | [] => ret statusChanged
  | i :: r =>
      changed <- sweep_device now i statusChanged ;;
      sweep_loop now r changed
  end.

Definition on_tick (now : Z) : M unit :=
  closing <- gets isServerClosing ;;
  if closing then ret tt
  else
    statusChanged <- sweep_loop now device_ids false ;;
    if statusChanged then broadcast else ret tt.

(** *** Connections and messages (lines 148-225) *)

Definition on_connection (c : nat) : M unit :=
  modify (fun s => set_wss_clients (wss_clients s ++ [mkClient c OPEN]) s) ;;
  broadcast.

Definition in_range (id : num) : bool :=
  JsNum.ge id (Fin 1 0) && JsNum.le id (Fin 6 0).

Definition on_message (message : option jsval) (now : Z) : M unit :=
  try_catch
    (data <- lift message ;;
     ty <- lift (get_property data "type") ;;
     if is_string ty "terminate_process" then
       deviceId <- lift (get_property data "deviceId") ;;
       handleTerminateProcess (or_else deviceId (VStr "unknown"))
     else
       closing <- gets isServerClosing ;;
       if closing then ret tt
       else if is_string ty "login" then
         v <- lift (get_property data "device") ;;
         loginId <- lift (parseInt v) ;;
         if in_range loginId then
           device <- get_device (VNum loginId) ;;
           assign device (set_con true) ;;
           assign device (set_lastUpdate now) ;;
           broadcast
         else ret tt
       else if is_string ty "logout" then
         v <- lift (get_property data "deviceId") ;;
         logoutId <- lift (parseInt v) ;;
         if in_range logoutId then
           device <- get_device (VNum logoutId) ;;
           assign device (set_con false) ;;
           broadcast
         else ret tt
       else if is_string ty "terminate" then handleTerminateSignal
       else if is_string ty "volume" then
         updated <- updateDevice data now ;;
         if updated then broadcast else ret tt
       else if is_string ty "start_monitor" then
         v <- lift (get_property data "deviceId") ;;
         adminDeviceId <- lift (parseInt v) ;;
         if JsNum.eq adminDeviceId (Fin 1 0) then broadcastStartMonitor
         else ret tt
       else ret tt)
    (emit ConsoleError).

(** The library drops a closed socket from [wss.clients]; the listeners
    installed by [handleTerminateProcess] then run. *)
Definition drain_listener (c : nat) : M unit :=
  d <- gets drain ;;
  match d with
  | Some d =>
      if existsb (Nat.eqb c) (listening d)
      then closedClients_add c ;; checkAllClientsClosed
      else ret tt
  | None => ret tt
  end.

Definition on_client_close (c : nat) : M unit :=
  modify (fun s =>
    set_wss_clients
      (filter (fun x => negb (client_id x =? c)%nat) (wss_clients s)) s) ;;
  drain_listener c.

Definition on_client_error (c : nat) : M unit := drain_listener c.

(** *** Process-level handlers (lines 383-398) *)

Definition on_sigint : M unit := closeServer.

Definition on_uncaught : M unit :=
  closing <- gets isServerClosing ;;
  if closing then forceExit else closeServer.

(** *** The event loop *)

Inductive event : Type :=
| Connection (c : nat)                      (* wss 'connection' *)
| Message (message : option jsval) (now : Z) (* ws 'message'; [None]: no JSON *)
| ClientClose (c : nat)                     (* ws 'close' *)
| ClientError (c : nat)                     (* ws 'error' *)
| Line (input : string) (now : Z)           (* rl 'line' *)
| EndOfInput                                (* the console input ends *)
| Tick (now : Z)                            (* the interval fires *)
| CloseTimeout                              (* the shutdown timeout fires *)
| WssCloseCallback (err : bool)             (* the callback given to wss.close *)
| WssCloseEvent                             (* wss 'close' *)
| Sigint
| Fault.                                    (* an exception or rejection raised
                                               outside these handlers *)

(** The handler an event runs.  Timers fire only while scheduled, and the
    server's close notifications only after [wss.close] was called. *)
Definition handler (ev : event) : M unit :=
  match ev with
  | Connection c => on_connection c
  | Message message now => on_message message now
  | ClientClose c => on_client_close c
  | ClientError c => on_client_error c
  | Line input now => on_line input now
  | EndOfInput =>
      closed <- gets rl_closed ;;
      if closed then ret tt
      else modify (set_rl_closed true) ;; on_rl_close
  | Tick now =>
      scheduled <- gets deviceCheckInterval ;;
      if scheduled then on_tick now else ret tt
  | CloseTimeout =>
      timer <- gets closeTimeoutTimer ;;
      match timer with
      | Some _ => modify (set_closeTimeoutTimer None) ;; forceExit
      | None => ret tt
      end
  | WssCloseCallback err =>
      n <- gets wss_close_listeners ;;
      match n with
      | O => ret tt
      | S _ => if err then forceExit else closeReadline
      end
  | WssCloseEvent =>
      n <- gets wss_close_listeners ;;
      for_each (repeat tt n) (fun _ => closeReadline)
  | Sigint => on_sigint
  | Fault => throw
  end.

Inductive process : Type :=
| Running (s : State)
| Exited (code : Z).

(** One turn of the event loop.  An exception that leaves a handler is an
    uncaught exception: the ['uncaughtException'] listener runs on the
    state the handler left behind.  (Should that listener throw, Node exits
    with status 7.) *)
Definition step (ev : event) (s : State) : process * list effect :=
  match handler ev s with
  | (Ok _, s1, fx) => (Running s1, fx)
  | (Exit code, _, fx) => (Exited code, fx)
  | (Throw, s1, fx) =>
      match on_uncaught s1 with
      | (Ok _, s2, fx') => (Running s2, fx ++ fx')
      | (Exit code, _, fx') => (Exited code, fx ++ fx')
      | (Throw, _, fx') => (Exited 7, fx ++ fx')
      end
  end.

(** A run of the event loop from [s]; events after the exit are lost. *)
Fixpoint run (evs : list event) (s : State) : process * list effect :=
  match evs with
  | [] => (Running s, [])
  | ev :: r =>
      match step ev s with
      | (Running s1, fx) =>
          match run r s1 with
          | (p, fx') => (p, fx ++ fx')
          end
      | (Exited code, fx) => (Exited code, fx)
      end
  end.

(** An exception leaves the handler of [ev] in state [s]. *)
Definition escapes (ev : event) (s : State) : bool :=
  match handler ev s with
  | (Throw, _, _) => true
  | _ => false
  end.

End Server.

(* ===================================================================== *)
(** ** Vocabulary of the properties *)
(* ===================================================================== *)

Module Spec.

Import JsVal JsStr Server.
Local Open Scope string_scope.
Local Open Scope list_scope.
Local Open Scope Z_scope.

(** [Map.get] looks at the keys only. *)
Fixpoint find_key (keys : list Z) (k : jsval) : option Z :=
  match keys with
  | [] => None
  | i :: r => if same_key k i then Some i else find_key r k
  end.

(** The table has exactly the keys 1..6, in this order. *)
Definition well_formed (s : State) : Prop :=
  map fst (deviceMap s) = device_ids.

(** The states the process can be in: those of a run from start-up. *)
Inductive reachable : State -> Prop :=
| reach_initial (clock : Z -> Z) : reachable (initial clock)
| reach_step (s s' : State) (ev : event) (fx : list effect) :
    reachable s -> step ev s = (Running s', fx) -> reachable s'.

(** The table of [s'] has the keys of the table of [s]. *)
Definition same_keys (s s' : State) : Prop :=
  map fst (deviceMap s') = map fst (deviceMap s).

(** What one sweep at time [now] does to a device. *)
Definition demote (now : Z) (d : Device) : Device :=
  if con d then set_con (now - lastUpdate d <? DEVICE_TIMEOUT) d else d.

Definition sweep_table (now : Z) (ids : list Z) (m : DeviceMap) : DeviceMap :=
  fold_left (fun m i => update m i (demote now)) ids m.

(** What [handleTerminateProcess] leaves untouched. *)
Definition drain_frame (s s' : State) : Prop :=
  deviceMap s' = deviceMap s /\ isTerminated s' = isTerminated s /\
  rl_closed s' = rl_closed s.

(** While the server is closing, the flag stays set and the pending
    deadline is left alone. *)
Definition deadline_kept (s s' : State) : Prop :=
  isServerClosing s = true ->
  isServerClosing s' = true /\ closeTimeoutTimer s' = closeTimeoutTimer s.

(** The events that ask for a shutdown: a [terminate_process] message
    (whose [deviceId], if any, can be printed in the log line), the console
    commands [exit] and [quit], and the interrupt signal. *)
Inductive shutdown_trigger : event -> Prop :=
| trigger_message (data deviceId : jsval) (now : Z) :
    get_property data "type" = Some (VStr "terminate_process") ->
    get_property data "deviceId" = Some deviceId ->
    ToString (or_else deviceId (VStr "unknown")) <> None ->
    shutdown_trigger (Message (Some data) now)
| trigger_exit (now : Z) : shutdown_trigger (Line "exit" now)
| trigger_quit (now : Z) : shutdown_trigger (Line "quit" now)
| trigger_sigint : shutdown_trigger Sigint.

(** [parseInt] of the message's [deviceId] is the admin's id, 1. *)
Definition is_admin (v : jsval) : Prop :=
  exists x, parseInt v = Some x /\ JsNum.eq x (Fin 1 0) = true.

(** A login, logout or volume message that addresses no device: for login
    and logout the id is what [parseInt] makes of the field, for volume it
    is the field itself, which must be one of the keys 1..6. *)
Inductive addresses_no_device : jsval -> Prop :=
| no_device_login (data v : jsval) :
    get_property data "type" = Some (VStr "login") ->
    get_property data "device" = Some v ->
    (forall x, parseInt v = Some x -> in_range x = false) ->
    addresses_no_device data
| no_device_logout (data v : jsval) :
    get_property data "type" = Some (VStr "logout") ->
    get_property data "deviceId" = Some v ->
    (forall x, parseInt v = Some x -> in_range x = false) ->
    addresses_no_device data
| no_device_volume (data k : jsval) :
    get_property data "type" = Some (VStr "volume") ->
    get_property data "deviceId" = Some k ->
    (forall i, 1 <= i <= 6 -> same_key k i = false) ->
    addresses_no_device data.

(** What a successful [updateDevice] makes of a device: the reading [x]
    with the client's average [a], received at time [now]. *)
Definition reading (x : num) (a : jsval) (now : Z) (d : Device) : Device :=
  mkDevice (deviceId d) x a (JsNum.Math_max (max d) x)
           (JsNum.Math_min (min d) x) true now.

(** A value whose type is not [number]. *)
Definition not_a_number (v : jsval) : Prop := forall x, v <> VNum x.

(** [parseFloat(x.toFixed(2))] for a number [x]. *)
Definition round2 (x : num) : num := parseFloat_str (toFixed2 x).

(** The statistics record of device [i] whose average is the number [a]. *)
Definition stat_of (i : Z) (d : Device) (a : num) : Stat :=
  mkStat i (round2 (max d)) (round2 a) (round2 (min d)).

(** The record the reporter makes of device [i], when its average is a
    number. *)
Definition stat_entry (m : DeviceMap) (i : Z) : option Stat :=
  match lookup m i with
  | Some d =>
      match avg d with
      | VNum a => Some (stat_of i d a)
      | _ => None
      end
  | None => None
  end.

(** Every stored average is a number. *)
Definition numeric_averages (s : State) : Prop :=
  forall i d, lookup (deviceMap s) i = Some d -> exists a, avg d = VNum a.

(** The [con] column of a snapshot push; empty for any other effect. *)
Definition snapshot_flags (e : effect) : list bool :=
  match e with
  | Broadcast (Snapshot devices) _ => map con devices
  | _ => []
  end.

(** A message with the given fields. *)
Definition message_of (fields : list (string * jsval)) (now : Z) : event :=
  Message (Some (VObj fields)) now.

(** The effect is the push of an [end_statistics] event. *)
Definition is_end_statistics (e : effect) : bool :=
  match e with
  | Broadcast (EndStatistics _) _ => true
  | _ => false
  end.

(** Both watermarks of the device are numbers. *)
Definition numeric (d : Device) : Prop := max d <> NaN /\ min d <> NaN.

(** From [s] to [s'] no device with numeric watermarks sees its [max]
    decrease or its [min] increase, and its watermarks stay numeric. *)
Definition watermarks_grow (s s' : State) : Prop :=
  forall i d,
    lookup (deviceMap s) i = Some d -> numeric d ->
    exists d',
      lookup (deviceMap s') i = Some d' /\ numeric d' /\
      JsNum.le (max d) (max d') = true /\
      JsNum.le (min d') (min d) = true.

(** The reading carried by the event, if it is a volume message whose
    [vol] parses, is non-negative.  (The console's [set] command accepts
    only values within 0..100.) *)
Definition nonneg_reading (ev : event) : bool :=
  match ev with
  | Message (Some data) _ =>
      match get_property data "type" with
      | Some ty =>
          if is_string ty "volume" then
            match get_property data "vol" with
            | Some v =>
                match parseFloat v with
                | Some x => JsNum.le (Fin 0 0) x
                | None => true
                end
            | None => true
            end
          else true
      | None => true
      end
  | _ => true
  end.

(** *** Vocabulary of the further properties *)

(** The table holds the six devices, each under its own id. *)
Definition ids_in_place (s : State) : Prop :=
  map fst (deviceMap s) = device_ids /\
  map (fun p => deviceId (snd p)) (deviceMap s) = device_ids.

(** A snapshot push lists the six devices, in the order of their ids. *)
Definition lists_six_devices (e : effect) : Prop :=
  match e with
  | Broadcast (Snapshot devices) _ => map deviceId devices = device_ids
  | _ => True
  end.

(** The effect sends something to the clients. *)
Definition is_push (e : effect) : bool :=
  match e with
  | Broadcast _ _ => true
  | _ => false
  end.

(** The effect is the push of a [start_monitor] or an [end_statistics]
    event. *)
Definition is_monitoring_push (e : effect) : bool :=
  match e with
  | Broadcast StartMonitor _ => true
  | Broadcast (EndStatistics _) _ => true
  | _ => false
  end.

(** The events that carry input to the server: a message, a console
    line, a tick of the sweep, the interrupt signal. *)
Definition is_input (ev : event) : bool :=
  match ev with
  | Message _ _ | Line _ _ | Tick _ | Sigint => true
  | _ => false
  end.

(** The events whose handlers assign to the devices. *)
Definition table_event (ev : event) : bool :=
  match ev with
  | Message _ _ | Line _ _ | Tick _ => true
  | _ => false
  end.

(** Device [i] is online and was last updated [DEVICE_TIMEOUT] or more
    before [now]. *)
Definition timed_out (now : Z) (m : DeviceMap) (i : Z) : bool :=
  match lookup m i with
  | Some d => con d && (DEVICE_TIMEOUT <=? now - lastUpdate d)
  | None => false
  end.

(** From [s] to [s'] the volume of every device is left as it was or set
    to a value within 0..100. *)
Definition volumes_validated (s s' : State) : Prop :=
  forall i d,
    lookup (deviceMap s) i = Some d ->
    exists d',
      lookup (deviceMap s') i = Some d' /\
      (vol d' = vol d \/
       (JsNum.le (Fin 0 0) (vol d') = true /\
        JsNum.le (vol d') (Fin 100 0) = true)).

(** The device table and the termination flag are the same in [s']. *)
Definition same_table (s s' : State) : Prop :=
  deviceMap s' = deviceMap s /\ isTerminated s' = isTerminated s.

(** The [avg] carried by the event, if it is a volume message, is a
    number. *)
Definition numeric_avg (ev : event) : bool :=
  match ev with
  | Message (Some data) _ =>
      match get_property data "type" with
      | Some ty =>
          if is_string ty "volume" then
            match get_property data "avg" with
            | Some (VNum _) => true
            | _ => false
            end
          else true
      | None => true
      end
  | _ => true
  end.

(** If every stored average was a number in [s], so it is in [s']. *)
Definition averages_kept (s s' : State) : Prop :=
  numeric_averages s -> numeric_averages s'.

(** Nothing of the shutdown is under way: no deadline is pending,
    [wss.close] was not called, and no socket is being drained. *)
Definition idle (s : State) : Prop :=
  closeTimeoutTimer s = None /\ wss_close_listeners s = O /\ drain s = None.

(** The effect closes a socket or the server. *)
Definition is_close (e : effect) : bool :=
  match e with
  | CloseClient _ | WssClose => true
  | _ => false
  end.

(** The reading carried by the event, if it is a volume message whose
    [vol] parses, is a number.  (The console's [set] command refuses
    NaN.) *)
Definition numeric_reading (ev : event) : bool :=
  match ev with
  | Message (Some data) _ =>
      match get_property data "type" with
      | Some ty =>
          if is_string ty "volume" then
            match get_property data "vol" with
            | Some v =>
                match parseFloat v with
                | Some x => negb (JsNum.isNaN x)
                | None => true
                end
            | None => true
            end
          else true
      | None => true
      end
  | _ => true
  end.

(** The watermarks of the device are numbers, and the device has the
    volume and the watermarks of start-up, or its volume lies between its
    watermarks. *)
Definition bracketed (d : Device) : Prop :=
  numeric d /\
  ((vol d = Fin 0 0 /\ max d = Fin 0 0 /\ min d = Fin 100 0) \/
   (JsNum.le (min d) (vol d) = true /\ JsNum.le (vol d) (max d) = true)).

Definition all_bracketed (s : State) : Prop :=
  forall i d, lookup (deviceMap s) i = Some d -> bracketed d.

(** The bookkeeping of the shutdown is sound: no socket is counted twice,
    only captured sockets are counted or carry a listener, and [wss.close]
    was called only once every captured socket was counted. *)
Definition drain_accounted (s : State) : Prop :=
  match drain s with
  | Some d =>
      NoDup (closedClients d) /\
      incl (closedClients d) (clients d) /\
      incl (listening d) (clients d) /\
      ((0 < wss_close_listeners s)%nat -> incl (clients d) (closedClients d))
  | None => wss_close_listeners s = O
  end.

End Spec.

(* ===================================================================== *)
(** ** A weakest-precondition reading of handlers *)
(* ===================================================================== *)

Module Hoare.

Import JsVal JsStr Server.
Local Open Scope list_scope.

Definition post (A : Type) : Type := result A -> State -> list effect -> Prop.

(** Running [c] from [s] ends in a result, a state and effects that
    satisfy [Q]. *)
Definition wp {A} (c : M A) (Q : post A) (s : State) : Prop :=
  let '(r, s', fx) := c s in Q r s' fx.

(** What must hold after [c] for [Q] to hold after [c] followed by [k]. *)
Definition and_then {A B} (k : A -> M B) (Q : post B) : post A :=
  fun r s1 fx1 =>
    match r with
    | Ok a => wp (k a) (fun r' s2 fx2 => Q r' s2 (fx1 ++ fx2)) s1
    | Throw => Q Throw s1 fx1
    | Exit code => Q (Exit code) s1 fx1
    end.

(** [P], unless the result is the exit of the process. *)
Definition unless_exit {A} (r : result A) (P : Prop) : Prop :=
  match r with
  | Exit _ => True
  | _ => P
  end.

(** Unless [c] exits the process, the state it leaves is related by [R]
    to the one it started from. *)
Definition respects (R : State -> State -> Prop) {A} (c : M A) : Prop :=
  forall s, wp c (fun r s' _ => unless_exit r (R s s')) s.

(** The status of the exit, if the process exits, satisfies [X]. *)
Definition exit_ok (X : Z -> Prop) {A} (r : result A) : Prop :=
  match r with
  | Exit code => X code
  | _ => True
  end.

Definition status_zero (code : Z) : Prop := code = 0%Z.

Definition no_status (code : Z) : Prop := False.

(** From a state that satisfies [J], [c] leaves a state that satisfies
    [J], has only effects that satisfy [P], and exits, if it does, with a
    status that satisfies [X]. *)
Definition keeps (J : State -> Prop) (P : effect -> Prop) (X : Z -> Prop)
           {A} (c : M A) : Prop :=
  forall s, J s ->
    wp c (fun r s' fx => J s' /\ Forall P fx /\ exit_ok X r) s.

(** What a handler started while the server is running and idle leaves
    behind: it does not exit the process; if it throws, the server is
    still running; and if the server is still running, it is still idle
    and nothing was closed. *)
Definition stays_up {A} : post A :=
  fun r s' fx =>
    (forall code, r <> Exit code) /\
    (r = Throw -> isServerClosing s' = false) /\
    (isServerClosing s' = false ->
     Spec.idle s' /\ Forall (fun e => Spec.is_close e = false) fx).

End Hoare.

(* ===================================================================== *)
(** ** The conversions on examples *)
(* ===================================================================== *)

Module ConversionExamples.

Import JsNum JsStr JsVal.
Local Open Scope string_scope.

Example parseInt_fraction : parseInt (VNum (Fin 65 (-1))) = Some (Fin 6 0).
Proof. vm_compute. reflexivity. Qed.

Example parseInt_text : parseInt (VStr "  42px") = Some (Fin 42 0).
Proof. vm_compute. reflexivity. Qed.

Example parseInt_hex : parseInt (VStr "-0x1F") = Some (Fin (-31) 0).
Proof. vm_compute. reflexivity. Qed.

Example parseInt_no_digits : parseInt (VStr "abc") = Some NaN.
Proof. vm_compute. reflexivity. Qed.

Example parseInt_null : parseInt VNull = Some NaN.
Proof. vm_compute. reflexivity. Qed.

Example parseInt_large : parseInt (VNum (Fin 1 21)) = Some (Fin 1 0).
Proof. vm_compute. reflexivity. Qed.

Example parseInt_array : parseInt (VArr [VNum (Fin 3 0); VStr "x"]) = Some (Fin 3 0).
Proof. vm_compute. reflexivity. Qed.

Example parseInt_own_toString :
  parseInt (VObj [("toString", VNum (Fin 1 0))]) = None.
Proof. vm_compute. reflexivity. Qed.

Example parseFloat_prefix : parseFloat (VStr "3.25abc") = Some (Fin 325 (-2)).
Proof. vm_compute. reflexivity. Qed.

Example parseFloat_exponent : parseFloat (VStr "2.5e-1x") = Some (Fin 25 (-2)).
Proof. vm_compute. reflexivity. Qed.

Example parseFloat_infinity : parseFloat (VStr "-Infinity") = Some NInf.
Proof. vm_compute. reflexivity. Qed.

(** A numeral is read as the nearest double. *)
Example parseFloat_nearest :
  map parseFloat_str ["6.0000000000000001"; "1e400"; "-1e400"; "1e-400";
                      "9007199254740993"; "0.1"]
  = [Fin 6 0; PInf; NInf; Fin 0 0; Fin 9007199254740992 0;
     Fin 1000000000000000055511151231257827021181583404541015625 (-55)].
Proof. vm_compute. reflexivity. Qed.

Example parseFloat_undefined : parseFloat VUndef = Some NaN.
Proof. vm_compute. reflexivity. Qed.

Example parseFloat_number : parseFloat (VNum (Fin 675 (-1))) = Some (Fin 675 (-1)).
Proof. vm_compute. reflexivity. Qed.

Example ToNumber_empty : ToNumber (VStr "") = Some (Fin 0 0).
Proof. vm_compute. reflexivity. Qed.

Example ToNumber_padded : ToNumber (VStr " 3 ") = Some (Fin 3 0).
Proof. vm_compute. reflexivity. Qed.

Example ToNumber_trailing : ToNumber (VStr "3abc") = Some NaN.
Proof. vm_compute. reflexivity. Qed.

Example ToNumber_singleton : ToNumber (VArr [VStr "3"]) = Some (Fin 3 0).
Proof. vm_compute. reflexivity. Qed.

Example ToNumber_pair : ToNumber (VArr [VNum (Fin 1 0); VNum (Fin 2 0)]) = Some NaN.
Proof. vm_compute. reflexivity. Qed.

Example ToNumber_object : ToNumber (VObj []) = Some NaN.
Proof. vm_compute. reflexivity. Qed.

Example ToString_numbers :
  map num_to_string [Fin 65 (-1); Fin 1 21; Fin 1 20; Fin 123 (-8);
                     Fin 123 (-9); Fin (-1500) 0; Fin 12345 20; Fin 1 (-1);
                     Fin 60000000000000001 (-16)]
  = ["6.5"; "1e+21"; "100000000000000000000"; "0.00000123"; "1.23e-7";
     "-1500"; "1.2345e+24"; "0.1"; "6"].
Proof. vm_compute. reflexivity. Qed.

Example toFixed_examples :
  map toFixed2 [Fin 65 (-1); Fin 12345 (-4); Fin 125 (-3); Fin 1005 (-3);
                Fin (-1) (-3); Fin 1 21; NaN]
  = ["6.50"; "1.23"; "0.13"; "1.00"; "-0.00"; "1e+21"; "NaN"].
Proof. vm_compute. reflexivity. Qed.

Example add_text : add_num (VStr "1") (Fin 5 0) = Some (VStr "15").
Proof. vm_compute. reflexivity. Qed.

Example add_number :
  add_num (VNum (Fin 25 0)) (Fin 305 (-1)) = Some (VNum (Fin 555 (-1))).
Proof. vm_compute. reflexivity. Qed.

(** The sum and the quotient are rounded: [(0.1 + 0.2) / 2]. *)
Example add_rounds :
  map num_to_string [add (Fin 1 (-1)) (Fin 2 (-1));
                     half (add (Fin 1 (-1)) (Fin 2 (-1)))]
  = ["0.30000000000000004"; "0.15000000000000002"].
Proof. vm_compute. reflexivity. Qed.

Example add_undefined : add_num VUndef (Fin 5 0) = Some (VNum NaN).
Proof. vm_compute. reflexivity. Qed.

Example Math_max_NaN : Math_max (Fin 0 0) NaN = NaN.
Proof. vm_compute. reflexivity. Qed.

Example compare_decimals : lt (Fin 65 (-1)) (Fin 7 0) = true.
Proof. vm_compute. reflexivity. Qed.

End ConversionExamples.

(* ===================================================================== *)
(** ** Facts about numbers *)
(* ===================================================================== *)

Module JsNumFacts.

Import JsNum.

Lemma compare_refl (a : num) : a <> NaN -> compare a a = Some Eq.
Proof.
  destruct a; cbn [compare]; try congruence. intros _.
  f_equal. apply Qeq_alt. reflexivity.
Qed.

Lemma compare_antisym (a b : num) :
  compare b a = option_map CompOpp (compare a b).
Proof.
  destruct a, b; cbn [compare option_map CompOpp]; try reflexivity.
  now rewrite <- Qcompare_antisym.
Qed.

Lemma le_refl (a : num) : a <> NaN -> le a a = true.
Proof. intros H. unfold le. now rewrite compare_refl. Qed.

Lemma lt_le (a b : num) : lt a b = true -> le a b = true.
Proof. unfold lt, le. now destruct (compare a b) as [[]|]. Qed.

Lemma le_numbers (a b : num) : le a b = true -> a <> NaN /\ b <> NaN.
Proof. unfold le. destruct a, b; cbn; split; congruence. Qed.

Lemma not_lt_le (a b : num) :
  a <> NaN -> b <> NaN -> lt a b = false -> le b a = true.
Proof.
  unfold lt, le. rewrite (compare_antisym a b).
  destruct a, b; cbn [compare option_map CompOpp]; try congruence.
  now destruct (Qcompare _ _).
Qed.

Lemma le_trans (a b c : num) :
  le a b = true -> le b c = true -> le a c = true.
Proof.
  unfold le.
  destruct a as [| | |m1 e1], b as [| | |m2 e2], c as [| | |m3 e3];
    cbn [compare]; try congruence.
  intros H1 H2.
  assert (L1 : (Qval m1 e1 <= Qval m2 e2)%Q).
  { apply Qle_alt. destruct (Qcompare (Qval m1 e1) (Qval m2 e2)); congruence. }
  assert (L2 : (Qval m2 e2 <= Qval m3 e3)%Q).
  { apply Qle_alt. destruct (Qcompare (Qval m2 e2) (Qval m3 e3)); congruence. }
  pose proof (proj1 (Qle_alt _ _) (Qle_trans _ _ _ L1 L2)) as L3.
  destruct (Qcompare (Qval m1 e1) (Qval m3 e3)); congruence.
Qed.

(** [Math.max] dominates both arguments and [Math.min] is dominated by
    both, provided neither is NaN. *)
Lemma Math_max_spec (a b : num) :
  a <> NaN -> b <> NaN ->
  Math_max a b <> NaN /\
  le a (Math_max a b) = true /\ le b (Math_max a b) = true.
Proof.
  intros Ha Hb.
  assert (E : Math_max a b = if lt a b then b else a)
    by (destruct a, b; try reflexivity; congruence).
  rewrite E. destruct (lt a b) eqn:L.
  - repeat split; auto using lt_le, le_refl.
  - repeat split; auto using not_lt_le, le_refl.
Qed.

Lemma Math_min_spec (a b : num) :
  a <> NaN -> b <> NaN ->
  Math_min a b <> NaN /\
  le (Math_min a b) a = true /\ le (Math_min a b) b = true.
Proof.
  intros Ha Hb.
  assert (E : Math_min a b = if lt b a then b else a)
    by (destruct a, b; try reflexivity; congruence).
  rewrite E. destruct (lt b a) eqn:L.
  - repeat split; auto using lt_le, le_refl.
  - repeat split; auto using not_lt_le, le_refl.
Qed.

Lemma Math_max_NaN_r (a : num) : Math_max a NaN = NaN.
Proof. now destruct a. Qed.

Lemma Math_min_NaN_r (a : num) : Math_min a NaN = NaN.
Proof. now destruct a. Qed.

(** *** Rounding an integer *)

(** A multiple of [10^k] written with the exponent [-k] is an integer. *)
Lemma strip_power (k : nat) (a : Z) :
  strip k (a * 10 ^ Z.of_nat k) (- Z.of_nat k) = (a, 0).
Proof.
  induction k as [|k IH].
  - cbn. now rewrite Z.mul_1_r.
  - cbn [strip].
    assert (E : a * 10 ^ Z.of_nat (S k) = a * 10 ^ Z.of_nat k * 10).
    { rewrite Nat2Z.inj_succ, Z.pow_succ_r by lia. ring. }
    rewrite E, Z.mod_mul, Z.div_mul by lia.
    replace (- Z.of_nat (S k) <? 0) with true by (symmetry; apply Z.ltb_lt; lia).
    cbn [andb Z.eqb]. replace (- Z.of_nat (S k) + 1) with (- Z.of_nat k) by lia.
    exact IH.
Qed.

Lemma of_binary_integer (a x : Z) :
  x < 0 -> of_binary (a * 2 ^ (- x)) x = Fin a 0.
Proof.
  intros H. unfold of_binary, canon.
  replace (0 <=? x) with false by (symmetry; apply Z.leb_gt; lia).
  remember (Z.to_nat (- x)) as k eqn:Ek.
  assert (Ex : x = - Z.of_nat k) by lia.
  rewrite Ex, Z.opp_involutive.
  replace (a * 2 ^ Z.of_nat k * 5 ^ Z.of_nat k) with (a * 10 ^ Z.of_nat k)
    by (change 10 with (2 * 5); rewrite Z.pow_mul_l; ring).
  now rewrite strip_power.
Qed.

Lemma nearest_even_one (a : Z) : nearest_even a 1 = a.
Proof. unfold nearest_even. now rewrite Z.div_1_r, Z.mod_1_r. Qed.

Lemma log2_ratio_le (p : Z) : log2_ratio p 1 <= Z.log2 p.
Proof.
  unfold log2_ratio. change (Z.log2 1) with 0.
  destruct (scale2 p 1 (Z.log2 p - 0)) as [a b]. destruct (a <? b); lia.
Qed.

Lemma scale2_integer (p x : Z) : x < 0 -> scale2 p 1 x = (p * 2 ^ (- x), 1).
Proof.
  intros H. unfold scale2.
  replace (Z.max (- x) 0) with (- x) by lia.
  now replace (Z.max x 0) with 0 by lia.
Qed.

(** The double nearest to a positive integer: the integer itself as long
    as the last place is below the units. *)
Lemma round64_integer (p : Z) :
  round64 p 1 = None \/
  (exists n x, round64 p 1 = Some (n, x) /\ 0 <= x) \/
  (exists x, round64 p 1 = Some (p * 2 ^ (- x), x) /\ x < 0).
Proof.
  unfold round64.
  set (x := Z.max (-1074) (log2_ratio p 1 - 52)).
  destruct (Z.le_gt_cases 0 x) as [H|H].
  - destruct (scale2 p 1 x) as [a b]. destruct (1024 <=? _); eauto 6.
  - rewrite (scale2_integer p x H), nearest_even_one.
    destruct (1024 <=? _); eauto 6.
Qed.

Lemma round64_small (p : Z) :
  0 < p < 2 ^ 52 ->
  exists x, round64 p 1 = Some (p * 2 ^ (- x), x) /\ x < 0.
Proof.
  intros H. unfold round64.
  set (x := Z.max (-1074) (log2_ratio p 1 - 52)).
  assert (L : Z.log2 p < 52) by (apply Z.log2_lt_pow2; lia).
  pose proof (log2_ratio_le p) as R.
  assert (Hx : x < 0) by (unfold x; lia).
  rewrite (scale2_integer p x Hx), nearest_even_one, Z.log2_mul_pow2 by lia.
  replace (1024 <=? - x + Z.log2 p + x) with false
    by (symmetry; apply Z.leb_gt; lia).
  eauto.
Qed.

(** The double nearest to an integer is an integer, or an infinity. *)
Lemma to_double_integer (v : Z) :
  to_double (Fin v 0) = PInf \/ to_double (Fin v 0) = NInf \/
  exists w, to_double (Fin v 0) = Fin w 0.
Proof.
  unfold to_double. destruct (v =? 0); [eauto|].
  cbn [Z.leb Z.compare].
  destruct (round64_integer (Z.abs v * 10 ^ 0))
    as [-> | [(n & x & -> & Hx) | (x & -> & Hx)]].
  - destruct (v <? 0); auto.
  - unfold of_binary. replace (0 <=? x) with true by (symmetry; apply Z.leb_le; lia).
    eauto.
  - rewrite Z.mul_assoc, of_binary_integer by lia. eauto.
Qed.

(** Integers below [2^52] are doubles. *)
Lemma to_double_small (v : Z) :
  Z.abs v < 2 ^ 52 -> to_double (Fin v 0) = Fin v 0.
Proof.
  intros H. unfold to_double. destruct (Z.eqb_spec v 0) as [->|Hv]; [reflexivity|].
  cbn [Z.leb Z.compare].
  destruct (round64_small (Z.abs v * 10 ^ 0)) as (x & -> & Hx).
  { rewrite Z.pow_0_r, Z.mul_1_r. lia. }
  rewrite Z.mul_assoc, of_binary_integer by lia.
  f_equal. rewrite Z.pow_0_r, Z.mul_1_r. lia.
Qed.

Lemma to_double_key (i : Z) : 1 <= i <= 6 -> to_double (Fin i 0) = Fin i 0.
Proof.
  intros H. apply to_double_small.
  change (2 ^ 52) with 4503599627370496. lia.
Qed.

(** *** Doubles are fixed points of the rounding *)

Ltac pow2_id :=
  rewrite <- ?Z.pow_add_r by lia; f_equal; lia.

Lemma pow2_pos (z : Z) : 0 < 2 ^ Z.max z 0.
Proof. apply Z.pow_pos_nonneg; lia. Qed.

Lemma nearest_even_exact (n b : Z) : 0 < b -> nearest_even (n * b) b = n.
Proof.
  intros H. unfold nearest_even.
  rewrite Z.div_mul, Z.mod_mul by lia. cbn [Z.mul].
  now replace (0 ?= b) with Lt by (symmetry; apply Z.compare_lt_iff; lia).
Qed.

(** [q * u <= p * d] from [x <= p], [q <= y] and [y * u = x * d]. *)
Lemma frac_le (p q x y u d : Z) :
  0 <= u -> 0 <= d -> x <= p -> q <= y -> y * u = x * d -> q * u <= p * d.
Proof. intros. nia. Qed.

Lemma frac_lt (p q x y u d : Z) :
  0 < u -> 0 < d -> p < x -> y <= q -> x * d = y * u -> p * d < q * u.
Proof. intros. nia. Qed.

(** The integer part of the binary logarithm of [p / q]:
    [2^L <= p / q < 2^(L + 1)], in integers. *)
Lemma log2_ratio_spec (p q : Z) :
  0 < p -> 0 < q ->
  let L := log2_ratio p q in
  q * 2 ^ Z.max L 0 <= p * 2 ^ Z.max (- L) 0 /\
  p * 2 ^ Z.max (- (L + 1)) 0 < q * 2 ^ Z.max (L + 1) 0.
Proof.
  intros Hp Hq. cbv zeta. unfold log2_ratio, scale2.
  destruct (Z.log2_spec p Hp) as [P1 P2].
  destruct (Z.log2_spec q Hq) as [Q1 Q2].
  pose proof (Z.log2_nonneg p) as Lp. pose proof (Z.log2_nonneg q) as Lq.
  remember (Z.log2 p) as lp. remember (Z.log2 q) as lq.
  set (l := lp - lq).
  destruct (Z.ltb_spec (p * 2 ^ Z.max (- l) 0) (q * 2 ^ Z.max l 0)) as [Hc|Hc].
  - split.
    + apply (frac_le p q (2 ^ lp) (2 ^ Z.succ lq));
        [apply Z.lt_le_incl, pow2_pos | apply Z.lt_le_incl, pow2_pos
        | lia | lia | unfold l; pow2_id].
    + replace (l - 1 + 1) with l by lia. exact Hc.
  - split; [lia|].
    apply (frac_lt p q (2 ^ Z.succ lp) (2 ^ lq));
      [apply pow2_pos | apply pow2_pos | lia | lia | unfold l; pow2_id].
Qed.

(** The logarithm of a fraction whose value is [n * 2^x]. *)
Lemma log2_ratio_exact (p q n x : Z) :
  0 < p -> 0 < q -> 0 < n ->
  p * 2 ^ Z.max (- x) 0 = n * (q * 2 ^ Z.max x 0) ->
  log2_ratio p q = Z.log2 n + x.
Proof.
  intros Hp Hq Hn E.
  destruct (log2_ratio_spec p q Hp Hq) as [S1 S2].
  set (L := log2_ratio p q) in *.
  pose proof (pow2_pos L) as U1. pose proof (pow2_pos (- L)) as D1.
  pose proof (pow2_pos (L + 1)) as U2. pose proof (pow2_pos (- (L + 1))) as D2.
  pose proof (pow2_pos x) as Ux. pose proof (pow2_pos (- x)) as Dx.
  (* cancel q *)
  assert (A1 : 2 ^ Z.max L 0 * 2 ^ Z.max (- x) 0
               <= n * (2 ^ Z.max x 0 * 2 ^ Z.max (- L) 0)).
  { apply (Z.mul_le_mono_pos_l _ _ q); [lia|].
    replace (q * (n * (2 ^ Z.max x 0 * 2 ^ Z.max (- L) 0)))
      with (p * 2 ^ Z.max (- x) 0 * 2 ^ Z.max (- L) 0) by (rewrite E; ring).
    nia. }
  assert (A2 : n * (2 ^ Z.max x 0 * 2 ^ Z.max (- (L + 1)) 0)
               < 2 ^ Z.max (L + 1) 0 * 2 ^ Z.max (- x) 0).
  { apply (Z.mul_lt_mono_pos_l q); [lia|].
    replace (q * (n * (2 ^ Z.max x 0 * 2 ^ Z.max (- (L + 1)) 0)))
      with (p * 2 ^ Z.max (- x) 0 * 2 ^ Z.max (- (L + 1)) 0) by (rewrite E; ring).
    nia. }
  assert (Hle : x <= L).
  { destruct (Z.le_gt_cases x L) as [H|H]; [exact H | exfalso].
    assert (I : 2 ^ Z.max (L + 1) 0 * 2 ^ Z.max (- x) 0 * 2 ^ (x - L - 1)
                = 2 ^ Z.max x 0 * 2 ^ Z.max (- (L + 1)) 0) by pow2_id.
    assert (T : 0 < 2 ^ (x - L - 1)) by (apply Z.pow_pos_nonneg; lia).
    nia. }
  enough (G : Z.log2 n = L - x) by lia.
  apply Z.log2_unique; [lia|].
  assert (I1 : 2 ^ Z.max L 0 * 2 ^ Z.max (- x) 0
               = 2 ^ (L - x) * (2 ^ Z.max x 0 * 2 ^ Z.max (- L) 0)) by pow2_id.
  assert (I2 : 2 ^ Z.max (L + 1) 0 * 2 ^ Z.max (- x) 0
               = 2 ^ Z.succ (L - x) * (2 ^ Z.max x 0 * 2 ^ Z.max (- (L + 1)) 0))
    by pow2_id.
  split.
  - apply (Z.mul_le_mono_pos_r _ _ (2 ^ Z.max x 0 * 2 ^ Z.max (- L) 0)); nia.
  - apply (Z.mul_lt_mono_pos_r (2 ^ Z.max x 0 * 2 ^ Z.max (- (L + 1)) 0)); nia.
Qed.


Lemma nearest_even_bounds (a b lo hi : Z) :
  0 < b -> lo * b <= a -> a <= hi * b ->
  lo <= nearest_even a b <= hi.
Proof.
  intros Hb Hlo Hhi. unfold nearest_even.
  pose proof (Z.div_mod a b ltac:(lia)) as E.
  pose proof (Z.mod_pos_bound a b Hb) as R.
  assert (L : lo <= a / b) by (apply Z.div_le_lower_bound; lia).
  assert (U : a / b <= hi) by (apply Z.div_le_upper_bound; lia).
  destruct (Z.compare_spec (2 * (a mod b)) b) as [C|C|C];
    [destruct (Z.even (a / b))| |]; split; try lia; nia.
Qed.

(** A fraction whose value is the double [n * 2^x] rounds to it. *)
Lemma round64_exact (p q n x : Z) :
  0 < p -> 0 < q -> 0 < n < 2 ^ 53 ->
  -1074 <= x -> (2 ^ 52 <= n \/ x = -1074) ->
  Z.log2 n + x < 1024 ->
  p * 2 ^ Z.max (- x) 0 = n * (q * 2 ^ Z.max x 0) ->
  round64 p q = Some (n, x).
Proof.
  intros Hp Hq Hn Hx Hnorm Hfin E. unfold round64.
  rewrite (log2_ratio_exact p q n x) by (auto; lia).
  assert (Ex : Z.max (-1074) (Z.log2 n + x - 52) = x).
  { destruct (Z.le_gt_cases (2 ^ 52) n) as [H52|H52].
    - assert (Hl : Z.log2 n = 52)
        by (apply Z.log2_unique; [lia | change (2 ^ Z.succ 52) with (2 ^ 53); lia]).
      lia.
    - assert (Hl : Z.log2 n < 52) by (apply Z.log2_lt_pow2; lia).
      destruct Hnorm as [Hn'|Hn']; lia. }
  rewrite Ex. unfold scale2. rewrite E.
  rewrite nearest_even_exact by (pose proof (pow2_pos x); nia).
  now replace (1024 <=? Z.log2 n + x) with false
    by (symmetry; apply Z.leb_gt; lia).
Qed.

Lemma scale_lt_le (p q u d c t : Z) :
  0 < c -> 0 < q -> 0 < u -> 1 <= t -> p * d < q * u ->
  p * c * d <= q * (u * c * t).
Proof.
  intros Hc Hq Hu Ht H.
  apply Z.le_trans with (q * u * c).
  - replace (p * c * d) with (p * d * c) by ring.
    apply Z.mul_le_mono_nonneg_r; lia.
  - replace (q * (u * c * t)) with (q * u * c * t) by ring.
    assert (0 < q * u * c) by (repeat apply Z.mul_pos_pos; lia).
    nia.
Qed.

Lemma scale_le_le (p q u d c : Z) :
  0 <= c -> q * u <= p * d -> q * (u * c) <= p * c * d.
Proof.
  intros Hc H. replace (q * (u * c)) with (q * u * c) by ring.
  replace (p * c * d) with (p * d * c) by ring.
  apply Z.mul_le_mono_nonneg_r; lia.
Qed.

(** What [round64] returns is a double. *)
Lemma round64_range (p q n x : Z) :
  0 < p -> 0 < q -> round64 p q = Some (n, x) ->
  0 <= n <= 2 ^ 53 /\ -1074 <= x /\ (2 ^ 52 <= n \/ x = -1074) /\
  Z.log2 n + x < 1024.
Proof.
  intros Hp Hq. unfold round64.
  destruct (log2_ratio_spec p q Hp Hq) as [S1 S2].
  set (L := log2_ratio p q) in *.
  set (y := Z.max (-1074) (L - 52)).
  unfold scale2.
  set (a := p * 2 ^ Z.max (- y) 0). set (b := q * 2 ^ Z.max y 0).
  destruct (Z.leb_spec 1024 (Z.log2 (nearest_even a b) + y)) as [H|H];
    [discriminate|].
  intros [= <- <-].
  pose proof (pow2_pos L) as U1. pose proof (pow2_pos (- L)) as D1.
  pose proof (pow2_pos (L + 1)) as U2. pose proof (pow2_pos (- (L + 1))) as D2.
  pose proof (pow2_pos y) as Uy. pose proof (pow2_pos (- y)) as Dy.
  assert (Hb : 0 < b) by (unfold b; apply Z.mul_pos_pos; lia).
  assert (Hup : a <= 2 ^ 53 * b).
  { assert (I : 2 ^ Z.max (L + 1) 0 * 2 ^ Z.max (- y) 0 * 2 ^ (52 - L + y)
                = 2 ^ 53 * (2 ^ Z.max (- (L + 1)) 0 * 2 ^ Z.max y 0))
      by (unfold y; pow2_id).
    assert (T : 1 <= 2 ^ (52 - L + y))
      by (apply (Z.pow_le_mono_r 2 0); unfold y; lia).
    apply (Z.mul_le_mono_pos_r _ _ (2 ^ Z.max (- (L + 1)) 0)); [lia|].
    unfold a, b.
    replace (2 ^ 53 * (q * 2 ^ Z.max y 0) * 2 ^ Z.max (- (L + 1)) 0)
      with (q * (2 ^ 53 * (2 ^ Z.max (- (L + 1)) 0 * 2 ^ Z.max y 0))) by ring.
    rewrite <- I. apply scale_lt_le; lia. }
  assert (Hlo : 0 <= a) by (unfold a; apply Z.mul_nonneg_nonneg; lia).
  destruct (nearest_even_bounds a b 0 (2 ^ 53) Hb) as [N0 N1]; [lia | lia |].
  split; [lia|]. split; [unfold y; lia|]. split; [|exact H].
  destruct (Z.le_gt_cases (-1074) (L - 52)) as [Hy|Hy]; [left | right; unfold y; lia].
  assert (Ey : y = L - 52) by (unfold y; lia).
  assert (I : 2 ^ Z.max L 0 * 2 ^ Z.max (- y) 0
              = 2 ^ 52 * (2 ^ Z.max y 0 * 2 ^ Z.max (- L) 0))
    by (rewrite Ey; pow2_id).
  assert (Hlow : 2 ^ 52 * b <= a).
  { apply (Z.mul_le_mono_pos_r _ _ (2 ^ Z.max (- L) 0)); [lia|].
    unfold a, b.
    replace (2 ^ 52 * (q * 2 ^ Z.max y 0) * 2 ^ Z.max (- L) 0)
      with (q * (2 ^ 52 * (2 ^ Z.max y 0 * 2 ^ Z.max (- L) 0))) by ring.
    rewrite <- I. apply scale_le_le; lia. }
  apply (nearest_even_bounds a b (2 ^ 52) (2 ^ 53) Hb); lia.
Qed.


(** *** Decimals of doubles *)

(** [strip] removes [j] zeros and keeps the value. *)
Lemma strip_spec (fuel : nat) (m e m' e' : Z) :
  e <= 0 -> strip fuel m e = (m', e') ->
  exists j, 0 <= j /\ e' = e + j /\ e' <= 0 /\ m = m' * 10 ^ j.
Proof.
  revert m e. induction fuel as [|k IH]; intros m e He; cbn [strip].
  - intros [= <- <-]. exists 0. change (10 ^ 0) with 1. lia.
  - destruct (Z.ltb_spec e 0) as [H|H]; cbn [andb].
    + destruct (Z.eqb_spec (m mod 10) 0) as [H0|H0].
      * intros E. destruct (IH (m / 10) (e + 1) ltac:(lia) E) as (j & Hj & -> & He' & Hm).
        exists (j + 1). repeat split; try lia.
        rewrite Z.pow_add_r by lia. change (10 ^ 1) with 10.
        rewrite Z.mul_assoc, <- Hm.
        pose proof (Z.div_mod m 10 ltac:(lia)). lia.
      * intros [= <- <-]. exists 0. change (10 ^ 0) with 1. lia.
    + intros [= <- <-]. exists 0. change (10 ^ 0) with 1. lia.
Qed.

Lemma of_binary_zero (x : Z) : of_binary 0 x = Fin 0 0.
Proof.
  unfold of_binary, canon. destruct (Z.leb_spec 0 x) as [H|H]; [reflexivity|].
  cbn [Z.mul].
  pose proof (strip_power (Z.to_nat (- x)) 0) as E. cbn [Z.mul] in E.
  replace (- Z.of_nat (Z.to_nat (- x))) with x in E by lia. now rewrite E.
Qed.

(** [2 n * 2^x] and [n * 2^(x+1)] are written alike. *)
Lemma of_binary_double (n x : Z) : of_binary (2 * n) x = of_binary n (x + 1).
Proof.
  unfold of_binary.
  destruct (Z.leb_spec 0 x) as [H|H].
  - replace (0 <=? x + 1) with true by (symmetry; apply Z.leb_le; lia).
    f_equal. rewrite Z.pow_add_r by lia. change (2 ^ 1) with 2. ring.
  - assert (E5 : 2 * n * 5 ^ (- x) = n * 5 ^ (- (x + 1)) * 10).
    { replace (- x) with (- (x + 1) + 1) at 1 by lia.
      rewrite Z.pow_add_r by lia. change (5 ^ 1) with 5. ring. }
    unfold canon at 1. replace (0 <=? x) with false by (symmetry; apply Z.leb_gt; lia).
    replace (Z.to_nat (- x)) with (S (Z.to_nat (- (x + 1)))) by lia.
    cbn [strip]. replace (x <? 0) with true by (symmetry; apply Z.ltb_lt; lia).
    rewrite E5, Z.mod_mul, Z.div_mul by lia. cbn [andb Z.eqb].
    destruct (Z.leb_spec 0 (x + 1)) as [H1|H1].
    + assert (x = -1) by lia. subst x. cbn. now rewrite Z.mul_1_r.
    + unfold canon. now replace (0 <=? x + 1) with false
        by (symmetry; apply Z.leb_gt; lia).
Qed.


(** A double is the double nearest to itself. *)
Lemma double_fixed (s n x : Z) :
  s = 1 \/ s = -1 -> 0 < n < 2 ^ 53 ->
  -1074 <= x -> (2 ^ 52 <= n \/ x = -1074) ->
  Z.log2 n + x < 1024 ->
  to_double (of_binary (s * n) x) = of_binary (s * n) x.
Proof.
  intros Hs Hn Hx Hnorm Hfin.
  assert (Hround : forall m e p q,
             Z.sgn m = s -> m <> 0 ->
             (if 0 <=? e then (Z.abs m * 10 ^ e, 1)
              else (Z.abs m, 10 ^ (- e))) = (p, q) ->
             0 < p -> 0 < q ->
             p * 2 ^ Z.max (- x) 0 = n * (q * 2 ^ Z.max x 0) ->
             to_double (Fin m e) = of_binary (s * n) x).
  { intros m e p q Hsgn Hm Epq Hp Hq E. unfold to_double.
    replace (m =? 0) with false by (symmetry; apply Z.eqb_neq; exact Hm).
    rewrite Epq, (round64_exact p q n x) by auto. now rewrite Hsgn. }
  unfold of_binary at 1. destruct (Z.leb_spec 0 x) as [H|H].
  - assert (T : 0 < 2 ^ x) by (apply Z.pow_pos_nonneg; lia).
    assert (V : 0 < n * 2 ^ x) by (apply Z.mul_pos_pos; lia).
    replace (s * n * 2 ^ x) with (s * (n * 2 ^ x)) by ring.
    remember (n * 2 ^ x) as v eqn:Ev.
    apply (Hround _ _ (Z.abs (s * v) * 10 ^ 0) 1);
      [ destruct Hs as [-> | ->]; lia
      | destruct Hs as [-> | ->]; lia
      | reflexivity
      | change (10 ^ 0) with 1; destruct Hs as [-> | ->]; lia
      | lia
      | ].
    replace (Z.max (- x) 0) with 0 by lia. replace (Z.max x 0) with x by lia.
    change (10 ^ 0) with 1. change (2 ^ 0) with 1.
    replace (n * (1 * 2 ^ x)) with v by (rewrite Ev; ring).
    destruct Hs as [-> | ->]; lia.
  - unfold canon. replace (0 <=? x) with false by (symmetry; apply Z.leb_gt; lia).
    destruct (strip (Z.to_nat (- x)) (s * n * 5 ^ (- x)) x) as [m' e'] eqn:Es.
    assert (Hx0 : x <= 0) by lia.
    destruct (strip_spec _ _ _ _ _ Hx0 Es) as (j & Hj & -> & He' & Hm).
    assert (T5 : 0 < 5 ^ (- x)) by (apply Z.pow_pos_nonneg; lia).
    assert (T2 : 0 < 2 ^ (- x)) by (apply Z.pow_pos_nonneg; lia).
    assert (Tj : 0 < 10 ^ j) by (apply Z.pow_pos_nonneg; lia).
    assert (Habs : Z.abs m' * 10 ^ j = n * 5 ^ (- x))
      by (destruct Hs as [-> | ->]; nia).
    assert (Hsgn : Z.sgn m' = s) by (destruct Hs as [-> | ->]; nia).
    assert (Hm0 : m' <> 0) by (destruct Hs as [-> | ->]; nia).
    assert (E10 : 10 ^ (- x) = 2 ^ (- x) * 5 ^ (- x))
      by (change 10 with (2 * 5); now rewrite Z.pow_mul_l).
    replace (Z.max (- x) 0) with (- x) in Hround by lia.
    replace (Z.max x 0) with 0 in Hround by lia.
    change (2 ^ 0) with 1 in Hround.
    destruct (Z.leb_spec 0 (x + j)) as [H0|H0].
    + assert (Ej : j = - x) by lia. rewrite Ej in *.
      replace (x + - x) with 0 by lia.
      apply (Hround _ _ (Z.abs m' * 10 ^ 0) 1);
        [ exact Hsgn | exact Hm0 | reflexivity
        | change (10 ^ 0) with 1; lia | lia | ].
      change (10 ^ 0) with 1.
      apply (Z.mul_cancel_r _ _ (5 ^ (- x))); [lia|].
      replace (n * (1 * 1) * 5 ^ (- x)) with (n * 5 ^ (- x)) by ring.
      rewrite <- Habs, E10. ring.
    + apply (Hround _ _ (Z.abs m') (10 ^ (- (x + j))));
        [ exact Hsgn | exact Hm0
        | now replace (0 <=? x + j) with false by (symmetry; apply Z.leb_gt; lia)
        | lia | apply Z.pow_pos_nonneg; lia | ].
      apply (Z.mul_cancel_r _ _ (10 ^ j)); [lia|].
      replace (n * (10 ^ (- (x + j)) * 1) * 10 ^ j)
        with (n * (10 ^ (- (x + j)) * 10 ^ j)) by ring.
      rewrite <- Z.pow_add_r by lia.
      replace (- (x + j) + j) with (- x) by lia.
      rewrite E10.
      replace (Z.abs m' * 2 ^ (- x) * 10 ^ j)
        with (Z.abs m' * 10 ^ j * 2 ^ (- x)) by ring.
      rewrite Habs. ring.
Qed.

Lemma to_double_idempotent (a : num) : to_double (to_double a) = to_double a.
Proof.
  destruct a as [| | |m e]; try reflexivity.
  remember (to_double (Fin m e)) as r eqn:Er. unfold to_double in Er.
  destruct (Z.eqb_spec m 0) as [Hm|Hm]; [now subst r|].
  destruct (if 0 <=? e then (Z.abs m * 10 ^ e, 1) else (Z.abs m, 10 ^ (- e)))
    as [p q] eqn:Epq.
  assert (Hpq : 0 < p /\ 0 < q).
  { destruct (Z.leb_spec 0 e); injection Epq as <- <-.
    - assert (0 < 10 ^ e) by (apply Z.pow_pos_nonneg; lia). split; [nia | lia].
    - assert (0 < 10 ^ (- e)) by (apply Z.pow_pos_nonneg; lia). lia. }
  destruct Hpq as [Hp Hq].
  destruct (round64 p q) as [[n x]|] eqn:Ern;
    [|subst r; now destruct (m <? 0)].
  destruct (round64_range p q n x Hp Hq Ern) as (Hn & Hx & Hnorm & Hfin).
  assert (Hs : Z.sgn m = 1 \/ Z.sgn m = -1) by lia.
  subst r.
  destruct (Z.eq_dec n 0) as [->|Hn0].
  { rewrite Z.mul_0_r, of_binary_zero. reflexivity. }
  destruct (Z.eq_dec n (2 ^ 53)) as [->|Hn53].
  - change (2 ^ 53) with (2 * 2 ^ 52).
    rewrite Z.mul_assoc, (Z.mul_comm (Z.sgn m) 2), <- Z.mul_assoc, of_binary_double.
    apply double_fixed; auto; try lia.
    change (Z.log2 (2 ^ 53)) with 53 in Hfin.
    change (Z.log2 (2 ^ 52)) with 52. lia.
  - apply double_fixed; auto; lia.
Qed.

(** The operands of the sum and of the quotient are read as doubles. *)
Lemma add_to_double_l (a b : num) : add (to_double a) b = add a b.
Proof. unfold add. now rewrite to_double_idempotent. Qed.

Lemma half_to_double (a : num) : half (to_double a) = half a.
Proof. unfold half. now rewrite to_double_idempotent. Qed.

(** The sum and the quotient are doubles. *)
Lemma to_double_add (a b : num) : to_double (add a b) = add a b.
Proof.
  unfold add.
  destruct (to_double a) as [| | |m e], (to_double b) as [| | |m' e'];
    try reflexivity.
  apply to_double_idempotent.
Qed.

Lemma to_double_half (a : num) : to_double (half a) = half a.
Proof.
  unfold half. destruct (to_double a) as [| | |m e] eqn:E; try reflexivity.
  apply to_double_idempotent.
Qed.

End JsNumFacts.

(* ===================================================================== *)
(** ** Facts about the device table *)
(* ===================================================================== *)

Module TableFacts.

Import JsVal JsStr Server Spec JsNumFacts.
Local Open Scope Z_scope.

Lemma update_keys (m : DeviceMap) (i : Z) (f : Device -> Device) :
  map fst (update m i f) = map fst m.
Proof.
  induction m as [|[j d] r IH]; cbn; [reflexivity|].
  destruct (i =? j); cbn; congruence.
Qed.

Lemma lookup_update (m : DeviceMap) (i j : Z) (f : Device -> Device) :
  lookup (update m i f) j =
  if j =? i then option_map f (lookup m j) else lookup m j.
Proof.
  induction m as [|[k d] r IH]; cbn.
  - now destruct (j =? i).
  - destruct (i =? k) eqn:Eik; cbn.
    + apply Z.eqb_eq in Eik. subst k.
      destruct (j =? i) eqn:Eji; reflexivity.
    + destruct (j =? k) eqn:Ejk.
      * apply Z.eqb_eq in Ejk. subst k.
        rewrite Z.eqb_sym in Eik. now rewrite Eik.
      * apply IH.
Qed.

Lemma lookup_update_same (m : DeviceMap) (i : Z) (f : Device -> Device) d :
  lookup m i = Some d -> lookup (update m i f) i = Some (f d).
Proof. intros H. rewrite lookup_update, Z.eqb_refl, H. reflexivity. Qed.

Lemma lookup_update_other (m : DeviceMap) (i j : Z) (f : Device -> Device) :
  i <> j -> lookup (update m i f) j = lookup m j.
Proof.
  intros H. rewrite lookup_update.
  destruct (j =? i) eqn:E; [apply Z.eqb_eq in E; congruence | reflexivity].
Qed.

Lemma update_update (m : DeviceMap) (i : Z) (f g : Device -> Device) :
  update (update m i f) i g = update m i (fun d => g (f d)).
Proof.
  induction m as [|[j d] r IH]; cbn; [reflexivity|].
  destruct (i =? j) eqn:E; cbn; rewrite E; [reflexivity | now rewrite IH].
Qed.

Lemma update_same (m : DeviceMap) (i : Z) (f : Device -> Device) :
  (forall d, lookup m i = Some d -> f d = d) -> update m i f = m.
Proof.
  induction m as [|[j d] r IH]; cbn; [reflexivity|].
  intros H. destruct (i =? j) eqn:E.
  - now rewrite (H d eq_refl).
  - now rewrite IH.
Qed.

Lemma update_ext (m : DeviceMap) (i : Z) (f g : Device -> Device) :
  (forall d, lookup m i = Some d -> f d = g d) -> update m i f = update m i g.
Proof.
  induction m as [|[j d] r IH]; cbn; [reflexivity|].
  intros H. destruct (i =? j) eqn:E.
  - now rewrite (H d eq_refl).
  - now rewrite IH.
Qed.

Lemma lookup_keys (m : DeviceMap) (i : Z) :
  In i (map fst m) <-> exists d, lookup m i = Some d.
Proof.
  induction m as [|[j d] r IH]; cbn.
  - split; [tauto | intros [d H]; discriminate].
  - destruct (i =? j) eqn:E.
    + apply Z.eqb_eq in E. split; eauto.
    + apply Z.eqb_neq in E. rewrite IH. split; [intros [?|?] | ]; auto.
      congruence.
Qed.

Lemma Map_get_find_key (m : DeviceMap) (k : jsval) :
  Map_get m k = find_key (map fst m) k.
Proof.
  induction m as [|[j d] r IH]; cbn; [reflexivity|].
  now destruct (same_key k j).
Qed.

Lemma find_key_in (keys : list Z) (k : jsval) (i : Z) :
  find_key keys k = Some i -> In i keys /\ same_key k i = true.
Proof.
  induction keys as [|j r IH]; cbn; [discriminate|].
  destruct (same_key k j) eqn:E.
  - intros [= <-]. auto.
  - intros H. destruct (IH H). auto.
Qed.

(** A reference returned by [Map.get] points at an entry. *)
Lemma Map_get_lookup (m : DeviceMap) (k : jsval) (i : Z) :
  Map_get m k = Some i -> exists d, lookup m i = Some d.
Proof.
  rewrite Map_get_find_key. intros H.
  apply lookup_keys. now apply find_key_in in H.
Qed.

(** Integer numbers compare as integers. *)
Lemma compare_of_Z (a b : Z) :
  JsNum.compare (Fin a 0) (Fin b 0) = Some (Z.compare a b).
Proof.
  cbn [JsNum.compare]. f_equal.
  unfold JsNum.Qval. cbn. unfold Qcompare. cbn.
  now rewrite !Z.mul_1_r.
Qed.

Lemma same_key_of_Z (a i : Z) :
  Z.abs a < 2 ^ 52 -> same_key (VNum (Fin a 0)) i = (a =? i).
Proof.
  intros Ha. unfold same_key, JsNum.eq.
  rewrite (to_double_small a Ha), compare_of_Z.
  destruct (Z.compare_spec a i) as [H|H|H].
  - subst. now rewrite Z.eqb_refl.
  - symmetry. apply Z.eqb_neq. lia.
  - symmetry. apply Z.eqb_neq. lia.
Qed.

Lemma in_range_of_Z (a : Z) : in_range (Fin a 0) = true <-> 1 <= a <= 6.
Proof.
  unfold in_range, JsNum.ge, JsNum.le. rewrite !compare_of_Z.
  rewrite andb_true_iff.
  destruct (Z.compare_spec 1 a), (Z.compare_spec a 6);
    split; intros; try lia; intuition congruence.
Qed.

Lemma well_formed_get (s : State) (i : Z) :
  well_formed s -> 1 <= i <= 6 ->
  Map_get (deviceMap s) (VNum (Fin i 0)) = Some i.
Proof.
  intros W H. rewrite Map_get_find_key, W. unfold device_ids, find_key.
  unfold same_key, JsNum.eq. rewrite (to_double_key i H), !compare_of_Z.
  assert (C : i = 1 \/ i = 2 \/ i = 3 \/ i = 4 \/ i = 5 \/ i = 6) by lia.
  destruct C as [->|[->|[->|[->|[->| ->]]]]]; reflexivity.
Qed.

Lemma well_formed_lookup (s : State) (i : Z) :
  well_formed s -> 1 <= i <= 6 -> exists d, lookup (deviceMap s) i = Some d.
Proof.
  intros W H. apply lookup_keys. rewrite W. unfold device_ids. cbn. lia.
Qed.

Lemma well_formed_keys (s : State) (i : Z) (d : Device) :
  well_formed s -> lookup (deviceMap s) i = Some d -> 1 <= i <= 6.
Proof.
  intros W H. assert (I : In i (map fst (deviceMap s))) by (apply lookup_keys; eauto).
  rewrite W in I. unfold device_ids in I. cbn in I. lia.
Qed.

(** [parseInt] of a string is NaN, an infinity or an integer. *)
Lemma parseInt_str_integer (s : string) :
  parseInt_str s = NaN \/ parseInt_str s = PInf \/ parseInt_str s = NInf \/
  exists v, parseInt_str s = Fin v 0.
Proof.
  unfold parseInt_str.
  destruct (scan_sign (skip_ws s)) as [neg s2].
  match goal with |- context [let (_, _) := ?x in _] => destruct x as [hex s3] end.
  match goal with |- context [let (_, _) := ?x in _] => destruct x as [[v n] r] end.
  destruct n; [auto|].
  destruct (to_double_integer (signed neg v)) as [E | [E | E]]; auto.
Qed.

(** An id that [parseInt] read and the range check accepted is one of the
    keys: the device is always found. *)
Lemma in_range_finds_device (s : State) (str : string) :
  well_formed s ->
  in_range (parseInt_str str) = true ->
  exists i, 1 <= i <= 6 /\ parseInt_str str = Fin i 0 /\
            Map_get (deviceMap s) (VNum (parseInt_str str)) = Some i.
Proof.
  intros W H. destruct (parseInt_str_integer str) as [E | [E | [E | [i E]]]];
    rewrite E in *; [discriminate ..|].
  apply in_range_of_Z in H. exists i.
  repeat split; try lia. now apply well_formed_get.
Qed.

Lemma well_formed_initial (clock : Z -> Z) : well_formed (initial clock).
Proof. reflexivity. Qed.

End TableFacts.

(* ===================================================================== *)
(** ** Reasoning about handlers *)
(* ===================================================================== *)

Module HoareFacts.

Import JsVal JsStr Server Hoare.
Local Open Scope list_scope.

Lemma wp_eq {A} (c : M A) (Q : post A) (s : State) r s' fx :
  c s = (r, s', fx) -> (wp c Q s <-> Q r s' fx).
Proof. unfold wp. intros ->. tauto. Qed.

Lemma wp_result {A} (c : M A) (Q : post A) (s : State) :
  wp c Q s -> exists r s' fx, c s = (r, s', fx) /\ Q r s' fx.
Proof. unfold wp. destruct (c s) as [[r s'] fx]. eauto. Qed.

Lemma wp_conj {A} (c : M A) (Q1 Q2 : post A) (s : State) :
  wp c Q1 s -> wp c Q2 s -> wp c (fun r s' fx => Q1 r s' fx /\ Q2 r s' fx) s.
Proof. unfold wp. destruct (c s) as [[r s'] fx]. auto. Qed.

Lemma wp_mono {A} (c : M A) (Q Q' : post A) (s : State) :
  (forall r s' fx, Q r s' fx -> Q' r s' fx) -> wp c Q s -> wp c Q' s.
Proof. unfold wp. destruct (c s) as [[r s'] fx]. auto. Qed.

Lemma wp_bind {A B} (c : M A) (k : A -> M B) (Q : post B) (s : State) :
  wp c (and_then k Q) s -> wp (bind c k) Q s.
Proof.
  unfold wp, and_then, bind.
  destruct (c s) as [[[a| |code] s1] fx1]; auto.
  unfold wp. destruct (k a s1) as [[r s2] fx2]. auto.
Qed.

Lemma wp_ret {A} (a : A) (Q : post A) (s : State) :
  Q (Ok a) s [] -> wp (ret a) Q s.
Proof. auto. Qed.

Lemma wp_gets {A} (f : State -> A) (Q : post A) (s : State) :
  Q (Ok (f s)) s [] -> wp (gets f) Q s.
Proof. auto. Qed.

Lemma wp_modify (f : State -> State) (Q : post unit) (s : State) :
  Q (Ok tt) (f s) [] -> wp (modify f) Q s.
Proof. auto. Qed.

Lemma wp_throw {A} (Q : post A) (s : State) :
  Q Throw s [] -> wp throw Q s.
Proof. auto. Qed.

Lemma wp_exit {A} (code : Z) (Q : post A) (s : State) :
  Q (Exit code) s [] -> wp (process_exit code) Q s.
Proof. auto. Qed.

Lemma wp_emit (e : effect) (Q : post unit) (s : State) :
  Q (Ok tt) s [e] -> wp (emit e) Q s.
Proof. auto. Qed.

Lemma wp_lift {A} (o : option A) (Q : post A) (s : State) :
  match o with Some a => Q (Ok a) s [] | None => Q Throw s [] end ->
  wp (lift o) Q s.
Proof. destruct o; auto. Qed.

Lemma wp_try_catch (body handler : M unit) (Q : post unit) (s : State) :
  wp body (fun r s1 fx1 =>
             match r with
             | Throw => wp handler (fun r' s2 fx2 => Q r' s2 (fx1 ++ fx2)) s1
             | _ => Q r s1 fx1
             end) s ->
  wp (try_catch body handler) Q s.
Proof.
  unfold wp, try_catch.
  destruct (body s) as [[[a| |code] s1] fx1]; auto.
  destruct (handler s1) as [[r s2] fx2]. auto.
Qed.

Lemma wp_get_device (k : jsval) (Q : post (option Z)) (s : State) :
  Q (Ok (Map_get (deviceMap s) k)) s [] -> wp (get_device k) Q s.
Proof. auto. Qed.

Lemma wp_read {A} (device : option Z) (field : Device -> A) (Q : post A) s :
  match device with
  | Some i =>
      match lookup (deviceMap s) i with
      | Some d => Q (Ok (field d)) s []
      | None => Q Throw s []
      end
  | None => Q Throw s []
  end ->
  wp (read device field) Q s.
Proof.
  destruct device as [i|]; auto.
  unfold wp, read, bind, lift. destruct (lookup (deviceMap s) i); auto.
Qed.

Lemma wp_assign (device : option Z) (f : Device -> Device) (Q : post unit) s :
  match device with
  | Some i => Q (Ok tt) (set_deviceMap (update (deviceMap s) i f) s) []
  | None => Q Throw s []
  end ->
  wp (assign device f) Q s.
Proof. destruct device; auto. Qed.

(** A loop whose body keeps an invariant and neither throws nor exits. *)
Lemma wp_for_each {A} (l : list A) (body : A -> M unit)
      (I : State -> list effect -> Prop) (s : State) :
  I s [] ->
  (forall x s1 fx1, In x l -> I s1 fx1 ->
     wp (body x) (fun r s2 fx2 => r = Ok tt /\ I s2 (fx1 ++ fx2)) s1) ->
  wp (for_each l body) (fun r s' fx => r = Ok tt /\ I s' fx) s.
Proof.
  intros H0 Hbody.
  enough (G : forall fx0 s0, I s0 fx0 ->
            wp (for_each l body)
               (fun r s' fx => r = Ok tt /\ I s' (fx0 ++ fx)) s0)
    by (apply (G [] s H0)).
  induction l as [|x r IH]; intros fx0 s0 HI; cbn [for_each].
  - apply wp_ret. rewrite app_nil_r. auto.
  - apply wp_bind.
    eapply wp_mono; [|apply (Hbody x s0 fx0); [now left | exact HI]].
    intros r0 s1 fx1 [-> HI1]. cbn [and_then].
    eapply wp_mono; [|apply IH; [intros; apply Hbody; [now right|]; eauto | exact HI1]].
    cbn beta. intros r1 s2 fx2 [-> HI2]. now rewrite app_assoc.
Qed.

Lemma set_deviceMap_twice (m m' : DeviceMap) (s : State) :
  set_deviceMap m (set_deviceMap m' s) = set_deviceMap m s.
Proof. reflexivity. Qed.

Lemma set_deviceMap_same (s : State) : set_deviceMap (deviceMap s) s = s.
Proof. now destruct s. Qed.

(** Brings the projections of an updated state to normal form. *)
Ltac state_simpl :=
  cbn [deviceMap isTerminated isServerClosing deviceCheckInterval
       closeTimeoutTimer wss_clients rl_closed drain wss_close_listeners
       set_deviceMap set_isTerminated set_isServerClosing
       set_deviceCheckInterval set_closeTimeoutTimer set_wss_clients
       set_rl_closed set_drain set_wss_close_listeners
       and_then unless_exit app
       is_string String.eqb Ascii.eqb Bool.eqb] in *.

(** Case analysis on [x], unless a hypothesis already tells its value. *)
Ltac case_on x :=
  first [ match goal with H : x = _ |- _ => rewrite H end
        | let E := fresh "E" in destruct x eqn:E ].

(** One step of symbolic execution of the program at the head of [wp]. *)
Ltac wp_step :=
  lazymatch goal with
  | |- wp (bind _ _) _ _ => apply wp_bind
  | |- wp (ret _) _ _ => apply wp_ret
  | |- wp (gets _) _ _ => apply wp_gets
  | |- wp (modify _) _ _ => apply wp_modify
  | |- wp throw _ _ => apply wp_throw
  | |- wp (process_exit _) _ _ => apply wp_exit
  | |- wp (emit _) _ _ => apply wp_emit
  | |- wp (get_device _) _ _ => apply wp_get_device
  | |- wp (read _ _) _ _ => apply wp_read
  | |- wp (assign _ _) _ _ => apply wp_assign
  | |- wp (lift ?o) _ _ =>
      apply wp_lift;
      lazymatch o with
      | Some _ => idtac
      | None => idtac
      | _ => case_on o
      end
  | |- wp (try_catch _ _) _ _ => apply wp_try_catch
  | |- wp (if ?b then _ else _) _ _ => case_on b
  | |- wp (match ?x with _ => _ end) _ _ => case_on x
  | |- match ?x with _ => _ end => case_on x
  end; state_simpl.

Ltac wp_steps := repeat wp_step.

(** *** Handlers that stay within a preorder on states *)

Section Frame.

Variable R : State -> State -> Prop.
Hypothesis R_refl : forall s, R s s.
Hypothesis R_trans : forall a b c, R a b -> R b c -> R a c.

Lemma respects_ret {A} (a : A) : respects R (ret a).
Proof. intros s. apply wp_ret, R_refl. Qed.

Lemma respects_gets {A} (f : State -> A) : respects R (gets f).
Proof. intros s. apply wp_gets, R_refl. Qed.

Lemma respects_throw {A} : respects R (@throw A).
Proof. intros s. apply wp_throw, R_refl. Qed.

Lemma respects_exit {A} (code : Z) : respects R (@process_exit A code).
Proof. intros s. apply wp_exit. exact I. Qed.

Lemma respects_emit (e : effect) : respects R (emit e).
Proof. intros s. apply wp_emit, R_refl. Qed.

Lemma respects_lift {A} (o : option A) : respects R (lift o).
Proof. intros s. apply wp_lift. destruct o; apply R_refl. Qed.

Lemma respects_get_device (k : jsval) : respects R (get_device k).
Proof. intros s. apply wp_get_device, R_refl. Qed.

Lemma respects_read {A} (device : option Z) (field : Device -> A) :
  respects R (read device field).
Proof.
  intros s. apply wp_read. destruct device as [i|]; [|apply R_refl].
  destruct (lookup (deviceMap s) i); apply R_refl.
Qed.

Lemma respects_modify (f : State -> State) :
  (forall s, R s (f s)) -> respects R (modify f).
Proof. intros H s. apply wp_modify, H. Qed.

Lemma respects_assign (device : option Z) (f : Device -> Device) :
  (forall s i, R s (set_deviceMap (update (deviceMap s) i f) s)) ->
  respects R (assign device f).
Proof.
  intros H s. apply wp_assign. destruct device; [apply H | apply R_refl].
Qed.

Lemma respects_bind {A B} (c : M A) (k : A -> M B) :
  respects R c -> (forall a, respects R (k a)) -> respects R (bind c k).
Proof.
  intros Hc Hk s. apply wp_bind.
  eapply wp_mono; [|apply Hc]. cbn beta.
  intros [a| |code] s1 fx1 H1; cbn [and_then unless_exit] in *; auto.
  eapply wp_mono; [|apply Hk]. cbn beta.
  intros [b| |code] s2 fx2 H2; cbn [unless_exit] in *; eauto.
Qed.

Lemma respects_try_catch (body handler : M unit) :
  respects R body -> respects R handler ->
  respects R (try_catch body handler).
Proof.
  intros Hb Hh s. apply wp_try_catch.
  eapply wp_mono; [|apply Hb]. cbn beta.
  intros [a| |code] s1 fx1 H1; cbn [unless_exit] in *; auto.
  eapply wp_mono; [|apply Hh]. cbn beta.
  intros [b| |code] s2 fx2 H2; cbn [unless_exit] in *; eauto.
Qed.

Lemma respects_for_each {A} (l : list A) (body : A -> M unit) :
  (forall x, respects R (body x)) -> respects R (for_each l body).
Proof.
  intros H. induction l; cbn [for_each].
  - apply respects_ret.
  - apply respects_bind; auto.
Qed.

(** The read-modify-write idiom [x = device.f; device.g = h(x); ...]:
    the value written may depend on the one just read. *)
Lemma respects_read_assign {A B} (device : option Z) (field : Device -> A)
      (g : A -> Device -> Device) (k : A -> M B) :
  (forall s i d, lookup (deviceMap s) i = Some d ->
                 R s (set_deviceMap (update (deviceMap s) i (g (field d))) s)) ->
  (forall a, respects R (k a)) ->
  respects R (a <- read device field ;; assign device (g a) ;; k a).
Proof.
  intros Hg Hk s. apply wp_bind, wp_read.
  destruct device as [i|]; [|apply R_refl].
  destruct (lookup (deviceMap s) i) as [d|] eqn:E; [|apply R_refl].
  cbn [and_then]. apply wp_bind, wp_assign. cbn [and_then].
  eapply wp_mono; [|apply Hk]. cbn beta.
  intros [b| |code] s2 fx2 H2; cbn [unless_exit] in *; auto;
    (eapply R_trans; [apply (Hg s i d E) | exact H2]).
Qed.

(** What a conversion returned is known in the rest of the handler. *)
Lemma respects_bind_lift {A B} (o : option A) (k : A -> M B) :
  (forall a, o = Some a -> respects R (k a)) ->
  respects R (bind (lift o) k).
Proof.
  intros Hk s. apply wp_bind, wp_lift.
  destruct o as [a|]; cbn [and_then]; [|apply R_refl].
  eapply wp_mono; [|apply (Hk a eq_refl)]. cbn beta.
  intros [b| |code] s2 fx2 H2; cbn [unless_exit] in *; auto.
Qed.

(** The guard [if (isServerClosing) return;] at the head of a handler,
    for a relation that only constrains what happens while closing. *)
Lemma respects_closing_guard (body : M unit) :
  (forall s s', isServerClosing s = false -> R s s') ->
  respects R (closing <- gets isServerClosing ;;
              if closing then ret tt else body).
Proof.
  intros H s. apply wp_bind, wp_gets. cbn [and_then].
  destruct (isServerClosing s) eqn:E.
  - apply wp_ret, R_refl.
  - unfold wp. destruct (body s) as [[[a| |code] s1] fx1];
      cbn [unless_exit]; auto.
Qed.

(** A state update just before the process exits is never observed. *)
Lemma respects_forceExit : respects R forceExit.
Proof. intros s. unfold forceExit. apply wp_bind, wp_modify. exact I. Qed.

Lemma respects_modify_forceExit (f : State -> State) :
  respects R (modify f ;; forceExit).
Proof.
  intros s. apply wp_bind, wp_modify. cbn [and_then].
  unfold forceExit. apply wp_bind, wp_modify. exact I.
Qed.

End Frame.

(** Decomposes a handler into its primitive steps.  [Rr] and [Rt] are the
    reflexivity and transitivity of the preorder; [side] discharges what a
    state update or a device assignment has to satisfy; [leaf] proves the
    goal for a loop or a sub-handler with a lemma of its own. *)
Ltac frame_step Rr Rt side leaf :=
  lazymatch goal with
  | |- respects _ (ret _) => apply (respects_ret _ Rr)
  | |- respects _ (gets _) => apply (respects_gets _ Rr)
  | |- respects _ throw => apply (respects_throw _ Rr)
  | |- respects _ (process_exit _) => apply respects_exit
  | |- respects _ forceExit => apply respects_forceExit
  | |- respects _ (emit _) => apply (respects_emit _ Rr)
  | |- respects _ (lift _) => apply (respects_lift _ Rr)
  | |- respects _ (get_device _) => apply (respects_get_device _ Rr)
  | |- respects _ (read _ _) => apply (respects_read _ Rr)
  | |- respects _ (modify _) => apply respects_modify; side
  | |- respects _ (assign _ _) => apply (respects_assign _ Rr); side
  | |- respects _ (bind _ _) =>
      first [ apply (respects_closing_guard _ Rr); side
            | apply respects_modify_forceExit
            | apply (respects_read_assign _ Rr Rt); [side | intro]
            | apply (respects_bind_lift _ Rr); intros ? ?
            | apply (respects_bind _ Rt); [| intro] ]
  | |- respects _ (try_catch _ _) => apply (respects_try_catch _ Rt)
  | |- respects _ (for_each _ _) => apply (respects_for_each _ Rr Rt); intro
  | |- respects _ (if ?b then _ else _) =>
      let E := fresh "E" in destruct b eqn:E
  | |- respects _ (match ?x with _ => _ end) =>
      let E := fresh "E" in destruct x eqn:E
  | |- respects _ _ => leaf
  end.

Ltac frame Rr Rt side leaf := repeat frame_step Rr Rt side leaf.

(** *** Handlers that keep an invariant *)

Section Keeps.

Variable J : State -> Prop.
Variable P : effect -> Prop.
Variable X : Z -> Prop.

Lemma keeps_ret {A} (a : A) : keeps J P X (ret a).
Proof. intros s H. apply wp_ret. cbn [exit_ok]. auto. Qed.

Lemma keeps_gets {A} (f : State -> A) : keeps J P X (gets f).
Proof. intros s H. apply wp_gets. cbn [exit_ok]. auto. Qed.

Lemma keeps_throw {A} : keeps J P X (@throw A).
Proof. intros s H. apply wp_throw. cbn [exit_ok]. auto. Qed.

Lemma keeps_exit {A} (code : Z) :
  X code -> keeps J P X (@process_exit A code).
Proof. intros Hx s H. apply wp_exit. cbn [exit_ok]. auto. Qed.

Lemma keeps_emit (e : effect) : P e -> keeps J P X (emit e).
Proof. intros He s H. apply wp_emit. cbn [exit_ok]. auto. Qed.

Lemma keeps_lift {A} (o : option A) : keeps J P X (lift o).
Proof.
  intros s H. apply wp_lift. destruct o; cbn [exit_ok]; auto.
Qed.

Lemma keeps_get_device (k : jsval) : keeps J P X (get_device k).
Proof. intros s H. apply wp_get_device. cbn [exit_ok]. auto. Qed.

Lemma keeps_read {A} (device : option Z) (field : Device -> A) :
  keeps J P X (read device field).
Proof.
  intros s H. apply wp_read.
  destruct device as [i|]; [destruct (lookup (deviceMap s) i)|];
    cbn [exit_ok]; auto.
Qed.

Lemma keeps_modify (f : State -> State) :
  (forall s, J s -> J (f s)) -> keeps J P X (modify f).
Proof. intros Hf s H. apply wp_modify. cbn [exit_ok]. auto. Qed.

Lemma keeps_assign (device : option Z) (f : Device -> Device) :
  (forall s i, J s -> J (set_deviceMap (update (deviceMap s) i f) s)) ->
  keeps J P X (assign device f).
Proof.
  intros Hf s H. apply wp_assign.
  destruct device; cbn [exit_ok]; auto.
Qed.

Lemma keeps_bind {A B} (c : M A) (k : A -> M B) :
  keeps J P X c -> (forall a, keeps J P X (k a)) -> keeps J P X (bind c k).
Proof.
  intros Hc Hk s Hs. apply wp_bind.
  eapply wp_mono; [|apply Hc, Hs]. cbn beta.
  intros [a| |code] s1 fx1 (H1 & F1 & X1); cbn [and_then]; auto.
  eapply wp_mono; [|apply Hk, H1]. cbn beta.
  intros r s2 fx2 (H2 & F2 & X2).
  split; [exact H2|]. split; [|exact X2]. apply Forall_app. auto.
Qed.

Lemma keeps_try_catch (body handler : M unit) :
  keeps J P X body -> keeps J P X handler -> keeps J P X (try_catch body handler).
Proof.
  intros Hb Hh s Hs. apply wp_try_catch.
  eapply wp_mono; [|apply Hb, Hs]. cbn beta.
  intros [a| |code] s1 fx1 (H1 & F1 & X1); auto.
  eapply wp_mono; [|apply Hh, H1]. cbn beta.
  intros r s2 fx2 (H2 & F2 & X2).
  split; [exact H2|]. split; [|exact X2]. apply Forall_app. auto.
Qed.

Lemma keeps_for_each {A} (l : list A) (body : A -> M unit) :
  (forall x, keeps J P X (body x)) -> keeps J P X (for_each l body).
Proof.
  intros H. induction l; cbn [for_each].
  - apply keeps_ret.
  - apply keeps_bind; auto.
Qed.

(** What a conversion returned is known in the rest of the handler. *)
Lemma keeps_bind_lift {A B} (o : option A) (k : A -> M B) :
  (forall a, o = Some a -> keeps J P X (k a)) -> keeps J P X (bind (lift o) k).
Proof.
  intros Hk s Hs. apply wp_bind, wp_lift.
  destruct o as [a|]; cbn [and_then exit_ok]; auto.
  eapply wp_mono; [|apply (Hk a eq_refl), Hs]. cbn beta. auto.
Qed.

(** The state read by [gets] is the one the rest starts from. *)
Lemma keeps_bind_gets {A B} (f : State -> A) (k : A -> M B) :
  (forall s, J s ->
     wp (k (f s)) (fun r s' fx => J s' /\ Forall P fx /\ exit_ok X r) s) ->
  keeps J P X (bind (gets f) k).
Proof.
  intros Hk s Hs. apply wp_bind, wp_gets. cbn [and_then].
  eapply wp_mono; [|apply (Hk s Hs)]. cbn beta. auto.
Qed.

(** A guard [if (flag) return;] that the invariant forces to return. *)
Lemma keeps_guard (flag : State -> bool) (body : M unit) :
  (forall s, J s -> flag s = true) ->
  keeps J P X (b <- gets flag ;; if b then ret tt else body).
Proof.
  intros H. apply keeps_bind_gets. intros s Hs. rewrite (H s Hs).
  apply wp_ret. cbn [exit_ok]. auto.
Qed.

Lemma keeps_forceExit :
  X 0%Z ->
  (forall s, J s -> J (set_closeTimeoutTimer None s)) -> keeps J P X forceExit.
Proof.
  intros Hx H. unfold forceExit. apply keeps_bind.
  - now apply keeps_modify.
  - intros _. now apply keeps_exit.
Qed.

End Keeps.

(** Decomposes a handler into its primitive steps.  [leaf] is tried first
    on every sequence, and proves the goal for a loop or a sub-handler
    with a lemma of its own; [side] discharges what a state update, a
    device assignment or an effect has to satisfy. *)
Ltac keeps_step side leaf :=
  lazymatch goal with
  | |- keeps _ _ _ (ret _) => apply keeps_ret
  | |- keeps _ _ _ (gets _) => apply keeps_gets
  | |- keeps _ _ _ throw => apply keeps_throw
  | |- keeps _ _ _ (process_exit _) => apply keeps_exit; side
  | |- keeps _ _ _ forceExit => apply keeps_forceExit; side
  | |- keeps _ _ _ (emit _) => apply keeps_emit; side
  | |- keeps _ _ _ (lift _) => apply keeps_lift
  | |- keeps _ _ _ (get_device _) => apply keeps_get_device
  | |- keeps _ _ _ (read _ _) => apply keeps_read
  | |- keeps _ _ _ (modify _) => apply keeps_modify; side
  | |- keeps _ _ _ (assign _ _) => apply keeps_assign; side
  | |- keeps _ _ _ (bind _ _) =>
      first [ leaf
            | apply keeps_bind_lift; intros ? ?
            | apply keeps_bind; [| intro] ]
  | |- keeps _ _ _ (try_catch _ _) => apply keeps_try_catch
  | |- keeps _ _ _ (for_each _ _) => apply keeps_for_each; intro
  | |- keeps _ _ _ (if ?b then _ else _) =>
      let E := fresh "E" in destruct b eqn:E
  | |- keeps _ _ _ (match ?x with _ => _ end) =>
      let E := fresh "E" in destruct x eqn:E
  | |- keeps _ _ _ _ => leaf
  end.

Ltac keeps_all side leaf := repeat keeps_step side leaf.

End HoareFacts.

(* ===================================================================== *)
(** ** Invariants of the server *)
(* ===================================================================== *)

Module ServerFacts.

Import JsVal JsStr Server Spec JsNumFacts TableFacts Hoare HoareFacts.
Local Open Scope string_scope.
Local Open Scope list_scope.
Local Open Scope Z_scope.

(** Unfolds the handlers down to the primitive steps and the loops. *)
Ltac unfold_handlers :=
  unfold handler, on_connection, on_message, on_client_close,
    on_client_error, drain_listener, on_line, on_tick, on_sigint,
    on_uncaught, closeReadline, on_rl_close, closeServer,
    handleTerminateProcess, drain_client, handleTerminateSignal, updateDevice,
    printDeviceStatus, sweep_device, rounded, checkAllClientsClosed,
    closeWebSocketServer, closedClients_add, add_listeners,
    mark_closing, broadcast, broadcastStartMonitor.

(** A relation respected by every handler holds across a turn of the
    event loop that leaves the process running. *)
Lemma step_respects (R : State -> State -> Prop)
      (R_trans : forall a b c, R a b -> R b c -> R a c)
      (ev : event) (s s' : State) (fx : list effect) :
  respects R (handler ev) -> respects R on_uncaught ->
  step ev s = (Running s', fx) -> R s s'.
Proof.
  intros Hh Hu. unfold step.
  pose proof (Hh s) as H. unfold wp in H.
  destruct (handler ev s) as [[[[]| |code] s1] fx1]; cbn [unless_exit] in H.
  - intros [= <- _]. exact H.
  - pose proof (Hu s1) as H1. unfold wp in H1.
    destruct (on_uncaught s1) as [[[[]| |code] s2] fx2];
      cbn [unless_exit] in H1; try discriminate.
    intros [= <- _]. eauto.
  - discriminate.
Qed.

(** From a handler to a turn of the event loop. *)
Lemma step_of_wp (ev : event) (s : State) (P : State -> list effect -> Prop) :
  wp (handler ev) (fun r s' fx => r = Ok tt /\ P s' fx) s ->
  exists s' fx, step ev s = (Running s', fx) /\ P s' fx.
Proof.
  intros H. destruct (wp_result _ _ _ H) as (r & s' & fx & E & -> & HP).
  exists s', fx. unfold step. now rewrite E.
Qed.

(** *** The loops, for any preorder *)

Section Loops.

Variable R : State -> State -> Prop.
Hypothesis R_refl : forall s, R s s.
Hypothesis R_trans : forall a b c, R a b -> R b c -> R a c.

(** Collecting the statistics changes nothing. *)
Lemma collect_stats_respects (ids : list Z) : respects R (collect_stats ids).
Proof.
  induction ids as [|i r IH]; cbn [collect_stats]; unfold rounded;
    frame R_refl R_trans idtac ltac:(apply IH).
Qed.

(** The sweep only ever assigns [con]. *)
Lemma sweep_loop_respects (now : Z) (ids : list Z) (changed : bool) :
  (forall s i b, R s (set_deviceMap (update (deviceMap s) i (set_con b)) s)) ->
  respects R (sweep_loop now ids changed).
Proof.
  intros Hcon. revert changed.
  induction ids as [|i r IH]; intros changed; cbn [sweep_loop];
    unfold sweep_device;
    frame R_refl R_trans ltac:(intros; apply Hcon) ltac:(apply IH).
Qed.

End Loops.

(** *** The keys of the table never change *)

Lemma same_keys_refl (s : State) : same_keys s s.
Proof. reflexivity. Qed.

Lemma same_keys_trans (a b c : State) :
  same_keys a b -> same_keys b c -> same_keys a c.
Proof. unfold same_keys. congruence. Qed.

Ltac same_keys_side :=
  intros; unfold same_keys; state_simpl;
  try match goal with |- context [drain ?s] => destruct (drain s) end;
  state_simpl; solve [reflexivity | apply update_keys].

Lemma handler_same_keys (ev : event) : respects same_keys (handler ev).
Proof.
  destruct ev; unfold_handlers;
    frame same_keys_refl same_keys_trans same_keys_side
      ltac:(first
        [ apply (collect_stats_respects _ same_keys_refl same_keys_trans)
        | apply (sweep_loop_respects _ same_keys_refl same_keys_trans);
          same_keys_side ]).
Qed.

Lemma on_uncaught_same_keys : respects same_keys on_uncaught.
Proof.
  unfold_handlers. frame same_keys_refl same_keys_trans same_keys_side idtac.
Qed.

Lemma step_same_keys (ev : event) (s s' : State) (fx : list effect) :
  step ev s = (Running s', fx) -> same_keys s s'.
Proof.
  apply (step_respects same_keys same_keys_trans);
    [apply handler_same_keys | apply on_uncaught_same_keys].
Qed.

Lemma reachable_well_formed (s : State) : reachable s -> well_formed s.
Proof.
  induction 1 as [clock | s s' ev fx _ IH Hstep].
  - apply well_formed_initial.
  - unfold well_formed in *. now rewrite (step_same_keys _ _ _ _ Hstep).
Qed.

(** *** The liveness sweep *)

Lemma demote_idempotent (now : Z) (d : Device) :
  demote now (demote now d) = demote now d.
Proof.
  unfold demote. destruct d as [i v a hi lo c t]; cbn.
  destruct c; cbn; [|reflexivity].
  destruct (now - t <? DEVICE_TIMEOUT); reflexivity.
Qed.

Lemma lookup_sweep_table (now : Z) (ids : list Z) (m : DeviceMap) (j : Z) :
  lookup (sweep_table now ids m) j =
  if existsb (Z.eqb j) ids then option_map (demote now) (lookup m j)
  else lookup m j.
Proof.
  revert m. induction ids as [|i r IH]; intros m; cbn; [reflexivity|].
  fold (sweep_table now r (update m i (demote now))).
  rewrite IH, lookup_update.
  destruct (j =? i), (existsb (Z.eqb j) r); cbn; try reflexivity.
  destruct (lookup m j); cbn; [|reflexivity].
  now rewrite demote_idempotent.
Qed.

Lemma sweep_table_keys (now : Z) (ids : list Z) (m : DeviceMap) :
  map fst (sweep_table now ids m) = map fst m.
Proof.
  revert m. induction ids as [|i r IH]; intros m; cbn; [reflexivity|].
  fold (sweep_table now r (update m i (demote now))).
  now rewrite IH, update_keys.
Qed.

Lemma sweep_device_run (now i : Z) (changed : bool) (s : State) :
  well_formed s -> 1 <= i <= 6 ->
  exists changed',
    sweep_device now i changed s =
    (Ok changed', set_deviceMap (update (deviceMap s) i (demote now)) s, []).
Proof.
  intros W Hi.
  destruct (well_formed_lookup s i W Hi) as [d Hd].
  enough (G : wp (sweep_device now i changed)
                 (fun r s' fx =>
                    (exists c, r = Ok c) /\ fx = [] /\
                    s' = set_deviceMap (update (deviceMap s) i (demote now)) s) s).
  { destruct (wp_result _ _ _ G) as (r & s' & fx & E & [c ->] & -> & ->). eauto. }
  pose proof (well_formed_get s i W Hi) as Hg.
  unfold sweep_device. wp_steps;
    rewrite ?(lookup_update_same _ _ _ _ Hd) in *; try discriminate.
  all: repeat split; eauto.
  all: first
    [ f_equal; apply update_ext
    | rewrite update_same; [now rewrite set_deviceMap_same|] ];
    intros x Hx; unfold demote; rewrite Hd in Hx;
    injection Hx as <-; now destruct (con d).
Qed.

Lemma sweep_loop_run (now : Z) (ids : list Z) :
  forall (changed : bool) (s : State),
    well_formed s -> (forall i, In i ids -> 1 <= i <= 6) ->
    exists changed',
      sweep_loop now ids changed s =
      (Ok changed', set_deviceMap (sweep_table now ids (deviceMap s)) s, []).
Proof.
  induction ids as [|i r IH]; intros changed s W Hids; cbn [sweep_loop].
  - exists changed. unfold ret. cbn. now rewrite set_deviceMap_same.
  - destruct (sweep_device_run now i changed s W (Hids i (or_introl eq_refl)))
      as [c1 E1].
    set (s1 := set_deviceMap (update (deviceMap s) i (demote now)) s) in *.
    assert (W1 : well_formed s1)
      by (unfold well_formed, s1; state_simpl; now rewrite update_keys).
    destruct (IH c1 s1 W1 (fun j Hj => Hids j (or_intror Hj))) as [c2 E2].
    exists c2. unfold bind. rewrite E1, E2. reflexivity.
Qed.

(** A scheduled tick, while the server is not closing, sweeps the table
    and touches nothing else. *)
Lemma tick_run (now : Z) (s : State) :
  well_formed s -> deviceCheckInterval s = true -> isServerClosing s = false ->
  exists fx,
    step (Tick now) s =
    (Running (set_deviceMap (sweep_table now device_ids (deviceMap s)) s), fx).
Proof.
  intros W Hsched Hclosing.
  destruct (sweep_loop_run now device_ids false s W) as [c E].
  { unfold device_ids. cbn. lia. }
  unfold step, handler, on_tick, bind, gets.
  rewrite Hsched, Hclosing, E.
  destruct c; [|eexists; reflexivity].
  unfold broadcast, bind, gets. state_simpl. rewrite Hclosing.
  eexists; reflexivity.
Qed.

(** *** Entering the draining state *)

(** The loop over the captured clients asks every open one to close, and
    neither throws nor exits. *)
Lemma drain_loop_closes (cs : list Client) (s : State) :
  wp (for_each cs drain_client)
     (fun r _ fx =>
        r = Ok tt /\
        forall c, In c cs -> is_open c = true ->
                  In (CloseClient (client_id c)) fx) s.
Proof.
  revert s. induction cs as [|c r IH]; intros s; cbn [for_each].
  - apply wp_ret. split; [reflexivity | intros c []].
  - apply wp_bind.
    assert (B : wp (drain_client c)
                   (fun r0 _ fx0 =>
                      r0 = Ok tt /\
                      (is_open c = true -> In (CloseClient (client_id c)) fx0)) s).
    { unfold drain_client, mark_closing, add_listeners, closedClients_add,
        checkAllClientsClosed, closeWebSocketServer.
      wp_steps; split; auto; try discriminate; intros _; now left. }
    eapply wp_mono; [|exact B]. cbn beta.
    intros r0 s1 fx1 [-> Hc]. cbn [and_then].
    eapply wp_mono; [|apply IH]. cbn beta.
    intros r1 s2 fx2 [-> Hr]. split; [reflexivity|].
    intros c' [<- | Hin] Hopen; apply in_or_app; auto.
Qed.

(** [handleTerminateProcess] called while the server is running, with a
    label that can be printed: it returns normally, the flag is set, the
    sweep is unscheduled, every open client is asked to close, and the
    deadline is pending exactly when at least one client was connected. *)
Lemma handleTerminateProcess_run (label : jsval) (s : State) :
  isServerClosing s = false ->
  ToString label <> None ->
  exists s' fx,
    handleTerminateProcess label s = (Ok tt, s', fx) /\
    isServerClosing s' = true /\
    deviceCheckInterval s' = false /\
    closeTimeoutTimer s' =
      match wss_clients s with [] => None | _ => Some CLOSE_TIMEOUT end /\
    drain_frame s s' /\
    forall c, In c (wss_clients s) -> is_open c = true ->
              In (CloseClient (client_id c)) fx.
Proof.
  intros Hrun Hlabel.
  enough (G : wp (handleTerminateProcess label)
                 (fun r s' fx =>
                    r = Ok tt /\ isServerClosing s' = true /\
                    deviceCheckInterval s' = false /\
                    closeTimeoutTimer s' =
                      match wss_clients s with
                      | [] => None
                      | _ => Some CLOSE_TIMEOUT
                      end /\
                    drain_frame s s' /\
                    forall c, In c (wss_clients s) -> is_open c = true ->
                              In (CloseClient (client_id c)) fx) s).
  { destruct (wp_result _ _ _ G) as (r & s' & fx & E & -> & H). eauto. }
  unfold handleTerminateProcess, closeWebSocketServer, drain_frame.
  wp_steps; try congruence.
  - repeat split; try reflexivity. intros c [].
  - eapply wp_mono;
      [| apply wp_conj;
         [ apply wp_for_each with
             (I := fun s1 _ =>
                     isServerClosing s1 = true /\
                     deviceCheckInterval s1 = false /\
                     closeTimeoutTimer s1 = None /\ drain_frame s s1)
         | apply drain_loop_closes ] ].
    + cbn beta. intros r s1 fx1 [[-> (H1 & H2 & H3 & H4)] [_ Hclose]].
      cbn [and_then]. wp_steps. unfold drain_frame in *. state_simpl.
      rewrite app_nil_r. tauto.
    + unfold drain_frame. state_simpl. tauto.
    + intros x s1 fx1 _ (H1 & H2 & H3 & H4 & H5 & H6).
      unfold drain_client, mark_closing, add_listeners, closedClients_add,
        checkAllClientsClosed, closeWebSocketServer, drain_frame.
      wp_steps; repeat split; state_simpl;
        repeat match goal with
               | |- context [drain ?s] => destruct (drain s)
               end; state_simpl; auto; discriminate.
Qed.

(** *** Messages *)

(** A key that equals none of 1..6 finds no device. *)
Lemma Map_get_no_key (s : State) (k : jsval) :
  well_formed s ->
  (forall i, 1 <= i <= 6 -> same_key k i = false) ->
  Map_get (deviceMap s) k = None.
Proof.
  intros W H. rewrite Map_get_find_key, W. unfold device_ids, find_key.
  now rewrite !H by lia.
Qed.

(** What a [start_monitor] message does. *)
Lemma start_monitor_run (s : State) (data v : jsval) (now : Z) :
  get_property data "type" = Some (VStr "start_monitor") ->
  get_property data "deviceId" = Some v ->
  step (Message (Some data) now) s =
  (Running s,
   if isServerClosing s then []
   else match parseInt v with
        | Some x =>
            if JsNum.eq x (Fin 1 0) && negb (isTerminated s)
            then [Broadcast StartMonitor (open_clients s)]
            else []
        | None => [ConsoleError]
        end).
Proof.
  intros Hty Hid.
  enough (G : exists s' fx,
             step (Message (Some data) now) s = (Running s', fx) /\
             (s' = s /\
              fx = if isServerClosing s then []
                   else match parseInt v with
                        | Some x =>
                            if JsNum.eq x (Fin 1 0) && negb (isTerminated s)
                            then [Broadcast StartMonitor (open_clients s)]
                            else []
                        | None => [ConsoleError]
                        end)).
  { destruct G as (s' & fx & E & -> & ->). exact E. }
  apply step_of_wp. unfold handler, on_message, broadcastStartMonitor.
  wp_steps; cbn [orb andb negb] in *; repeat split; try reflexivity.
  all: destruct (isServerClosing s), (isTerminated s);
    try discriminate; reflexivity.
Qed.

(** A volume message whose [deviceId] finds no device: [updateDevice]
    either rejects it or throws; nothing is changed and nothing is sent. *)
Lemma updateDevice_no_device (s : State) (data : jsval) (now : Z) :
  (forall k, get_property data "deviceId" = Some k ->
             Map_get (deviceMap s) k = None) ->
  wp (updateDevice data now)
     (fun r s' fx => (r = Ok false \/ r = Throw) /\ s' = s /\ fx = []) s.
Proof.
  intros H. unfold updateDevice.
  destruct (get_property data "deviceId") as [k|] eqn:Hk.
  - pose proof (H k eq_refl) as Hget.
    wp_steps; repeat split; auto.
  - wp_steps. repeat split; auto.
Qed.


(** The guard of [updateDevice] lets the numbers 1..6 through. *)
Lemma guard_accepts_keys (i : Z) :
  1 <= i <= 6 ->
  negb (ToBoolean (VNum (Fin i 0))) = false /\
  lt_num (VNum (Fin i 0)) (Fin 1 0) = Some false /\
  gt_num (VNum (Fin i 0)) (Fin 6 0) = Some false.
Proof.
  intros H.
  unfold ToBoolean, lt_num, gt_num, ToNumber, ToPrimitive, option_map,
    JsNum.isNaN, JsNum.eq, JsNum.gt, JsNum.lt.
  rewrite (to_double_key i H), !compare_of_Z.
  destruct (Z.compare_spec i 0), (Z.compare_spec i 1), (Z.compare_spec 6 i);
    try lia; auto.
Qed.


(** A volume message for device [i] with a reading that parses. *)
Lemma volume_run (s : State) (data v a : jsval) (x : num) (i now : Z) :
  well_formed s ->
  isServerClosing s = false ->
  get_property data "type" = Some (VStr "volume") ->
  get_property data "deviceId" = Some (VNum (Fin i 0)) ->
  1 <= i <= 6 ->
  get_property data "vol" = Some v ->
  parseFloat v = Some x ->
  get_property data "avg" = Some a ->
  exists s' d,
    lookup (deviceMap s) i = Some d /\
    s' = set_deviceMap (update (deviceMap s) i (reading x a now)) s /\
    step (Message (Some data) now) s =
    (Running s', [Broadcast (Snapshot (map snd (deviceMap s'))) (open_clients s)]).
Proof.
  intros W Hrun Hty Hid Hi Hv Hx Ha.
  destruct (well_formed_lookup s i W Hi) as [d Hd].
  pose proof (well_formed_get s i W Hi) as Hget.
  destruct (guard_accepts_keys i Hi) as (G1 & G2 & G3).
  exists (set_deviceMap (update (deviceMap s) i (reading x a now)) s), d.
  split; [exact Hd|]. split; [reflexivity|].
  enough (G : exists s' fx,
             step (Message (Some data) now) s = (Running s', fx) /\
             (s' = set_deviceMap (update (deviceMap s) i (reading x a now)) s /\
              fx = [Broadcast (Snapshot (map snd (deviceMap s'))) (open_clients s)])).
  { destruct G as (s' & fx & E & -> & ->). exact E. }
  apply step_of_wp. unfold handler, on_message, updateDevice, broadcast.
  wp_steps;
    rewrite ?set_deviceMap_twice, ?update_update in *;
    rewrite ?(lookup_update_same _ _ _ _ Hd) in *; try discriminate.
  repeat match goal with
         | H : Some _ = Some _ |- _ => injection H as <-
         end.
  assert (U : forall f g : Device -> Device,
             f d = g d -> update (deviceMap s) i f = update (deviceMap s) i g).
  { intros f g Hfg. apply update_ext. intros d0 Hd0.
    rewrite Hd in Hd0. now injection Hd0 as <-. }
  repeat split. f_equal. apply U. reflexivity.
Qed.

(** Calling [toFixed] on anything but a number throws. *)
Lemma toFixed_not_a_number (v : jsval) : not_a_number v -> toFixed v = None.
Proof. intros H. destruct v; try reflexivity. now destruct (H x). Qed.



(** While every average is a number, the loop returns the six records and
    changes nothing. *)
Lemma collect_stats_numeric (s : State) (ids : list Z) :
  well_formed s ->
  (forall i, In i ids -> 1 <= i <= 6) ->
  numeric_averages s ->
  exists stats,
    collect_stats ids s = (Ok stats, s, []) /\
    map (stat_entry (deviceMap s)) ids = map Some stats.
Proof.
  intros W Hids Hnum.
  enough (G : wp (collect_stats ids)
                 (fun r s' fx =>
                    exists stats, r = Ok stats /\ s' = s /\ fx = [] /\
                      map (stat_entry (deviceMap s)) ids = map Some stats) s).
  { destruct (wp_result _ _ _ G) as (r & s' & fx & E & stats & -> & -> & -> & H).
    eauto. }
  induction ids as [|j r IH]; cbn [collect_stats].
  - wp_steps. exists []. auto.
  - assert (Hj : 1 <= j <= 6) by (apply Hids; now left).
    destruct (well_formed_lookup s j W Hj) as [dj Hdj].
    pose proof (well_formed_get s j W Hj) as Hget.
    destruct (Hnum j dj Hdj) as [a Ha].
    assert (Hfix : toFixed (avg dj) = Some (toFixed2 a)) by now rewrite Ha.
    unfold rounded. cbn [toFixed]. wp_steps.
    eapply wp_mono; [|apply IH; intros; apply Hids; now right].
    cbn beta. intros r0 s' fx (stats & -> & -> & -> & Hstats). cbn [and_then].
    wp_steps. eexists. repeat split.
    cbn [map]. unfold stat_entry at 1. now rewrite Hdj, Ha, Hstats.
Qed.

(** While every average is a number, the reporter is one-shot: the first
    call sends one [end_statistics] with the records of the six devices,
    the second does nothing. *)
Lemma reporter_is_one_shot (s : State) :
  well_formed s ->
  isTerminated s = false ->
  numeric_averages s ->
  exists stats,
    map (stat_entry (deviceMap s)) device_ids = map Some stats /\
    handleTerminateSignal s
    = (Ok tt, set_isTerminated true s,
       [Broadcast (EndStatistics stats) (open_clients s)]) /\
    handleTerminateSignal (set_isTerminated true s)
    = (Ok tt, set_isTerminated true s, []).
Proof.
  intros W Hterm Hnum.
  destruct (collect_stats_numeric (set_isTerminated true s) device_ids)
    as (stats & E & Hstats); auto.
  { unfold device_ids. cbn. lia. }
  exists stats. split; [exact Hstats|]. split.
  - unfold handleTerminateSignal, bind, gets, modify, emit.
    rewrite Hterm, E. reflexivity.
  - reflexivity.
Qed.

(** *** The pending deadline cannot be cancelled *)

Lemma deadline_kept_refl (s : State) : deadline_kept s s.
Proof. unfold deadline_kept. auto. Qed.

Lemma deadline_kept_trans (a b c : State) :
  deadline_kept a b -> deadline_kept b c -> deadline_kept a c.
Proof.
  unfold deadline_kept. intros H1 H2 Ha.
  destruct (H1 Ha) as [Hb E1]. destruct (H2 Hb) as [Hc E2].
  split; congruence.
Qed.

Ltac deadline_kept_side :=
  intros; unfold deadline_kept; state_simpl;
  try match goal with |- context [drain ?s] => destruct (drain s) end;
  state_simpl; solve [auto | congruence].

Ltac deadline_kept_frame :=
  frame deadline_kept_refl deadline_kept_trans deadline_kept_side
    ltac:(first
      [ apply (collect_stats_respects _ deadline_kept_refl deadline_kept_trans)
      | apply (sweep_loop_respects _ deadline_kept_refl deadline_kept_trans);
        deadline_kept_side ]).

Lemma handler_deadline_kept (ev : event) :
  respects deadline_kept (handler ev).
Proof. destruct ev; unfold_handlers; deadline_kept_frame. Qed.

Lemma on_uncaught_deadline_kept : respects deadline_kept on_uncaught.
Proof. unfold_handlers. deadline_kept_frame. Qed.

Lemma step_deadline_kept (ev : event) (s s' : State) (fx : list effect) :
  step ev s = (Running s', fx) -> deadline_kept s s'.
Proof.
  apply (step_respects deadline_kept deadline_kept_trans);
    [apply handler_deadline_kept | apply on_uncaught_deadline_kept].
Qed.

Lemma run_deadline_kept (evs : list event) :
  forall (s s' : State) (fx : list effect),
    run evs s = (Running s', fx) -> deadline_kept s s'.
Proof.
  induction evs as [|ev r IH]; intros s s' fx; cbn [run].
  - intros [= <- _]. apply deadline_kept_refl.
  - destruct (step ev s) as [[s1|code] fx1] eqn:E1; [|discriminate].
    destruct (run r s1) as [p fx2] eqn:E2. intros [= -> _].
    eapply deadline_kept_trans;
      [eapply step_deadline_kept | eapply IH]; eauto.
Qed.


Lemma on_line_exit (now : Z) (s : State) :
  isServerClosing s = false -> on_line "exit" now s = closeServer s.
Proof.
  intros H. unfold on_line, bind, gets. rewrite H.
  match goal with
  | |- (let (p, fx') := ?c s in _) = _ => change c with closeServer
  end.
  now destruct (closeServer s) as [[r s2] fx].
Qed.

Lemma on_line_quit (now : Z) (s : State) :
  isServerClosing s = false -> on_line "quit" now s = closeServer s.
Proof.
  intros H. unfold on_line, bind, gets. rewrite H.
  match goal with
  | |- (let (p, fx') := ?c s in _) = _ => change c with closeServer
  end.
  now destruct (closeServer s) as [[r s2] fx].
Qed.

(** Each trigger runs [handleTerminateProcess] with a printable label. *)
Lemma trigger_runs_coordinator (ev : event) (s : State) :
  shutdown_trigger ev -> isServerClosing s = false ->
  exists label,
    ToString label <> None /\
    forall s' fx,
      handleTerminateProcess label s = (Ok tt, s', fx) ->
      step ev s = (Running s', fx).
Proof.
  intros Htrig Hrun.
  destruct Htrig as [data deviceId now Hty Hid Hlabel | now | now | ].
  - exists (or_else deviceId (VStr "unknown")). split; [exact Hlabel|].
    intros s' fx E.
    unfold step, handler, on_message, try_catch, bind, lift, ret.
    rewrite Hty. cbn [is_string String.eqb Ascii.eqb Bool.eqb].
    rewrite Hid, E. reflexivity.
  - exists (VStr "console"). split; [discriminate|]. intros s' fx E.
    unfold step, handler. rewrite (on_line_exit now s Hrun).
    unfold closeServer, bind, gets. rewrite Hrun. now rewrite E.
  - exists (VStr "console"). split; [discriminate|]. intros s' fx E.
    unfold step, handler. rewrite (on_line_quit now s Hrun).
    unfold closeServer, bind, gets. rewrite Hrun. now rewrite E.
  - exists (VStr "console"). split; [discriminate|]. intros s' fx E.
    unfold step, handler, on_sigint, closeServer, bind, gets.
    rewrite Hrun. now rewrite E.
Qed.

(** *** Watermarks *)

Lemma watermarks_grow_refl (s : State) : watermarks_grow s s.
Proof.
  intros i d Hd [Hmax Hmin]. exists d.
  repeat split; auto using le_refl.
Qed.

Lemma watermarks_grow_trans (a b c : State) :
  watermarks_grow a b -> watermarks_grow b c -> watermarks_grow a c.
Proof.
  intros H1 H2 i d Hd Hn.
  destruct (H1 i d Hd Hn) as (d1 & Hd1 & Hn1 & Hmax1 & Hmin1).
  destruct (H2 i d1 Hd1 Hn1) as (d2 & Hd2 & Hn2 & Hmax2 & Hmin2).
  exists d2. repeat split; try apply Hn2; auto.
  - eapply le_trans; eauto.
  - eapply le_trans; eauto.
Qed.

Lemma watermarks_grow_same_table (s s' : State) :
  deviceMap s' = deviceMap s -> watermarks_grow s s'.
Proof. intros E i d Hd Hn. rewrite E. now apply watermarks_grow_refl. Qed.

Lemma watermarks_grow_update (s : State) (i : Z) (f : Device -> Device) :
  (forall d, lookup (deviceMap s) i = Some d -> numeric d ->
             numeric (f d) /\
             JsNum.le (max d) (max (f d)) = true /\
             JsNum.le (min (f d)) (min d) = true) ->
  watermarks_grow s (set_deviceMap (update (deviceMap s) i f) s).
Proof.
  intros H j d Hd Hn. state_simpl. rewrite lookup_update.
  destruct (j =? i) eqn:E.
  - apply Z.eqb_eq in E. subst j. rewrite Hd. cbn [option_map].
    exists (f d). destruct (H d Hd Hn) as (? & ? & ?). auto.
  - rewrite Hd. exists d. destruct Hn.
    repeat split; auto using le_refl.
Qed.

(** An assignment that leaves both watermarks alone. *)
Lemma watermarks_grow_neutral (s : State) (i : Z) (f : Device -> Device) :
  (forall d, max (f d) = max d /\ min (f d) = min d) ->
  watermarks_grow s (set_deviceMap (update (deviceMap s) i f) s).
Proof.
  intros H. apply watermarks_grow_update. intros d _ [Hmax Hmin].
  destruct (H d) as [E1 E2]. unfold numeric. rewrite E1, E2.
  repeat split; auto using le_refl.
Qed.

Lemma watermarks_grow_max (s : State) (i : Z) (d : Device) (x : num) :
  lookup (deviceMap s) i = Some d -> x <> NaN ->
  watermarks_grow s
    (set_deviceMap
       (update (deviceMap s) i (set_max (JsNum.Math_max (max d) x))) s).
Proof.
  intros Hd Hx. apply watermarks_grow_update. intros d0 Hd0 [Hmax Hmin].
  rewrite Hd in Hd0. injection Hd0 as <-.
  destruct (Math_max_spec (max d) x Hmax Hx) as (H1 & H2 & _).
  unfold numeric. cbn [max min set_max].
  repeat split; auto using le_refl.
Qed.

Lemma watermarks_grow_min (s : State) (i : Z) (d : Device) (x : num) :
  lookup (deviceMap s) i = Some d -> x <> NaN ->
  watermarks_grow s
    (set_deviceMap
       (update (deviceMap s) i (set_min (JsNum.Math_min (min d) x))) s).
Proof.
  intros Hd Hx. apply watermarks_grow_update. intros d0 Hd0 [Hmax Hmin].
  rewrite Hd in Hd0. injection Hd0 as <-.
  destruct (Math_min_spec (min d) x Hmin Hx) as (H1 & H2 & _).
  unfold numeric. cbn [max min set_min].
  repeat split; auto using le_refl.
Qed.

Ltac grow_side notnan :=
  intros;
  first
    [ apply watermarks_grow_same_table; state_simpl;
      try match goal with |- context [drain ?s] => destruct (drain s) end;
      reflexivity
    | apply watermarks_grow_neutral; intros; split; reflexivity
    | apply watermarks_grow_max; [assumption | notnan]
    | apply watermarks_grow_min; [assumption | notnan] ].

Ltac grow_frame notnan :=
  frame watermarks_grow_refl watermarks_grow_trans ltac:(grow_side notnan)
    ltac:(first
      [ apply (collect_stats_respects _ watermarks_grow_refl watermarks_grow_trans)
      | apply (sweep_loop_respects _ watermarks_grow_refl watermarks_grow_trans);
        grow_side notnan ]).

Lemma handler_watermarks_grow (ev : event) :
  nonneg_reading ev = true -> respects watermarks_grow (handler ev).
Proof.
  intros Hnn.
  destruct ev as [c|message now|c|c|input now| |now| |err| | |].
  all: try (unfold_handlers; grow_frame fail; fail).
  - unfold_handlers.
    grow_frame
      ltac:(idtac; match goal with
            | Hs : message = Some ?a,
              Ht : get_property ?a "type" = Some ?ty,
              Hv : is_string ?ty "volume" = true,
              Hvol : get_property ?a "vol" = Some ?v,
              Hp : parseFloat ?v = Some ?x |- ?x <> NaN =>
                rewrite Hs in Hnn; unfold nonneg_reading in Hnn;
                rewrite Ht, Hv, Hvol, Hp in Hnn;
                exact (proj2 (le_numbers _ _ Hnn))
            end).
  - unfold_handlers.
    grow_frame
      ltac:(idtac; match goal with
            | E : _ && negb (JsNum.isNaN ?x) && _ && _ = true |- ?x <> NaN =>
                apply andb_true_iff in E; destruct E as [E _];
                apply andb_true_iff in E; destruct E as [E _];
                apply andb_true_iff in E; destruct E as [_ E];
                intros Hx; rewrite Hx in E; cbn in E; discriminate
            end).
Qed.

Lemma on_uncaught_watermarks_grow : respects watermarks_grow on_uncaught.
Proof. unfold_handlers. grow_frame fail. Qed.

(** A reading that is a number puts [vol] between the watermarks. *)
Lemma reading_between_watermarks (d : Device) (x : num) (a : jsval) (now : Z) :
  numeric d -> x <> NaN ->
  numeric (reading x a now d) /\
  JsNum.le (min (reading x a now d)) (vol (reading x a now d)) = true /\
  JsNum.le (vol (reading x a now d)) (max (reading x a now d)) = true.
Proof.
  intros [Hmax Hmin] Hx. cbn [reading max min vol].
  destruct (Math_max_spec (max d) x Hmax Hx) as (M1 & _ & M2).
  destruct (Math_min_spec (min d) x Hmin Hx) as (N1 & _ & N2).
  unfold numeric. cbn [max min]. auto.
Qed.

(** A reading that is not a number turns both watermarks into NaN, and a
    NaN watermark stays NaN under every later reading. *)
Lemma nan_reading_poisons_watermarks (d : Device) (a : jsval) (now : Z) :
  vol (reading NaN a now d) = NaN /\
  max (reading NaN a now d) = NaN /\
  min (reading NaN a now d) = NaN.
Proof.
  cbn [reading vol max min].
  now rewrite Math_max_NaN_r, Math_min_NaN_r.
Qed.

Lemma nan_watermarks_are_permanent
      (d : Device) (x : num) (a : jsval) (now : Z) :
  max d = NaN -> min d = NaN ->
  max (reading x a now d) = NaN /\ min (reading x a now d) = NaN.
Proof. intros Hmax Hmin. cbn [reading max min]. now rewrite Hmax, Hmin. Qed.

Lemma step_watermarks_grow (ev : event) (s s' : State) (fx : list effect) :
  nonneg_reading ev = true ->
  step ev s = (Running s', fx) -> watermarks_grow s s'.
Proof.
  intros Hnn.
  apply (step_respects watermarks_grow watermarks_grow_trans);
    [now apply handler_watermarks_grow | apply on_uncaught_watermarks_grow].
Qed.

Lemma run_watermarks_grow (evs : list event) :
  forall (s s' : State) (fx : list effect),
    forallb nonneg_reading evs = true ->
    run evs s = (Running s', fx) -> watermarks_grow s s'.
Proof.
  induction evs as [|ev r IH]; intros s s' fx Hnn; cbn [run].
  - intros [= <- _]. apply watermarks_grow_refl.
  - cbn [forallb] in Hnn. apply andb_true_iff in Hnn. destruct Hnn as [H1 H2].
    destruct (step ev s) as [[s1|code] fx1] eqn:E1; [|discriminate].
    destruct (run r s1) as [p fx2] eqn:E2. intros [= -> _].
    eapply watermarks_grow_trans;
      [eapply step_watermarks_grow | eapply IH]; eauto.
Qed.

Lemma run_same_keys (evs : list event) :
  forall (s s' : State) (fx : list effect),
    run evs s = (Running s', fx) -> same_keys s s'.
Proof.
  induction evs as [|ev r IH]; intros s s' fx; cbn [run].
  - intros [= <- _]. apply same_keys_refl.
  - destruct (step ev s) as [[s1|code] fx1] eqn:E1; [|discriminate].
    destruct (run r s1) as [p fx2] eqn:E2. intros [= -> _].
    eapply same_keys_trans; [eapply step_same_keys | eapply IH]; eauto.
Qed.

Lemma initial_numeric (clock : Z -> Z) (i : Z) (d : Device) :
  lookup (deviceMap (initial clock)) i = Some d -> numeric d.
Proof.
  unfold initial, initial_deviceMap, device_ids. cbn.
  repeat match goal with
         | |- context [if ?b then _ else _] => destruct b
         end;
    intros [= <-]; split; discriminate.
Qed.

(** A tick that is not scheduled, or that finds the server closing,
    changes nothing. *)
Lemma tick_skipped (now : Z) (s : State) :
  deviceCheckInterval s && negb (isServerClosing s) = false ->
  step (Tick now) s = (Running s, []).
Proof.
  intros H. unfold step, handler, on_tick, bind, gets, ret.
  destruct (deviceCheckInterval s); [|reflexivity].
  destruct (isServerClosing s); [reflexivity | discriminate].
Qed.

(** *** Invariants and allowed effects, over a turn and over a run *)

Section KeepsLoops.

Variable J : State -> Prop.
Variable P : effect -> Prop.
Variable X : Z -> Prop.

(** Collecting the statistics changes nothing and sends nothing. *)
Lemma collect_stats_keeps (ids : list Z) : keeps J P X (collect_stats ids).
Proof.
  induction ids as [|i r IH]; cbn [collect_stats]; unfold rounded;
    keeps_all idtac ltac:(apply IH).
Qed.

(** The sweep only ever assigns [con], and sends nothing itself. *)
Lemma sweep_loop_keeps (now : Z) (ids : list Z) (changed : bool) :
  (forall s i b, J s -> J (set_deviceMap (update (deviceMap s) i (set_con b)) s)) ->
  keeps J P X (sweep_loop now ids changed).
Proof.
  intros Hcon. revert changed.
  induction ids as [|i r IH]; intros changed; cbn [sweep_loop];
    unfold sweep_device;
    keeps_all ltac:(intros; apply Hcon; assumption) ltac:(apply IH).
Qed.

End KeepsLoops.

Section KeepsRun.

Variable J : State -> Prop.
Variable P : effect -> Prop.

(** The listener of last resort never throws: it exits, or it calls the
    coordinator with a label that prints. *)
Lemma on_uncaught_returns (s : State) :
  exists r s' fx, on_uncaught s = (r, s', fx) /\ r <> Throw.
Proof.
  unfold on_uncaught, closeServer, forceExit, bind, gets, modify, process_exit.
  destruct (isServerClosing s) eqn:Hc.
  - cbn. do 3 eexists. split; [reflexivity | discriminate].
  - rewrite Hc.
    destruct (handleTerminateProcess_run (VStr "console") s Hc)
      as (s' & fx & E & _); [discriminate|].
    rewrite E. do 3 eexists. split; [reflexivity | discriminate].
Qed.

Lemma step_keeps (ev : event) (s : State) (p : process) (fx : list effect) :
  keeps J P status_zero (handler ev) -> keeps J P status_zero on_uncaught -> J s ->
  step ev s = (p, fx) ->
  Forall P fx /\
  match p with
  | Running s' => J s'
  | Exited code => code = 0
  end.
Proof.
  intros Hh Hu Hs. unfold step.
  pose proof (Hh s Hs) as H. unfold wp in H.
  destruct (handler ev s) as [[[[]| |code] s1] fx1];
    destruct H as (H1 & F1 & X1); cbn [exit_ok status_zero] in X1.
  - intros [= <- <-]. auto.
  - pose proof (Hu s1 H1) as H2. unfold wp in H2.
    destruct (on_uncaught_returns s1) as (r & s2 & fx2 & E & Hr).
    rewrite E in *. destruct H2 as (H2 & F2 & X2).
    destruct r as [[]| |code]; cbn [exit_ok status_zero] in X2;
      [| now destruct Hr |]; intros [= <- <-];
      (split; [apply Forall_app; auto | auto]).
  - intros [= <- <-]. auto.
Qed.

Lemma run_keeps (evs : list event) :
  (forall ev, keeps J P status_zero (handler ev)) -> keeps J P status_zero on_uncaught ->
  forall (s : State) (p : process) (fx : list effect),
    J s -> run evs s = (p, fx) ->
    Forall P fx /\
    match p with
    | Running s' => J s'
    | Exited code => code = 0
    end.
Proof.
  intros Hh Hu.
  induction evs as [|ev r IH]; intros s p fx Hs; cbn [run].
  - intros [= <- <-]. auto.
  - destruct (step ev s) as [[s1|code] fx1] eqn:E1.
    + destruct (step_keeps _ _ _ _ (Hh ev) Hu Hs E1) as [F1 H1].
      destruct (run r s1) as [p2 fx2] eqn:E2. intros [= <- <-].
      destruct (IH _ _ _ H1 E2) as [F2 H2].
      split; [apply Forall_app; auto | exact H2].
    + intros [= <- <-]. exact (step_keeps _ _ _ _ (Hh ev) Hu Hs E1).
Qed.

End KeepsRun.

(** Every exit of the process is a [process.exit(0)]. *)
Lemma handler_exits_cleanly (ev : event) :
  keeps (fun _ => True) (fun _ => True) status_zero (handler ev).
Proof.
  destruct ev; unfold_handlers;
    keeps_all ltac:(intros; first [exact I | exact eq_refl])
      ltac:(first [ apply collect_stats_keeps
                  | apply sweep_loop_keeps; intros; exact I ]).
Qed.

Lemma on_uncaught_exits_cleanly :
  keeps (fun _ => True) (fun _ => True) status_zero on_uncaught.
Proof.
  unfold_handlers. keeps_all ltac:(intros; first [exact I | exact eq_refl]) fail.
Qed.

(** *** Once the server is closing *)

Ltac flag_side :=
  intros; state_simpl;
  try match goal with |- context [drain ?s] => destruct (drain s) end;
  state_simpl; solve [assumption | reflexivity | exact eq_refl].

(** While [isServerClosing] is set it stays set, and nothing is pushed. *)
Lemma handler_closing_silent (ev : event) :
  keeps (fun s => isServerClosing s = true) (fun e => is_push e = false)
        status_zero (handler ev).
Proof.
  destruct ev; unfold_handlers;
    keeps_all flag_side
      ltac:(first [ apply keeps_guard; intros; assumption
                  | apply collect_stats_keeps
                  | apply sweep_loop_keeps; flag_side ]).
Qed.

Lemma on_uncaught_closing_silent :
  keeps (fun s => isServerClosing s = true) (fun e => is_push e = false)
        status_zero on_uncaught.
Proof.
  unfold_handlers.
  keeps_all flag_side ltac:(apply keeps_guard; intros; assumption).
Qed.

(** *** Once the monitoring is terminated *)

Ltac terminated_leaf :=
  first [ apply keeps_guard; intros; assumption
        | apply keeps_bind_gets; intros ? Hterm; cbn beta;
          rewrite Hterm, orb_true_r; apply wp_ret; cbn [exit_ok]; auto
        | apply collect_stats_keeps
        | apply sweep_loop_keeps; flag_side ].

(** While [isTerminated] is set it stays set, and neither [start_monitor]
    nor [end_statistics] is pushed. *)
Lemma handler_terminated_silent (ev : event) :
  keeps (fun s => isTerminated s = true)
        (fun e => is_monitoring_push e = false) status_zero (handler ev).
Proof. destruct ev; unfold_handlers; keeps_all flag_side terminated_leaf. Qed.

Lemma on_uncaught_terminated_silent :
  keeps (fun s => isTerminated s = true)
        (fun e => is_monitoring_push e = false) status_zero on_uncaught.
Proof. unfold_handlers. keeps_all flag_side terminated_leaf. Qed.

(** *** The six devices stay in place *)

Lemma ids_in_place_initial (clock : Z -> Z) : ids_in_place (initial clock).
Proof. split; reflexivity. Qed.

Lemma ids_in_place_update (s : State) (i : Z) (f : Device -> Device) :
  (forall d, deviceId (f d) = deviceId d) ->
  ids_in_place s ->
  ids_in_place (set_deviceMap (update (deviceMap s) i f) s).
Proof.
  intros Hf [Hk Hi]. unfold ids_in_place. state_simpl.
  rewrite update_keys. split; [exact Hk|]. rewrite <- Hi.
  clear Hk Hi. induction (deviceMap s) as [|[j d] r IH]; cbn; [reflexivity|].
  destruct (i =? j); cbn; [now rewrite Hf | now rewrite IH].
Qed.

Ltac ids_side :=
  intros;
  first
    [ exact I
    | exact eq_refl
    | apply ids_in_place_update; [intros []; reflexivity | assumption]
    | unfold ids_in_place in *; state_simpl;
      try match goal with |- context [drain ?s] => destruct (drain s) end;
      state_simpl; assumption ].

Ltac ids_leaf :=
  first [ apply keeps_bind_gets; intros ? Hids; cbn beta; apply wp_emit;
          cbn [exit_ok];
          split; [exact Hids|]; split; [|exact I];
          constructor;
          [ cbn [lists_six_devices]; rewrite map_map; exact (proj2 Hids)
          | constructor ]
        | apply collect_stats_keeps
        | apply sweep_loop_keeps; ids_side ].

(** The table keeps its six devices, and every snapshot lists them. *)
Lemma handler_ids_in_place (ev : event) :
  keeps ids_in_place lists_six_devices status_zero (handler ev).
Proof. destruct ev; unfold_handlers; keeps_all ids_side ids_leaf. Qed.

Lemma on_uncaught_ids_in_place :
  keeps ids_in_place lists_six_devices status_zero on_uncaught.
Proof. unfold_handlers. keeps_all ids_side ids_leaf. Qed.

(** *** What a sweep pushes *)

Lemma timed_out_demoted (now : Z) (m : DeviceMap) (i j : Z) :
  timed_out now (update m i (demote now)) j =
  if j =? i then false else timed_out now m j.
Proof.
  unfold timed_out. rewrite lookup_update.
  destruct (j =? i) eqn:E; [|reflexivity].
  destruct (lookup m j) as [d|]; cbn [option_map]; [|reflexivity].
  unfold demote. destruct d as [id v a hi lo c t]; cbn.
  destruct c; cbn; [|reflexivity].
  destruct (Z.ltb_spec (now - t) DEVICE_TIMEOUT),
           (Z.leb_spec DEVICE_TIMEOUT (now - t)); cbn; try reflexivity; lia.
Qed.

Lemma existsb_timed_out_demoted (now : Z) (m : DeviceMap) (i : Z) (r : list Z) :
  timed_out now m i || existsb (timed_out now (update m i (demote now))) r
  = timed_out now m i || existsb (timed_out now m) r.
Proof.
  induction r as [|j r IH]; cbn [existsb]; [reflexivity|].
  rewrite timed_out_demoted.
  destruct (j =? i) eqn:E.
  - apply Z.eqb_eq in E. subst j. cbn [orb].
    destruct (timed_out now m i); cbn [orb] in *; auto.
  - destruct (timed_out now m j); cbn [orb].
    + now rewrite !orb_true_r.
    + exact IH.
Qed.

(** What the body of the sweep makes of [statusChanged]. *)
Lemma sweep_device_changed (now i : Z) (changed : bool) (s : State) :
  well_formed s -> 1 <= i <= 6 ->
  sweep_device now i changed s =
  (Ok (changed || timed_out now (deviceMap s) i),
   set_deviceMap (update (deviceMap s) i (demote now)) s, []).
Proof.
  intros W Hi.
  destruct (well_formed_lookup s i W Hi) as [d Hd].
  enough (G : wp (sweep_device now i changed)
                 (fun r s' fx =>
                    r = Ok (changed || timed_out now (deviceMap s) i) /\
                    fx = [] /\
                    s' = set_deviceMap (update (deviceMap s) i (demote now)) s) s).
  { destruct (wp_result _ _ _ G) as (r & s' & fx & E & -> & -> & ->).
    exact E. }
  pose proof (well_formed_get s i W Hi) as Hg.
  unfold sweep_device, timed_out. rewrite Hd. wp_steps;
    rewrite ?(lookup_update_same _ _ _ _ Hd) in *; try discriminate.
  all: repeat match goal with
              | H : Some _ = Some _ |- _ => injection H as <-
              end.
  all: destruct d as [id v a hi lo c t]; cbn in *.
  all: destruct c; cbn in *; try discriminate.
  all: destruct (Z.ltb_spec (now - t) DEVICE_TIMEOUT),
                (Z.leb_spec DEVICE_TIMEOUT (now - t));
    cbn in *; try discriminate; try lia.
  all: rewrite ?orb_false_r, ?orb_true_r.
  all: split; [reflexivity|]; split; [reflexivity|].
  all: first
    [ f_equal; apply update_ext; intros x Hx; rewrite Hd in Hx;
      injection Hx as <-; unfold demote; cbn;
      destruct (Z.ltb_spec (now - t) DEVICE_TIMEOUT); try lia; reflexivity
    | rewrite update_same; [now rewrite set_deviceMap_same|];
      intros x Hx; rewrite Hd in Hx; injection Hx as <-; reflexivity ].
Qed.

Lemma sweep_loop_changed (now : Z) (ids : list Z) :
  forall (changed : bool) (s : State),
    well_formed s -> (forall i, In i ids -> 1 <= i <= 6) ->
    sweep_loop now ids changed s =
    (Ok (changed || existsb (timed_out now (deviceMap s)) ids),
     set_deviceMap (sweep_table now ids (deviceMap s)) s, []).
Proof.
  induction ids as [|i r IH]; intros changed s W Hids; cbn [sweep_loop].
  - unfold ret. cbn. now rewrite set_deviceMap_same, orb_false_r.
  - pose proof (sweep_device_changed now i changed s W
                  (Hids i (or_introl eq_refl))) as E1.
    set (s1 := set_deviceMap (update (deviceMap s) i (demote now)) s) in *.
    assert (W1 : well_formed s1)
      by (unfold well_formed, s1; state_simpl; now rewrite update_keys).
    pose proof (IH (changed || timed_out now (deviceMap s) i) s1 W1
                   (fun j Hj => Hids j (or_intror Hj))) as E2.
    unfold bind. rewrite E1, E2. unfold s1. state_simpl.
    cbn [existsb sweep_table fold_left].
    rewrite <- orb_assoc, existsb_timed_out_demoted, orb_assoc.
    reflexivity.
Qed.

(** A sweep that finds no device timed out leaves the table as it is. *)
Lemma sweep_table_fixed (now : Z) (ids : list Z) (m : DeviceMap) :
  existsb (timed_out now m) ids = false -> sweep_table now ids m = m.
Proof.
  induction ids as [|i r IH]; cbn [existsb sweep_table fold_left];
    [reflexivity|].
  intros H. apply orb_false_iff in H. destruct H as [Hi Hr].
  assert (E : update m i (demote now) = m).
  { apply update_same. intros d Hd. unfold timed_out in Hi. rewrite Hd in Hi.
    unfold demote. destruct d as [id v a hi lo c t]; cbn in *.
    destruct c; cbn in *; [|reflexivity].
    destruct (Z.ltb_spec (now - t) DEVICE_TIMEOUT),
             (Z.leb_spec DEVICE_TIMEOUT (now - t));
      try discriminate; try lia; reflexivity. }
  rewrite E. exact (IH Hr).
Qed.

(** After a sweep no swept device is timed out. *)
Lemma sweep_table_settled (now : Z) (ids : list Z) (m : DeviceMap) (j : Z) :
  In j ids -> timed_out now (sweep_table now ids m) j = false.
Proof.
  intros Hj. unfold timed_out. rewrite lookup_sweep_table.
  assert (E : existsb (Z.eqb j) ids = true).
  { apply existsb_exists. exists j. split; [exact Hj | apply Z.eqb_refl]. }
  rewrite E. destruct (lookup m j) as [d|]; cbn [option_map]; [|reflexivity].
  unfold demote. destruct d as [id v a hi lo c t]; cbn.
  destruct c; cbn; [|reflexivity].
  destruct (Z.ltb_spec (now - t) DEVICE_TIMEOUT),
           (Z.leb_spec DEVICE_TIMEOUT (now - t)); cbn; try reflexivity; lia.
Qed.

(** A scheduled tick, while the server is not closing: the table is swept,
    and pushed if some device timed out. *)
Lemma tick_outcome (now : Z) (s : State) :
  well_formed s -> deviceCheckInterval s = true -> isServerClosing s = false ->
  step (Tick now) s =
  (Running (set_deviceMap (sweep_table now device_ids (deviceMap s)) s),
   if existsb (timed_out now (deviceMap s)) device_ids
   then [Broadcast
           (Snapshot (map snd (sweep_table now device_ids (deviceMap s))))
           (open_clients s)]
   else []).
Proof.
  intros W Hsched Hclosing.
  pose proof (sweep_loop_changed now device_ids false s W) as E.
  unfold step, handler, on_tick, bind, gets.
  rewrite Hsched, Hclosing, E by (unfold device_ids; cbn; lia).
  cbn [orb].
  destruct (existsb (timed_out now (deviceMap s)) device_ids);
    [|reflexivity].
  unfold broadcast, bind, gets, emit. state_simpl. rewrite Hclosing.
  reflexivity.
Qed.

(** *** The status display of the console *)

(** The loop of [printDeviceStatus], which formats each average. *)
Lemma print_loop_numeric (s : State) (ids : list Z) :
  well_formed s ->
  (forall i, In i ids -> 1 <= i <= 6) ->
  numeric_averages s ->
  for_each ids (fun i =>
    device <- get_device (VNum (Fin i 0)) ;;
    _ <- read device con ;;
    a <- read device avg ;;
    _ <- lift (toFixed a) ;;
    ret tt) s = (Ok tt, s, []).
Proof.
  intros W Hids Hnum.
  match goal with
  | |- ?c s = _ =>
      enough (G : wp c (fun r s' fx => r = Ok tt /\ s' = s /\ fx = []) s)
  end.
  { destruct (wp_result _ _ _ G) as (r & s' & fx & E & -> & -> & ->).
    exact E. }
  induction ids as [|j r IH]; cbn [for_each].
  - wp_steps. auto.
  - assert (Hj : 1 <= j <= 6) by (apply Hids; now left).
    destruct (well_formed_lookup s j W Hj) as [dj Hdj].
    pose proof (well_formed_get s j W Hj) as Hget.
    destruct (Hnum j dj Hdj) as [a Ha].
    assert (Hfix : toFixed (avg dj) = Some (toFixed2 a)) by now rewrite Ha.
    wp_steps.
    eapply wp_mono; [|apply IH; intros; apply Hids; now right].
    cbn beta. intros r0 s' fx (-> & -> & ->). auto.
Qed.

Lemma print_loop_throws (s : State) (ids : list Z) :
  well_formed s ->
  (forall i, In i ids -> 1 <= i <= 6) ->
  (exists i d, In i ids /\ lookup (deviceMap s) i = Some d /\
               not_a_number (avg d)) ->
  for_each ids (fun i =>
    device <- get_device (VNum (Fin i 0)) ;;
    _ <- read device con ;;
    a <- read device avg ;;
    _ <- lift (toFixed a) ;;
    ret tt) s = (Throw, s, []).
Proof.
  intros W Hids Hbad.
  match goal with
  | |- ?c s = _ =>
      enough (G : wp c (fun r s' fx => r = Throw /\ s' = s /\ fx = []) s)
  end.
  { destruct (wp_result _ _ _ G) as (r & s' & fx & E & -> & -> & ->).
    exact E. }
  induction ids as [|j r IH]; cbn [for_each].
  - destruct Hbad as (i & d & [] & _).
  - assert (Hj : 1 <= j <= 6) by (apply Hids; now left).
    destruct (well_formed_lookup s j W Hj) as [dj Hdj].
    pose proof (well_formed_get s j W Hj) as Hget.
    wp_steps; auto.
    eapply wp_mono; [|apply IH].
    + cbn beta. intros r0 s' fx (-> & -> & ->). auto.
    + intros i Hi. apply Hids. now right.
    + destruct Hbad as (i & d & [<- | Hin] & Hd & Hnan); [|eauto].
      rewrite Hdj in Hd. injection Hd as <-.
      rewrite (toFixed_not_a_number _ Hnan) in *. discriminate.
Qed.

(** The empty console line runs [printDeviceStatus]. *)
Lemma on_line_empty (now : Z) (s : State) :
  isServerClosing s = false -> on_line "" now s = printDeviceStatus s.
Proof.
  intros H. unfold on_line, bind, gets. rewrite H. cbn [String.eqb].
  now destruct (printDeviceStatus s) as [[r s2] fx].
Qed.

(** *** The console validates what it stores *)

Lemma volumes_validated_refl (s : State) : volumes_validated s s.
Proof. intros i d Hd. exists d. auto. Qed.

Lemma volumes_validated_trans (a b c : State) :
  volumes_validated a b -> volumes_validated b c -> volumes_validated a c.
Proof.
  intros H1 H2 i d Hd.
  destruct (H1 i d Hd) as (d1 & Hd1 & V1).
  destruct (H2 i d1 Hd1) as (d2 & Hd2 & V2).
  exists d2. split; [exact Hd2|].
  destruct V2 as [E | V2]; [rewrite E; exact V1 | now right].
Qed.

Lemma volumes_validated_update (s : State) (i : Z) (f : Device -> Device) :
  (forall d, vol (f d) = vol d \/
             (JsNum.le (Fin 0 0) (vol (f d)) = true /\
              JsNum.le (vol (f d)) (Fin 100 0) = true)) ->
  volumes_validated s (set_deviceMap (update (deviceMap s) i f) s).
Proof.
  intros H j d Hd. state_simpl. rewrite lookup_update, Hd.
  destruct (j =? i); cbn [option_map]; eauto.
Qed.

Lemma volumes_validated_same_table (s s' : State) :
  deviceMap s' = deviceMap s -> volumes_validated s s'.
Proof. intros E i d Hd. rewrite E. exists d. auto. Qed.

Ltac validated_side :=
  intros;
  solve
    [ apply volumes_validated_update; intros []; left; reflexivity
    | apply volumes_validated_update; intros []; right; cbn [vol set_vol];
      match goal with
      | E : _ && JsNum.ge ?x _ && JsNum.le ?x _ = true |- _ =>
          apply andb_true_iff in E; destruct E as [E ?];
          apply andb_true_iff in E; destruct E as [_ ?];
          split; assumption
      end
    | apply volumes_validated_same_table; state_simpl;
      try match goal with |- context [drain ?s] => destruct (drain s) end;
      reflexivity ].

Lemma on_line_validated (input : string) (now : Z) :
  respects volumes_validated (handler (Line input now)).
Proof.
  unfold_handlers.
  frame volumes_validated_refl volumes_validated_trans validated_side fail.
Qed.

Lemma on_uncaught_validated : respects volumes_validated on_uncaught.
Proof.
  unfold_handlers.
  frame volumes_validated_refl volumes_validated_trans validated_side fail.
Qed.

(** *** Handlers that leave the device table alone *)

Lemma same_table_refl (s : State) : same_table s s.
Proof. split; reflexivity. Qed.

Lemma same_table_trans (a b c : State) :
  same_table a b -> same_table b c -> same_table a c.
Proof. unfold same_table. intros [H1 H2] [H3 H4]. split; congruence. Qed.

Ltac same_table_side :=
  intros; unfold same_table; state_simpl;
  try match goal with |- context [drain ?s] => destruct (drain s) end;
  state_simpl; split; reflexivity.

Lemma handler_same_table (ev : event) :
  table_event ev = false -> respects same_table (handler ev).
Proof.
  intros H. destruct ev; try discriminate; unfold_handlers;
    frame same_table_refl same_table_trans same_table_side fail.
Qed.

Lemma on_uncaught_same_table : respects same_table on_uncaught.
Proof.
  unfold_handlers.
  frame same_table_refl same_table_trans same_table_side fail.
Qed.

(** *** Averages that stay numbers *)

Lemma averages_kept_refl (s : State) : averages_kept s s.
Proof. unfold averages_kept. auto. Qed.

Lemma averages_kept_trans (a b c : State) :
  averages_kept a b -> averages_kept b c -> averages_kept a c.
Proof. unfold averages_kept. auto. Qed.

Lemma averages_kept_same_table (s s' : State) :
  deviceMap s' = deviceMap s -> averages_kept s s'.
Proof. intros E H i d Hd. rewrite E in Hd. eauto. Qed.

Lemma averages_kept_update (s : State) (i : Z) (f : Device -> Device) :
  (forall d, (exists a, avg d = VNum a) -> exists a, avg (f d) = VNum a) ->
  averages_kept s (set_deviceMap (update (deviceMap s) i f) s).
Proof.
  intros H Hn j d Hd. state_simpl. rewrite lookup_update in Hd.
  destruct (j =? i); [|eauto].
  destruct (lookup (deviceMap s) j) as [d0|] eqn:E; cbn in Hd;
    [|discriminate].
  injection Hd as <-. eauto.
Qed.

Ltac averages_side known :=
  intros;
  solve
    [ apply averages_kept_same_table; state_simpl;
      try match goal with |- context [drain ?s] => destruct (drain s) end;
      reflexivity
    | apply averages_kept_update; intros [] ?; assumption
    | apply averages_kept_update; intros ? _; eexists; reflexivity
    | apply averages_kept_update; intros ? _; known ].

Ltac averages_frame known :=
  frame averages_kept_refl averages_kept_trans ltac:(averages_side known)
    ltac:(first
      [ apply (collect_stats_respects _ averages_kept_refl averages_kept_trans)
      | apply (sweep_loop_respects _ averages_kept_refl averages_kept_trans);
        averages_side known ]).

Lemma handler_averages_kept (ev : event) :
  numeric_avg ev = true -> respects averages_kept (handler ev).
Proof.
  intros Hnn.
  destruct ev as [c|message now|c|c|input now| |now| |err| | |].
  all: try (unfold_handlers; averages_frame fail; fail).
  unfold_handlers.
  averages_frame
    ltac:(idtac; match goal with
          | Hs : message = Some ?a,
            Ht : get_property ?a "type" = Some ?ty,
            Hv : is_string ?ty "volume" = true,
            Ha : get_property ?a "avg" = Some ?x |- _ =>
              rewrite Hs in Hnn; unfold numeric_avg in Hnn;
              rewrite Ht, Hv, Ha in Hnn;
              destruct x; try discriminate; eexists; reflexivity
          end).
Qed.

Lemma on_uncaught_averages_kept : respects averages_kept on_uncaught.
Proof. unfold_handlers. averages_frame fail. Qed.

Lemma initial_numeric_averages (clock : Z -> Z) :
  numeric_averages (initial clock).
Proof.
  intros i d. unfold initial, initial_deviceMap, device_ids. cbn.
  repeat match goal with
         | |- context [if ?b then _ else _] => destruct b
         end;
    intros [= <-]; eexists; reflexivity.
Qed.

Lemma run_averages_kept (evs : list event) :
  forall (s s' : State) (fx : list effect),
    forallb numeric_avg evs = true ->
    run evs s = (Running s', fx) -> averages_kept s s'.
Proof.
  induction evs as [|ev r IH]; intros s s' fx Hnn; cbn [run].
  - intros [= <- _]. apply averages_kept_refl.
  - cbn [forallb] in Hnn. apply andb_true_iff in Hnn. destruct Hnn as [H1 H2].
    destruct (step ev s) as [[s1|code] fx1] eqn:E1; [|discriminate].
    destruct (run r s1) as [p fx2] eqn:E2. intros [= -> _].
    eapply averages_kept_trans; [|eapply IH; eauto].
    apply (step_respects averages_kept averages_kept_trans ev s s1 fx1);
      [now apply handler_averages_kept | apply on_uncaught_averages_kept
      | exact E1].
Qed.

Lemma run_reachable (evs : list event) :
  forall (s s' : State) (fx : list effect),
    reachable s -> run evs s = (Running s', fx) -> reachable s'.
Proof.
  induction evs as [|ev r IH]; intros s s' fx Hs; cbn [run].
  - now intros [= <- _].
  - destruct (step ev s) as [[s1|code] fx1] eqn:E1; [|discriminate].
    destruct (run r s1) as [p fx2] eqn:E2. intros [= -> _].
    eapply IH; [|exact E2]. eapply reach_step; eauto.
Qed.

(** *** A running server stays up *)

(** The loops leave the state as it is (the sweep: but for the table),
    send nothing and do not exit. *)
Lemma collect_stats_pure (ids : list Z) (s : State) :
  wp (collect_stats ids)
     (fun r s' fx => s' = s /\ fx = [] /\ forall code, r <> Exit code) s.
Proof.
  eapply wp_mono;
    [| apply (collect_stats_keeps (fun s0 => s0 = s) (fun _ => False)
                no_status ids s eq_refl)].
  cbn beta. intros r s' fx (-> & F & Hx). repeat split.
  - destruct fx as [|e fx]; [reflexivity|]. inversion F as [|? ? []].
  - intros code ->. exact Hx.
Qed.

Lemma printDeviceStatus_pure (s : State) :
  wp printDeviceStatus
     (fun r s' fx => s' = s /\ fx = [] /\ forall code, r <> Exit code) s.
Proof.
  assert (K : keeps (fun s0 => s0 = s) (fun _ => False) no_status
                    printDeviceStatus)
    by (unfold printDeviceStatus; keeps_all idtac fail).
  eapply wp_mono; [| apply (K s eq_refl)].
  cbn beta. intros r s' fx (-> & F & Hx). repeat split.
  - destruct fx as [|e fx]; [reflexivity|]. inversion F as [|? ? []].
  - intros code ->. exact Hx.
Qed.

Lemma sweep_loop_pure (now : Z) (ids : list Z) (changed : bool) (s : State) :
  wp (sweep_loop now ids changed)
     (fun r s' fx =>
        (exists m, s' = set_deviceMap m s) /\ fx = [] /\
        forall code, r <> Exit code) s.
Proof.
  eapply wp_mono;
    [| apply (sweep_loop_keeps (fun s0 => exists m, s0 = set_deviceMap m s)
                (fun _ => False) no_status now ids changed)].
  - cbn beta. intros r s' fx (Hs & F & Hx). repeat split; [exact Hs | |].
    + destruct fx as [|e fx]; [reflexivity|]. inversion F as [|? ? []].
    + intros code ->. exact Hx.
  - intros s0 i b [m ->]. eexists. reflexivity.
  - exists (deviceMap s). now rewrite set_deviceMap_same.
Qed.

(** The coordinator, called while the server is running, sets the flag
    and does not exit, whether the label prints or not. *)
Lemma handleTerminateProcess_closes (label : jsval) (s : State) :
  isServerClosing s = false ->
  wp (handleTerminateProcess label)
     (fun r s' _ => isServerClosing s' = true /\ forall code, r <> Exit code) s.
Proof.
  intros Hc. unfold handleTerminateProcess.
  apply wp_bind, wp_gets. cbn [and_then]. rewrite Hc.
  apply wp_bind, wp_modify. cbn [and_then].
  match goal with
  | |- wp ?c _ _ =>
      assert (K : keeps (fun s => isServerClosing s = true) (fun _ => True)
                        no_status c)
        by (unfold drain_client, checkAllClientsClosed, closeWebSocketServer,
              closedClients_add, add_listeners, mark_closing;
            keeps_all ltac:(first [exact I | flag_side]) fail)
  end.
  eapply wp_mono; [| apply K; reflexivity].
  cbn beta. intros r s' fx (H & _ & Hx). split; [exact H|].
  intros code ->. exact Hx.
Qed.

Lemma closeServer_closes (s : State) :
  isServerClosing s = false ->
  wp closeServer (fun r s' _ => r = Ok tt /\ isServerClosing s' = true) s.
Proof.
  intros Hc.
  destruct (handleTerminateProcess_run (VStr "console") s Hc)
    as (s' & fx & E & Hclosing & _); [discriminate|].
  unfold wp, closeServer, bind, gets. rewrite Hc, E. auto.
Qed.

(** Symbolic execution through the loops and the shutdown entry. *)
Ltac wp_leaf :=
  lazymatch goal with
  | |- wp (collect_stats _) _ _ =>
      eapply wp_mono; [| apply collect_stats_pure];
      cbn beta; intros [?| |?] ? ? (-> & -> & Hx);
      [| | now destruct (Hx _ eq_refl)]; cbn [and_then]
  | |- wp printDeviceStatus _ _ =>
      eapply wp_mono; [| apply printDeviceStatus_pure];
      cbn beta; intros [?| |?] ? ? (-> & -> & Hx);
      [| | now destruct (Hx _ eq_refl)]; cbn [and_then]
  | |- wp (sweep_loop _ _ _) _ _ =>
      eapply wp_mono; [| apply sweep_loop_pure];
      cbn beta; intros [?| |?] ? ? ([? ->] & -> & Hx);
      [| | now destruct (Hx _ eq_refl)]; cbn [and_then]
  | |- wp (handleTerminateProcess _) _ _ =>
      eapply wp_mono;
      [| apply handleTerminateProcess_closes; state_simpl; assumption];
      cbn beta; intros [?| |?] ? ? (? & Hx);
      [| | now destruct (Hx _ eq_refl)]; cbn [and_then]
  | |- wp closeServer _ _ =>
      eapply wp_mono; [| apply closeServer_closes; state_simpl; assumption];
      cbn beta; intros ? ? ? (-> & ?); cbn [and_then]
  | |- wp (let _ := _ in _) _ _ => cbv zeta
  end; state_simpl.

Ltac wp_run := repeat first [wp_step | wp_leaf].

Ltac stays_up_done :=
  unfold stays_up;
  split; [intros; discriminate|];
  split;
  [ intros; first [discriminate | state_simpl; assumption | congruence]
  | intros;
    first
      [ congruence
      | split;
        [ unfold idle in *; state_simpl; auto
        | repeat (apply Forall_cons; [reflexivity|]); apply Forall_nil ] ] ].

Lemma idle_turn (ev : event) (s : State) :
  isServerClosing s = false -> idle s -> wp (handler ev) stays_up s.
Proof.
  intros Hc (Ht & Hl & Hd).
  destruct ev as [c|message now|c|c|input now| |now| |err| | |];
    unfold handler, on_connection, on_message, on_client_close,
      on_client_error, drain_listener, on_line, on_tick, on_sigint,
      on_rl_close, handleTerminateSignal, updateDevice, broadcast,
      broadcastStartMonitor;
    wp_run.
  all: try (rewrite Hl; cbn [repeat for_each]; wp_run).
  all: stays_up_done.
Qed.

(** A running server is idle. *)
Lemma reachable_idle (s : State) :
  reachable s -> isServerClosing s = false -> idle s.
Proof.
  induction 1 as [clock | s s' ev fx Hreach IH Hstep]; intros Hc'.
  - repeat split.
  - destruct (isServerClosing s) eqn:Hc.
    + pose proof (step_deadline_kept _ _ _ _ Hstep Hc) as [Habs _].
      congruence.
    + pose proof (idle_turn ev s Hc (IH eq_refl)) as T.
      unfold step in Hstep. unfold wp in T.
      destruct (handler ev s) as [[[[]| |code] s1] fx1];
        destruct T as (T1 & T2 & T3).
      * injection Hstep as <- <-. now apply T3.
      * pose proof (closeServer_closes s1 (T2 eq_refl)) as C.
        unfold on_uncaught, bind, gets in Hstep.
        rewrite (T2 eq_refl) in Hstep. unfold wp in C.
        destruct (closeServer s1) as [[r s2] fx2]. destruct C as [-> C].
        injection Hstep as <- <-. congruence.
      * discriminate.
Qed.

(** *** The shutdown, from the first close to the exit *)

Lemma run_app (a b : list event) (s : State) :
  run (a ++ b) s =
  match run a s with
  | (Running s1, fx) =>
      match run b s1 with
      | (p, fx') => (p, fx ++ fx')
      end
  | (Exited code, fx) => (Exited code, fx)
  end.
Proof.
  revert s. induction a as [|ev a IH]; intros s; cbn [run app].
  - now destruct (run b s) as [p fx].
  - destruct (step ev s) as [[s1|code] fx1]; [|reflexivity].
    rewrite IH. destruct (run a s1) as [[s2|code] fx2]; [|reflexivity].
    destruct (run b s2) as [p fx3]. now rewrite app_assoc.
Qed.

Lemma set_add_in (c x : nat) (l : list nat) :
  In x (set_add c l) <-> x = c \/ In x l.
Proof.
  unfold set_add. destruct (existsb (Nat.eqb c) l) eqn:E.
  - apply existsb_exists in E. destruct E as (y & Hy & E).
    apply Nat.eqb_eq in E. subst y. intuition (subst; auto).
  - rewrite in_app_iff. cbn. intuition.
Qed.

Lemma set_add_new (c : nat) (l : list nat) :
  ~ In c l -> set_add c l = l ++ [c].
Proof.
  intros H. unfold set_add. destruct (existsb (Nat.eqb c) l) eqn:E;
    [|reflexivity].
  apply existsb_exists in E. destruct E as (y & Hy & E).
  apply Nat.eqb_eq in E. now subst y.
Qed.

Lemma existsb_in (c : nat) (l : list nat) :
  In c l -> existsb (Nat.eqb c) l = true.
Proof.
  intros H. apply existsb_exists. exists c. split; [exact H|].
  apply Nat.eqb_refl.
Qed.

(** The loop over the captured clients, when all of them are open: each
    is asked to close, in order, and carries the listeners afterwards. *)
Lemma drain_loop_open (cs : list Client) :
  forall (s0 : State) (ids0 L0 : list nat),
    forallb is_open cs = true ->
    drain s0 = Some (mkDrain ids0 [] L0) ->
    exists s' L',
      for_each cs drain_client s0
      = (Ok tt, s', map CloseClient (map client_id cs)) /\
      drain s' = Some (mkDrain ids0 [] L') /\
      (forall c, In c L0 \/ In c (map client_id cs) -> In c L') /\
      isServerClosing s' = isServerClosing s0 /\
      wss_close_listeners s' = wss_close_listeners s0.
Proof.
  induction cs as [|c cs IH]; intros s0 ids0 L0 Hopen Hd; cbn [for_each].
  - exists s0, L0. repeat split; auto. intros c [H|[]]. exact H.
  - cbn [forallb] in Hopen. apply andb_true_iff in Hopen.
    destruct Hopen as [Hc Hcs].
    set (s1 := set_drain
                 (Some (mkDrain ids0 [] (set_add (client_id c) L0)))
                 (set_wss_clients
                    (map (fun x => if (client_id x =? client_id c)%nat
                                   then mkClient (client_id c) CLOSING else x)
                         (wss_clients s0)) s0)).
    assert (E1 : drain_client c s0 = (Ok tt, s1, [CloseClient (client_id c)])).
    { unfold drain_client, mark_closing, add_listeners, bind, emit, modify.
      rewrite Hc. state_simpl. rewrite Hd. reflexivity. }
    destruct (IH s1 ids0 (set_add (client_id c) L0) Hcs eq_refl)
      as (s' & L' & E2 & Hd' & HL' & Hc' & Hn').
    exists s', L'. unfold bind. rewrite E1, E2.
    repeat split; auto.
    intros x [Hx | [<- | Hx]]; apply HL'; auto;
      left; apply set_add_in; auto.
Qed.

(** Entering the draining state with every client open. *)
Lemma handleTerminateProcess_drains (label : jsval) (s : State) :
  isServerClosing s = false ->
  ToString label <> None ->
  wss_clients s <> [] ->
  forallb is_open (wss_clients s) = true ->
  exists s1 L,
    handleTerminateProcess label s
    = (Ok tt, s1, map CloseClient (map client_id (wss_clients s))) /\
    isServerClosing s1 = true /\
    wss_close_listeners s1 = wss_close_listeners s /\
    drain s1 = Some (mkDrain (map client_id (wss_clients s)) [] L) /\
    (forall c, In c (map client_id (wss_clients s)) -> In c L).
Proof.
  intros Hc Hlabel Hne Hopen.
  destruct (ToString label) as [str|] eqn:Hstr; [|now destruct Hlabel].
  set (s0 := set_drain (Some (mkDrain (map client_id (wss_clients s)) [] []))
               (set_closeTimeoutTimer None
                  (set_deviceCheckInterval false
                     (set_isServerClosing true s)))).
  destruct (drain_loop_open (wss_clients s) s0
              (map client_id (wss_clients s)) [] Hopen eq_refl)
    as (s' & L & E & Hd & HL & Hc' & Hn').
  exists (set_closeTimeoutTimer (Some CLOSE_TIMEOUT) s'), L.
  split.
  - unfold handleTerminateProcess, bind, gets, modify, lift, ret.
    rewrite Hc, Hstr. state_simpl.
    destruct (wss_clients s) as [|c cs] eqn:Hcs; [now destruct Hne|].
    fold s0. unfold bind in E. rewrite E. cbn [app].
    now rewrite app_nil_r.
  - state_simpl. repeat split; auto.
Qed.

(** The sockets acknowledge, one after the other: the last close makes
    the coordinator close the server. *)
Lemma drain_acknowledged (rest : list nat) :
  forall (done L : list nat) (s : State),
    rest <> [] ->
    NoDup (done ++ rest) ->
    (forall c, In c rest -> In c L) ->
    drain s = Some (mkDrain (done ++ rest) done L) ->
    exists s',
      run (map ClientClose rest) s = (Running s', [WssClose]) /\
      isServerClosing s' = isServerClosing s /\
      wss_close_listeners s' = S (wss_close_listeners s).
Proof.
  induction rest as [|c rest IH]; intros done L s Hne Hnd HL Hd;
    [now destruct Hne|].
  assert (Hc : ~ In c done).
  { intros Hin. apply NoDup_remove_2 in Hnd. apply Hnd.
    apply in_or_app. now left. }
  set (s1 := set_drain (Some (mkDrain (done ++ c :: rest) (done ++ [c]) L))
               (set_wss_clients
                  (filter (fun x => negb (client_id x =? c)%nat)
                          (wss_clients s)) s)).
  assert (Hlen : (List.length (done ++ [c])
                  =? List.length (done ++ c :: rest))%nat
                 = match rest with [] => true | _ => false end).
  { rewrite !length_app. cbn [List.length].
    destruct rest; [apply Nat.eqb_refl|].
    apply Nat.eqb_neq. cbn [List.length]. lia. }
  assert (E : step (ClientClose c) s =
              match rest with
              | [] => (Running
                         (set_wss_close_listeners (S (wss_close_listeners s)) s1),
                       [WssClose])
              | _ => (Running s1, [])
              end).
  { unfold step, handler, on_client_close, drain_listener, closedClients_add,
      checkAllClientsClosed, closeWebSocketServer, bind, modify, gets, emit,
      ret.
    state_simpl. rewrite Hd. cbn [listening closedClients clients].
    rewrite (existsb_in c L) by (apply HL; now left).
    state_simpl. rewrite Hd. cbn [listening closedClients clients].
    rewrite (set_add_new c done Hc). state_simpl.
    cbn [listening closedClients clients]. rewrite Hlen.
    destruct rest; reflexivity. }
  cbn [map run]. rewrite E.
  destruct rest as [|c' rest'].
  - cbn [map run]. eexists. split; [reflexivity|].
    unfold s1. state_simpl. auto.
  - destruct (IH (done ++ [c]) L s1) as (s' & E' & Hc' & Hn').
    + discriminate.
    + now rewrite <- app_assoc.
    + intros x Hx. apply HL. now right.
    + unfold s1. state_simpl. now rewrite <- app_assoc.
    + exists s'. rewrite E'. repeat split; auto.
Qed.

(** The notifications of the closed server, while the server is closing. *)
Lemma close_notifications_exit (s : State) (err : bool) (k : nat) :
  isServerClosing s = true ->
  wss_close_listeners s = S k ->
  run [WssCloseCallback err; WssCloseEvent] s = (Exited 0, []).
Proof.
  intros Hc Hl.
  cbn [run]. destruct err; [|destruct (rl_closed s) eqn:Hr].
  - assert (E : step (WssCloseCallback true) s = (Exited 0, [])).
    { unfold step, handler, forceExit, bind, gets, modify, process_exit.
      now rewrite Hl. }
    now rewrite E.
  - assert (E : step (WssCloseCallback false) s = (Exited 0, [])).
    { unfold step, handler, closeReadline, forceExit, bind, gets, modify,
        process_exit.
      now rewrite Hl, Hr. }
    now rewrite E.
  - assert (E1 : step (WssCloseCallback false) s
                 = (Running (set_rl_closed true s), [])).
    { unfold step, handler, closeReadline, on_rl_close, bind, gets, modify,
        ret.
      rewrite Hl, Hr. cbn [negb]. state_simpl. now rewrite Hc. }
    assert (E2 : step WssCloseEvent (set_rl_closed true s) = (Exited 0, [])).
    { unfold step, handler, bind, gets. state_simpl. rewrite Hl.
      cbn [repeat for_each].
      unfold bind, closeReadline, forceExit, bind, gets, modify, process_exit.
      state_simpl. reflexivity. }
    now rewrite E1, E2.
Qed.

(** *** Readings between the watermarks *)

Lemma bracketed_reading (d : Device) (x : num) (a : jsval) (now : Z) :
  bracketed d -> x <> NaN -> bracketed (reading x a now d).
Proof.
  intros [Hn _] Hx.
  destruct (reading_between_watermarks d x a now Hn Hx) as (H1 & H2 & H3).
  split; [exact H1 | right; auto].
Qed.

Lemma all_bracketed_initial (clock : Z -> Z) : all_bracketed (initial clock).
Proof.
  intros i d. unfold initial, initial_deviceMap, device_ids. cbn.
  repeat match goal with
         | |- context [if ?b then _ else _] => destruct b
         end;
    intros [= <-]; (split; [split; discriminate | left; repeat split]).
Qed.

Lemma all_bracketed_update (s : State) (i : Z) (f : Device -> Device) :
  all_bracketed s ->
  (forall d, lookup (deviceMap s) i = Some d -> bracketed d ->
             bracketed (f d)) ->
  all_bracketed (set_deviceMap (update (deviceMap s) i f) s).
Proof.
  intros HB Hf j d. state_simpl. rewrite lookup_update.
  destruct (j =? i) eqn:E; [|apply HB].
  apply Z.eqb_eq in E. subst j.
  destruct (lookup (deviceMap s) i) as [d0|] eqn:Hd0; cbn [option_map];
    [|discriminate].
  intros [= <-]. apply Hf; [reflexivity | now apply (HB i)].
Qed.

Lemma all_bracketed_same_table (s s' : State) :
  deviceMap s' = deviceMap s -> all_bracketed s -> all_bracketed s'.
Proof. intros E H i d. rewrite E. apply H. Qed.

(** A value that has one property has them all (as [undefined] if need
    be). *)
Lemma get_property_defined (data : jsval) (k k' : string) (v : jsval) :
  get_property data k = Some v -> get_property data k' <> None.
Proof.
  destruct data; cbn; try discriminate.
  intros _. now destruct (own_property k' fields).
Qed.

Lemma bracketed_frame (d d' : Device) :
  vol d' = vol d -> max d' = max d -> min d' = min d ->
  bracketed d -> bracketed d'.
Proof. unfold bracketed, numeric. intros -> -> ->. auto. Qed.

(** The sweep assigns [con] only. *)
Lemma tick_bracketed (now : Z) :
  keeps all_bracketed (fun _ => True) status_zero (handler (Tick now)).
Proof.
  unfold_handlers.
  keeps_all
    ltac:(intros;
          first [ exact I
                | apply all_bracketed_update;
                  [assumption | intros ? _; now apply bracketed_frame] ])
    ltac:(apply sweep_loop_keeps; intros;
          apply all_bracketed_update;
          [assumption | intros ? _; now apply bracketed_frame]).
Qed.

(** What the reads of the device returned, in terms of the device found
    by [Map.get]. *)
Ltac resolve_lookups :=
  repeat match goal with
         | H : lookup (update _ ?z _) ?z = _ |- _ =>
             rewrite !lookup_update, !Z.eqb_refl in H
         end;
  try match goal with
      | E : Map_get (deviceMap ?s) _ = Some ?z |- _ =>
          let dz := fresh "dz" in
          let Hdz := fresh "Hdz" in
          destruct (Map_get_lookup _ _ _ E) as [dz Hdz];
          rewrite ?Hdz in *; cbn [option_map] in *
      end;
  repeat match goal with
         | H : Some _ = Some _ |- _ => injection H as <-
         | H : Some _ = None |- _ => discriminate H
         end.

(** A turn that leaves the server running keeps every volume between its
    watermarks, if the reading it stores is a number. *)
Lemma bracket_turn (ev : event) (s : State) :
  isServerClosing s = false ->
  all_bracketed s ->
  numeric_reading ev = true ->
  wp (handler ev)
     (fun r s' _ => r = Ok tt -> isServerClosing s' = false -> all_bracketed s') s.
Proof.
  intros Hc HB Hnn.
  destruct (table_event ev) eqn:Hev.
  2:{ eapply wp_mono; [|apply (handler_same_table ev Hev)].
      cbn beta. intros r s' fx H -> _. cbn [unless_exit] in H.
      destruct H as [E _]. exact (all_bracketed_same_table _ _ E HB). }
  destruct ev as [c|message now|c|c|input now| |now| |err| | |];
    try discriminate.
  3:{ eapply wp_mono; [|apply (tick_bracketed now s HB)].
      cbn beta. intros r s' fx (H & _). auto. }
  all: unfold handler, on_message, on_line,
      handleTerminateSignal, updateDevice, broadcast,
      broadcastStartMonitor;
    wp_run.
  all: try (intros; discriminate).
  all: try (intros _ Hrun; congruence).
  all: try (intros _ _; exact HB).
  all: try (intros _ _; eapply all_bracketed_same_table; [|exact HB]; state_simpl;
            try match goal with |- context [drain ?s] => destruct (drain s) end;
            reflexivity).
  all: try (exfalso;
            match goal with
            | H : get_property ?j _ = Some _, H' : get_property ?j _ = None |- _ =>
                exact (get_property_defined _ _ _ _ H H')
            end).
  all: intros _ _; resolve_lookups.
  all: rewrite ?set_deviceMap_twice, ?update_update.
  all: apply all_bracketed_update; [exact HB|].
  all: match goal with
       | Hdz : lookup _ _ = Some ?dz |- _ =>
           intros d' Hd' Hb; rewrite Hdz in Hd'; injection Hd' as <-
       end.
  all: try (apply (bracketed_frame dz); [reflexivity .. | exact Hb]).
  all: match goal with
       | |- bracketed
              (set_lastUpdate ?t
                 (set_con true
                    (set_min (JsNum.Math_min _ ?x)
                       (set_max _ (set_avg ?a _))))) =>
           change (bracketed (reading x a t dz));
           apply bracketed_reading; [exact Hb|]
       end.
  all: match goal with
       | Ht : get_property ?j "type" = Some ?ty,
         Hv : is_string ?ty "volume" = true,
         Hvol : get_property ?j "vol" = Some ?v,
         Hp : parseFloat ?v = Some ?x |- ?x <> NaN =>
           unfold numeric_reading in Hnn; rewrite Ht, Hv, Hvol, Hp in Hnn;
           intros Hx; rewrite Hx in Hnn; discriminate
       | E : _ && negb (JsNum.isNaN ?x) && _ && _ = true |- ?x <> NaN =>
           apply andb_true_iff in E; destruct E as [E _];
           apply andb_true_iff in E; destruct E as [E _];
           apply andb_true_iff in E; destruct E as [_ E];
           intros Hx; rewrite Hx in E; cbn in E; discriminate
       end.
Qed.

Lemma step_bracketed (ev : event) (s s' : State) (fx : list effect) :
  all_bracketed s ->
  numeric_reading ev = true ->
  step ev s = (Running s', fx) ->
  isServerClosing s' = false ->
  all_bracketed s'.
Proof.
  intros HB Hnn Hstep Hc'.
  destruct (isServerClosing s) eqn:Hc.
  { pose proof (step_deadline_kept _ _ _ _ Hstep Hc) as [Habs _].
    congruence. }
  pose proof (bracket_turn ev s Hc HB Hnn) as T.
  unfold step in Hstep. unfold wp in T.
  destruct (handler ev s) as [[[[]| |code] s1] fx1].
  - injection Hstep as <- <-. now apply T.
  - exfalso. unfold on_uncaught, bind, gets in Hstep.
    destruct (isServerClosing s1) eqn:Hc1.
    + unfold forceExit, bind, modify, process_exit in Hstep. discriminate.
    + pose proof (closeServer_closes s1 Hc1) as C. unfold wp in C.
      destruct (closeServer s1) as [[r s2] fx2]. destruct C as [-> C].
      injection Hstep as <- <-. congruence.
  - discriminate.
Qed.

Lemma run_bracketed (evs : list event) :
  forall (s s' : State) (fx : list effect),
    all_bracketed s ->
    forallb numeric_reading evs = true ->
    run evs s = (Running s', fx) ->
    isServerClosing s' = false ->
    all_bracketed s'.
Proof.
  induction evs as [|ev r IH]; intros s s' fx HB Hnn; cbn [run].
  - now intros [= <- _].
  - cbn [forallb] in Hnn. apply andb_true_iff in Hnn. destruct Hnn as [H1 H2].
    destruct (step ev s) as [[s1|code] fx1] eqn:E1; [|discriminate].
    destruct (run r s1) as [p fx2] eqn:E2. intros [= -> _] Hc'.
    assert (Hc1 : isServerClosing s1 = false).
    { destruct (isServerClosing s1) eqn:Hc1; [|reflexivity].
      pose proof (run_deadline_kept _ _ _ _ E2 Hc1) as [Habs _]. congruence. }
    apply (IH s1 s' fx2); auto.
    exact (step_bracketed ev s s1 fx1 HB H1 E1 Hc1).
Qed.

(** *** The console's [set] command *)

(** A [set] command that passes the checks of the console. *)
Lemma console_set_run (s : State) (input p0 p1 p2 : string) (i now : Z)
      (x a : num) (d : Device) :
  well_formed s ->
  isServerClosing s = false ->
  prefix "set " input = true ->
  split_space input = [p0; p1; p2] ->
  parseInt_str p1 = Fin i 0 ->
  1 <= i <= 6 ->
  parseFloat_str p2 = x ->
  JsNum.le (Fin 0 0) x = true ->
  JsNum.le x (Fin 100 0) = true ->
  lookup (deviceMap s) i = Some d ->
  avg d = VNum a ->
  exists s',
    s' = set_deviceMap
           (update (deviceMap s) i
                   (reading x (VNum (JsNum.half (JsNum.add a x))) now)) s /\
    step (Line input now) s =
    (Running s', [Broadcast (Snapshot (map snd (deviceMap s'))) (open_clients s)]).
Proof.
  intros W Hc Hprefix Hsplit Hp1 Hi Hp2 Hlo Hhi Hd Ha.
  assert (Hne : String.eqb input "" = false).
  { destruct input; [discriminate Hprefix | reflexivity]. }
  assert (Hguard : JsNum.ge (parseInt_str p1) (Fin 1 0)
                   && JsNum.le (parseInt_str p1) (Fin 6 0)
                   && negb (JsNum.isNaN (parseFloat_str p2))
                   && JsNum.ge (parseFloat_str p2) (Fin 0 0)
                   && JsNum.le (parseFloat_str p2) (Fin 100 0) = true).
  { rewrite Hp1, Hp2. unfold JsNum.ge at 2. rewrite Hlo, Hhi.
    pose proof (proj2 (in_range_of_Z i) Hi) as R. unfold in_range in R.
    rewrite R. destruct (le_numbers _ _ Hlo) as [_ Hx].
    destruct x; try reflexivity. now destruct Hx. }
  assert (Hget : Map_get (deviceMap s) (VNum (parseInt_str p1)) = Some i)
    by (rewrite Hp1; now apply well_formed_get).
  eexists. split; [reflexivity|].
  enough (G : exists s' fx,
             step (Line input now) s = (Running s', fx) /\
             (s' = set_deviceMap
                     (update (deviceMap s) i
                        (reading x (VNum (JsNum.half (JsNum.add a x))) now)) s /\
              fx = [Broadcast (Snapshot (map snd (deviceMap s')))
                              (open_clients s)])).
  { destruct G as (s' & fx & E & -> & ->). exact E. }
  apply step_of_wp. unfold handler, on_line, broadcast.
  wp_steps.
  all: rewrite ?set_deviceMap_twice, ?update_update in *;
    rewrite ?(lookup_update_same _ _ _ _ Hd) in *; try discriminate.
  all: repeat match goal with
              | H : Some _ = Some _ |- _ => injection H as <-
              end.
  all: cbn [avg set_vol] in *; rewrite Ha in *;
    unfold add_num, div2 in *; cbn [ToPrimitive ToNumber option_map] in *;
    try discriminate.
  all: repeat match goal with
              | H : Some _ = Some _ |- _ => injection H as <-
              end.
  all: cbn [ToPrimitive ToNumber option_map] in *; try discriminate.
  all: repeat match goal with
              | H : Some _ = Some _ |- _ => injection H as <-
              end.
  subst x.
  assert (U : forall f g : Device -> Device,
             f d = g d -> update (deviceMap s) i f = update (deviceMap s) i g).
  { intros f g Hfg. apply update_ext. intros d0 Hd0.
    rewrite Hd in Hd0. now injection Hd0 as <-. }
  split; [reflexivity|]. split; [|reflexivity].
  f_equal. apply U. unfold reading. cbn [set_vol set_avg set_max set_min set_con
    set_lastUpdate deviceId vol avg max min con lastUpdate].
  now rewrite half_to_double, add_to_double_l.
Qed.

(** *** The bookkeeping of the shutdown *)

Lemma set_add_NoDup (c : nat) (l : list nat) : NoDup l -> NoDup (set_add c l).
Proof.
  intros H. unfold set_add. destruct (existsb (Nat.eqb c) l) eqn:E; [exact H|].
  apply NoDup_app; [exact H | repeat constructor; intros [] |].
  intros x Hx [<- | []]. rewrite (existsb_in _ _ Hx) in E. discriminate.
Qed.

(** A captured socket is counted, and the server closed if all are. *)
Lemma count_closed_accounted (c : nat) (s : State) (d : Drain) :
  drain_accounted s ->
  drain s = Some d ->
  In c (clients d) ->
  wp (closedClients_add c ;; checkAllClientsClosed)
     (fun r s' _ =>
        r = Ok tt /\ drain_accounted s' /\
        exists d', drain s' = Some d' /\ clients d' = clients d) s.
Proof.
  intros K Hd Hc. unfold drain_accounted in K. rewrite Hd in K.
  destruct K as (K1 & K2 & K3 & K4).
  assert (N : NoDup (set_add c (closedClients d))) by now apply set_add_NoDup.
  assert (I : incl (set_add c (closedClients d)) (clients d)).
  { intros x Hx. apply set_add_in in Hx. destruct Hx as [-> | Hx]; auto. }
  assert (G : incl (closedClients d) (set_add c (closedClients d))).
  { intros x Hx. apply set_add_in. now right. }
  unfold closedClients_add, checkAllClientsClosed, closeWebSocketServer.
  apply wp_bind, wp_modify. cbn [and_then]. rewrite Hd.
  apply wp_bind, wp_gets. cbn [and_then]. state_simpl.
  cbn [clients closedClients listening].
  destruct (List.length (set_add c (closedClients d))
            =? List.length (clients d))%nat eqn:E.
  - apply Nat.eqb_eq in E.
    wp_steps. split; [reflexivity|]. split; [|eexists; split; reflexivity].
    unfold drain_accounted. state_simpl. cbn [clients closedClients listening].
    repeat split; auto. intros _.
    apply NoDup_length_incl; auto. rewrite E. apply Nat.le_refl.
  - wp_steps. split; [reflexivity|]. split; [|eexists; split; reflexivity].
    unfold drain_accounted. state_simpl. cbn [clients closedClients listening].
    repeat split; auto. intros Hn x Hx. apply G. now apply K4.
Qed.

(** The loop over the captured clients keeps the books. *)
Lemma drain_loop_accounted (cs : list Client) :
  forall (s0 : State) (d : Drain),
    drain_accounted s0 ->
    drain s0 = Some d ->
    (forall x, In x cs -> In (client_id x) (clients d)) ->
    wp (for_each cs drain_client)
       (fun r s' _ => r = Ok tt /\ drain_accounted s') s0.
Proof.
  induction cs as [|x cs IH]; intros s0 d K Hd Hin; cbn [for_each].
  - apply wp_ret. auto.
  - apply wp_bind.
    enough (B : wp (drain_client x)
                   (fun r s' _ =>
                      r = Ok tt /\ drain_accounted s' /\
                      exists d', drain s' = Some d' /\ clients d' = clients d)
                   s0).
    { eapply wp_mono; [|exact B]. cbn beta.
      intros r s1 fx1 (-> & K1 & d1 & Hd1 & Hc1). cbn [and_then].
      eapply wp_mono; [|apply (IH s1 d1 K1 Hd1)].
      - cbn beta. auto.
      - intros y Hy. rewrite Hc1. apply Hin. now right. }
    unfold drain_client. destruct (is_open x).
    + unfold mark_closing, add_listeners. wp_steps.
      unfold drain_accounted in *. rewrite Hd in *. state_simpl.
      split; [reflexivity|]. split; [|eexists; split; reflexivity].
      cbn [clients closedClients listening].
      destruct K as (K1 & K2 & K3 & K4). repeat split; auto.
      intros y Hy. apply set_add_in in Hy. destruct Hy as [-> | Hy]; auto.
      apply Hin. now left.
    + apply (count_closed_accounted (client_id x) s0 d K Hd).
      apply Hin. now left.
Qed.

(** Entering the draining state keeps the books. *)
Lemma handleTerminateProcess_accounts (label : jsval) (s : State) :
  isServerClosing s = false ->
  idle s ->
  wp (handleTerminateProcess label) (fun _ s' _ => drain_accounted s') s.
Proof.
  intros Hc (Ht & Hl & Hd).
  unfold handleTerminateProcess, closeWebSocketServer.
  wp_steps.
  - unfold drain_accounted. state_simpl.
    cbn [clients closedClients listening map].
    repeat split; auto using NoDup_nil, incl_refl.
  - eapply wp_mono;
      [| apply (drain_loop_accounted _ _
                  (mkDrain (map client_id (c :: l)) [] []))].
    + cbn beta. intros r s' fx [-> K]. cbn [and_then]. wp_steps.
      unfold drain_accounted in *. state_simpl. exact K.
    + unfold drain_accounted. state_simpl.
      cbn [clients closedClients listening].
      repeat split; auto using NoDup_nil, incl_nil_l. rewrite Hl. lia.
    + reflexivity.
    + intros x Hx. cbn [clients]. now apply in_map.
  - unfold drain_accounted. state_simpl. now rewrite Hd.
Qed.

Lemma closeServer_accounts (s : State) :
  isServerClosing s = false ->
  idle s ->
  wp closeServer (fun _ s' _ => drain_accounted s') s.
Proof.
  intros Hc Hi. unfold closeServer. apply wp_bind, wp_gets. cbn [and_then].
  rewrite Hc.
  eapply wp_mono; [|apply (handleTerminateProcess_accounts _ s Hc Hi)].
  cbn beta. auto.
Qed.

Ltac wp_leaf_accounts :=
  lazymatch goal with
  | |- wp (handleTerminateProcess _) _ _ =>
      eapply wp_mono;
      [| apply wp_conj;
         [ apply handleTerminateProcess_closes; state_simpl; assumption
         | apply handleTerminateProcess_accounts;
           [ state_simpl; assumption
           | unfold idle in *; state_simpl; auto ] ] ];
      cbn beta; intros [?| |?] ? ? ((? & Hx) & ?);
      [| | now destruct (Hx _ eq_refl)]; cbn [and_then]
  | |- wp closeServer _ _ =>
      eapply wp_mono;
      [| apply wp_conj;
         [ apply closeServer_closes; state_simpl; assumption
         | apply closeServer_accounts;
           [ state_simpl; assumption
           | unfold idle in *; state_simpl; auto ] ] ];
      cbn beta; intros ? ? ? ((-> & ?) & ?); cbn [and_then]
  end; state_simpl.

(** A turn that starts while the server is running keeps the books. *)
Lemma accounted_turn (ev : event) (s : State) :
  isServerClosing s = false -> idle s ->
  wp (handler ev) (fun _ s' _ => drain_accounted s') s.
Proof.
  intros Hc Hi. pose proof Hi as (Ht & Hl & Hd).
  destruct ev as [c|message now|c|c|input now| |now| |err| | |];
    unfold handler, on_connection, on_message, on_client_close,
      on_client_error, drain_listener, on_line, on_tick, on_sigint,
      on_rl_close, handleTerminateSignal, updateDevice, broadcast,
      broadcastStartMonitor;
    repeat first [wp_step | wp_leaf_accounts | wp_leaf].
  all: try (rewrite Hl; cbn [repeat for_each]; wp_run).
  all: try assumption.
  all: unfold drain_accounted; state_simpl; rewrite Hd; exact Hl.
Qed.

(** A socket that closes or fails while the sockets are drained. *)
Lemma socket_end_accounted (c : nat) (s : State) :
  drain_accounted s ->
  wp (drain_listener c) (fun r s' _ => r = Ok tt /\ drain_accounted s') s.
Proof.
  intros K. unfold drain_listener. apply wp_bind, wp_gets. cbn [and_then].
  destruct (drain s) as [d|] eqn:Hd; [|apply wp_ret; auto].
  destruct (existsb (Nat.eqb c) (listening d)) eqn:E; [|apply wp_ret; auto].
  eapply wp_mono; [|apply (count_closed_accounted c s d K Hd)].
  - cbn beta. intros r s' fx (-> & K' & _). auto.
  - apply existsb_exists in E. destruct E as (y & Hy & E).
    apply Nat.eqb_eq in E. subst y.
    unfold drain_accounted in K. rewrite Hd in K.
    destruct K as (_ & _ & K3 & _). now apply K3.
Qed.

(** While the server is closing, only the end of a socket touches the
    books. *)
Lemma closing_turn_keeps_books (ev : event) (d : option Drain) (n : nat) :
  match ev with
  | ClientClose _ | ClientError _ => True
  | _ =>
      keeps (fun s => isServerClosing s = true /\ drain s = d /\
                      wss_close_listeners s = n)
            (fun _ => True) status_zero (handler ev)
  end.
Proof.
  destruct ev; try exact I; unfold_handlers;
    keeps_all
      ltac:(first [ exact I | exact eq_refl
                  | intros ? (? & ? & ?); state_simpl; auto ])
      ltac:(apply keeps_guard; intros ? (? & _); assumption).
Qed.

Lemma step_accounted (ev : event) (s s' : State) (fx : list effect) :
  (isServerClosing s = false -> idle s) ->
  drain_accounted s ->
  step ev s = (Running s', fx) ->
  drain_accounted s'.
Proof.
  intros Hidle K Hstep.
  destruct (isServerClosing s) eqn:Hc.
  - pose proof (closing_turn_keeps_books ev (drain s) (wss_close_listeners s))
      as B.
    destruct ev as [c|message now|c|c|input now| |now| |err| | |].
    3:{ unfold step, handler, on_client_close, bind, modify in Hstep.
        pose proof (socket_end_accounted c
                      (set_wss_clients
                         (filter (fun x => negb (client_id x =? c)%nat)
                                 (wss_clients s)) s)) as S.
        unfold wp in S.
        destruct (drain_listener c _) as [[r2 s2] fx2].
        destruct S as [-> S].
        { unfold drain_accounted in *. state_simpl. exact K. }
        injection Hstep as <- _. exact S. }
    3:{ unfold step, handler, on_client_error in Hstep.
        pose proof (socket_end_accounted c s K) as S. unfold wp in S.
        destruct (drain_listener c s) as [[r2 s2] fx2].
        destruct S as [-> S]. injection Hstep as <- _. exact S. }
    all: specialize (B s (conj Hc (conj eq_refl eq_refl)));
      unfold step in Hstep; unfold wp in B;
      match type of Hstep with
      | context [handler ?e ?s0] =>
          destruct (handler e s0) as [[[[]| |code] s1] fx1]
      end;
      destruct B as ((B1 & B2 & B3) & _);
      [ injection Hstep as <- <-; unfold drain_accounted in *;
        rewrite B2, B3; exact K
      | exfalso;
        unfold on_uncaught, bind, gets, forceExit, modify, process_exit
          in Hstep;
        rewrite B1 in Hstep; discriminate
      | discriminate ].
  - pose proof (accounted_turn ev s Hc (Hidle eq_refl)) as A.
    pose proof (idle_turn ev s Hc (Hidle eq_refl)) as T.
    unfold step in Hstep. unfold wp in A, T.
    destruct (handler ev s) as [[[[]| |code] s1] fx1];
      destruct T as (T1 & T2 & T3).
    + injection Hstep as <- <-. exact A.
    + pose proof (closeServer_accounts s1 (T2 eq_refl)
                    (proj1 (T3 (T2 eq_refl)))) as C.
      unfold on_uncaught, bind, gets in Hstep.
      rewrite (T2 eq_refl) in Hstep. unfold wp in C.
      destruct (closeServer s1) as [[[[]| |code] s2] fx2];
        try discriminate.
      injection Hstep as <- <-. exact C.
    + discriminate.
Qed.

Lemma reachable_accounted (s : State) : reachable s -> drain_accounted s.
Proof.
  induction 1 as [clock | s s' ev fx Hreach IH Hstep].
  - reflexivity.
  - exact (step_accounted ev s s' fx (reachable_idle s Hreach) IH Hstep).
Qed.

End ServerFacts.

(* ===================================================================== *)
(** ** The properties of the specification *)
(* ===================================================================== *)

Module Properties.

Import JsVal JsStr Server Spec JsNumFacts TableFacts Hoare HoareFacts ServerFacts.
Local Open Scope string_scope.
Local Open Scope list_scope.
Local Open Scope Z_scope.

(** *** The scenarios of the specification, run on the model *)

(** A login of device 3, a sweep 10 s later, a sweep 10.1 s later: the
    pushes show device 3 online, and then offline. *)
Example scenario_login_then_silence :
  exists s fx,
    run [Connection 1;
         message_of [("type", VStr "login"); ("device", VNum (Fin 3 0))] 100;
         Tick 10099;
         Tick 10200]
        (initial (fun _ => 0)) = (Running s, fx) /\
    map snapshot_flags fx
    = [[false; false; false; false; false; false];
       [false; false; true; false; false; false];
       [false; false; false; false; false; false]].
Proof. eexists. eexists. split; vm_compute; reflexivity. Qed.

(** Two readings of device 2, 55 and then 80. *)
Example scenario_two_readings :
  exists s fx,
    run [message_of [("type", VStr "volume"); ("deviceId", VNum (Fin 2 0));
                     ("vol", VNum (Fin 55 0)); ("avg", VNum (Fin 55 0))] 0;
         message_of [("type", VStr "volume"); ("deviceId", VNum (Fin 2 0));
                     ("vol", VNum (Fin 80 0)); ("avg", VNum (Fin 675 (-1)))] 1]
        (initial (fun _ => 0)) = (Running s, fx) /\
    lookup (deviceMap s) 2
    = Some (mkDevice 2 (Fin 80 0) (VNum (Fin 675 (-1))) (Fin 80 0) (Fin 55 0)
                     true 1).
Proof. eexists. eexists. split; vm_compute; reflexivity. Qed.

(** Device 1 starts the monitoring; device 4 does not. *)
Example scenario_start_monitor :
  let s := set_wss_clients [mkClient 1 OPEN] (initial (fun _ => 0)) in
  step (message_of [("type", VStr "start_monitor");
                    ("deviceId", VNum (Fin 1 0))] 0) s
  = (Running s, [Broadcast StartMonitor [1%nat]]) /\
  step (message_of [("type", VStr "start_monitor");
                    ("deviceId", VNum (Fin 4 0))] 0) s
  = (Running s, []).
Proof. split; vm_compute; reflexivity. Qed.

(** Two clients, a [terminate_process], one close acknowledged, the other
    never: the deadline ends the process with status 0. *)
Example scenario_shutdown_with_silent_client :
  run [Connection 1; Connection 2;
       message_of [("type", VStr "terminate_process");
                   ("deviceId", VNum (Fin 2 0))] 0;
       ClientClose 1;
       CloseTimeout]
      (initial (fun _ => 0))
  = (Exited 0,
     [Broadcast (Snapshot (map snd (initial_deviceMap (fun _ => 0)))) [1%nat];
      Broadcast (Snapshot (map snd (initial_deviceMap (fun _ => 0))))
                [1%nat; 2%nat];
      CloseClient 1; CloseClient 2]).
Proof. vm_compute. reflexivity. Qed.

(** The console's [set] command: (0 + 50) / 2, then (25 + 30.5) / 2. *)
Example scenario_console_set :
  exists s fx,
    run [Line "set 2 50" 7; Line "set 2 30.5" 8; Line "set 9 1" 9;
         Line "set 2 101" 10]
        (initial (fun _ => 0)) = (Running s, fx) /\
    lookup (deviceMap s) 2
    = Some (mkDevice 2 (Fin 305 (-1)) (VNum (Fin 2775 (-2))) (Fin 50 0)
                     (Fin 305 (-1)) true 8).
Proof. eexists. eexists. split; vm_compute; reflexivity. Qed.

(** *** Liveness sweep *)

(** C2.  At every scheduled tick of the sweep, each device goes from
    online to offline exactly when [now - lastUpdate >= DEVICE_TIMEOUT]; the
    sweep never brings an offline device online; and a device last updated
    less than [DEVICE_TIMEOUT] ago stays online.  The last two hold of
    every tick; the first is said of the ticks at which the sweep runs: the
    callback returns at once while [isServerClosing] is set, and the
    shutdown path clears the interval. *)
Theorem sweep_demotes_exactly_on_timeout
        (s : State) (now i : Z) (d : Device) :
  reachable s ->
  lookup (deviceMap s) i = Some d ->
  exists s' fx d',
    step (Tick now) s = (Running s', fx) /\
    lookup (deviceMap s') i = Some d' /\
    lastUpdate d' = lastUpdate d /\
    (con d = false -> con d' = false) /\
    (con d = true -> now < lastUpdate d + DEVICE_TIMEOUT -> con d' = true) /\
    (deviceCheckInterval s = true -> isServerClosing s = false ->
     ((con d = true /\ con d' = false) <->
      (con d = true /\ now - lastUpdate d >= DEVICE_TIMEOUT))).
Proof.
  intros Hreach Hd.
  pose proof (reachable_well_formed s Hreach) as W.
  destruct (deviceCheckInterval s && negb (isServerClosing s)) eqn:Hruns.
  - apply andb_true_iff in Hruns. destruct Hruns as [Hsched Hclosing].
    apply negb_true_iff in Hclosing.
    destruct (tick_run now s W Hsched Hclosing) as [fx E].
    pose proof (well_formed_keys s i d W Hd) as Hi.
    exists (set_deviceMap (sweep_table now device_ids (deviceMap s)) s), fx,
           (demote now d).
    split; [exact E|]. split.
    + state_simpl. rewrite lookup_sweep_table, Hd.
      assert (M : existsb (Z.eqb i) device_ids = true).
      { apply existsb_exists. exists i. split; [|apply Z.eqb_refl].
        unfold device_ids. cbn. lia. }
      now rewrite M.
    + unfold demote. destruct d as [id v a hi lo c t]; cbn.
      destruct c; cbn.
      * destruct (Z.ltb_spec (now - t) DEVICE_TIMEOUT);
          repeat split; intros; try lia; intuition (try congruence; try lia).
      * repeat split; intros; intuition congruence.
  - exists s, [], d. split; [now apply tick_skipped|].
    do 4 (split; [auto|]).
    intros Hsched Hclosing. rewrite Hsched, Hclosing in Hruns. discriminate.
Qed.

(** A device that logged in at time 100 is swept at time 10100. *)
Lemma sweep_demotes_exactly_on_timeout_witness :
  exists s' fx d',
    step (Tick 10100)
         (set_deviceMap
            (update (initial_deviceMap (fun _ => 0)) 3
                    (fun d => set_lastUpdate 100 (set_con true d)))
            (initial (fun _ => 0))) = (Running s', fx) /\
    lookup (deviceMap s') 3 = Some d' /\
    con d' = false.
Proof.
  pose (login := Message (Some (VObj [("type", VStr "login");
                                      ("device", VNum (Fin 3 0))])) 100).
  assert (R : reachable
                (set_deviceMap
                   (update (initial_deviceMap (fun _ => 0)) 3
                           (fun d => set_lastUpdate 100 (set_con true d)))
                   (initial (fun _ => 0)))).
  { apply (reach_step (initial (fun _ => 0)) _ login
                      [Broadcast (Snapshot
                         (map snd (update (initial_deviceMap (fun _ => 0)) 3
                            (fun d => set_lastUpdate 100 (set_con true d)))))
                         []]).
    - apply reach_initial.
    - vm_compute. reflexivity. }
  destruct (sweep_demotes_exactly_on_timeout _ 10100 3
              (mkDevice 3 (Fin 0 0) (VNum (Fin 0 0)) (Fin 0 0) (Fin 100 0)
                        true 100)
              R eq_refl)
    as (s' & fx & d' & E & L & _ & _ & _ & Hiff).
  exists s', fx, d'. repeat split; try assumption.
  apply (Hiff eq_refl eq_refl).
  split; [reflexivity | vm_compute; discriminate].
Defined.

(** *** Shutdown *)




(** A slip beside the design: a [terminate_process] whose [deviceId] is an
    object with an own [toString] property makes the log line of
    [handleTerminateProcess] throw just after the flag is set.  The catch of
    the message handler swallows the error, and the server is left closing
    with the sweep still scheduled, no deadline and every client connected;
    a later interrupt signal finds the flag set and does nothing. *)
Remark unprintable_initiator_stalls_shutdown :
  exists s',
    step (Message (Some (VObj [("type", VStr "terminate_process");
                               ("deviceId", VObj [("toString", VNum (Fin 1 0))])]))
                  0)
         (set_wss_clients [mkClient 1 OPEN] (initial (fun _ => 0)))
    = (Running s', [ConsoleError]) /\
    isServerClosing s' = true /\
    deviceCheckInterval s' = true /\
    closeTimeoutTimer s' = None /\
    wss_clients s' = [mkClient 1 OPEN] /\
    step Sigint s' = (Running s', []).
Proof.
  eexists. split; [vm_compute; reflexivity|]. vm_compute. auto 10.
Qed.

(** *** Unhandled faults *)

(** C8.  When an exception leaves a handler (or is raised outside of them),
    the process-level listener runs on the state left behind: if
    [isServerClosing] is set the process exits at once with status 0;
    otherwise the Shutdown Coordinator is invoked and draining begins. *)
Theorem unhandled_fault_shuts_down_or_exits
        (ev : event) (s s1 : State) (fx1 : list effect) :
  handler ev s = (Throw, s1, fx1) ->
  (isServerClosing s1 = true -> step ev s = (Exited 0, fx1)) /\
  (isServerClosing s1 = false ->
   exists s' fx,
     handleTerminateProcess (VStr "console") s1 = (Ok tt, s', fx) /\
     step ev s = (Running s', fx1 ++ fx) /\
     isServerClosing s' = true /\
     deviceCheckInterval s' = false).
Proof.
  intros H. unfold step. rewrite H.
  unfold on_uncaught, closeServer, forceExit, bind, gets, modify, process_exit.
  split; intros Hc; rewrite Hc.
  - cbn. now rewrite app_nil_r.
  - destruct (handleTerminateProcess_run (VStr "console") s1 Hc)
      as (s' & fx & E & Hclosing & Hsweep & _); [discriminate|].
    exists s', fx. rewrite Hc, E. cbn [app]. auto.
Qed.

(** A fault raised outside the handlers, before and after shutdown began. *)
Lemma unhandled_fault_shuts_down_or_exits_witness :
  (exists s' fx,
     step Fault (initial (fun _ => 0)) = (Running s', fx) /\
     isServerClosing s' = true) /\
  step Fault (set_isServerClosing true (initial (fun _ => 0))) = (Exited 0, []).
Proof.
  split.
  - destruct (unhandled_fault_shuts_down_or_exits
                Fault (initial (fun _ => 0)) (initial (fun _ => 0)) []
                eq_refl) as [_ H].
    destruct (H eq_refl) as (s' & fx & _ & E & Hc & _).
    exists s', fx. split; [exact E | exact Hc].
  - destruct (unhandled_fault_shuts_down_or_exits
                Fault (set_isServerClosing true (initial (fun _ => 0)))
                (set_isServerClosing true (initial (fun _ => 0))) []
                eq_refl) as [H _].
    exact (H eq_refl).
Defined.

(** *** Inbound messages *)

(** C3, as amended.  A login or logout message whose id, as read by
    [parseInt], is not a number within 1..6, and a volume message whose
    [deviceId] is not one of the numbers 1..6, changes nothing and triggers
    no broadcast. *)
Theorem unaddressed_message_changes_nothing
        (s : State) (data : jsval) (now : Z) :
  reachable s ->
  addresses_no_device data ->
  exists fx,
    step (Message (Some data) now) s = (Running s, fx) /\
    forall p r, ~ In (Broadcast p r) fx.
Proof.
  intros Hreach Hno.
  pose proof (reachable_well_formed s Hreach) as W.
  enough (G : exists s' fx,
             step (Message (Some data) now) s = (Running s', fx) /\
             (s' = s /\ (fx = [] \/ fx = [ConsoleError]))).
  { destruct G as (s' & fx & E & -> & Hfx). exists fx. split; [exact E|].
    intros p r Hin. destruct Hfx as [-> | ->]; cbn in Hin;
      intuition discriminate. }
  apply step_of_wp. unfold handler.
  destruct Hno as [d v Hty Hv Hout | d v Hty Hv Hout | d k Hty Hk Hout].
  - unfold on_message. wp_steps; auto;
      match goal with
      | E : in_range ?n = true |- _ =>
          rewrite (Hout n eq_refl) in E; discriminate
      end.
  - unfold on_message. wp_steps; auto;
      match goal with
      | E : in_range ?n = true |- _ =>
          rewrite (Hout n eq_refl) in E; discriminate
      end.
  - unfold on_message. wp_steps; auto.
    eapply wp_mono; [|apply updateDevice_no_device].
    + cbn beta. intros r s' fx ([-> | ->] & -> & ->); cbn [and_then];
        wp_steps; auto.
    + intros k' Hk'. rewrite Hk in Hk'. injection Hk' as <-.
      now apply Map_get_no_key.
Qed.

(** A login with the text [abc] and a volume reading for device 7. *)
Lemma unaddressed_message_changes_nothing_witness :
  step (Message (Some (VObj [("type", VStr "login"); ("device", VStr "abc")])) 0)
       (initial (fun _ => 0)) = (Running (initial (fun _ => 0)), []) /\
  step (Message (Some (VObj [("type", VStr "volume");
                             ("deviceId", VNum (Fin 7 0));
                             ("vol", VNum (Fin 9 0))])) 0)
       (initial (fun _ => 0)) = (Running (initial (fun _ => 0)), []).
Proof.
  split.
  - destruct (unaddressed_message_changes_nothing
                (initial (fun _ => 0))
                (VObj [("type", VStr "login"); ("device", VStr "abc")]) 0
                (reach_initial _)) as (fx & E & _).
    + apply (no_device_login _ (VStr "abc")); try reflexivity.
      intros x [= <-]. reflexivity.
    + rewrite E. vm_compute in E. now injection E as <-.
  - destruct (unaddressed_message_changes_nothing
                (initial (fun _ => 0))
                (VObj [("type", VStr "volume"); ("deviceId", VNum (Fin 7 0));
                       ("vol", VNum (Fin 9 0))]) 0
                (reach_initial _)) as (fx & E & _).
    + apply (no_device_volume _ (VNum (Fin 7 0))); try reflexivity.
      intros i Hi. rewrite same_key_of_Z by reflexivity. apply Z.eqb_neq. lia.
    + rewrite E. vm_compute in E. now injection E as <-.
Defined.

(** C3 as stated fails: the id 6.5 lies outside 1..6, yet a login carrying
    it brings device 6 online and broadcasts the table, because [parseInt]
    reads 6.5 as 6. *)
Lemma login_six_and_a_half_reaches_device_six :
  JsNum.le (Fin 65 (-1)) (Fin 6 0) = false /\
  exists s' d snapshot,
    step (Message (Some (VObj [("type", VStr "login");
                               ("device", VNum (Fin 65 (-1)))])) 100)
         (initial (fun _ => 0))
    = (Running s', [Broadcast (Snapshot snapshot) []]) /\
    lookup (deviceMap (initial (fun _ => 0))) 6
    = Some (mkDevice 6 (Fin 0 0) (VNum (Fin 0 0)) (Fin 0 0) (Fin 100 0) false 0) /\
    lookup (deviceMap s') 6 = Some d /\
    con d = true /\ lastUpdate d = 100.
Proof.
  split; [reflexivity|].
  eexists. eexists. eexists.
  split; [vm_compute; reflexivity|].
  vm_compute. auto.
Qed.

(** C5, as amended.  A [start_monitor] message triggers the [start_monitor]
    broadcast exactly when [parseInt] of its [deviceId] is 1 and neither
    shutdown nor termination has begun; otherwise it triggers no broadcast.
    The server state is left as it was in either case. *)
Theorem start_monitor_iff_admin (s : State) (data v : jsval) (now : Z) :
  get_property data "type" = Some (VStr "start_monitor") ->
  get_property data "deviceId" = Some v ->
  exists fx,
    step (Message (Some data) now) s = (Running s, fx) /\
    ((is_admin v /\ isServerClosing s = false /\ isTerminated s = false) ->
     fx = [Broadcast StartMonitor (open_clients s)]) /\
    (~ (is_admin v /\ isServerClosing s = false /\ isTerminated s = false) ->
     forall p r, ~ In (Broadcast p r) fx).
Proof.
  intros Hty Hid. eexists.
  split; [apply (start_monitor_run s data v now Hty Hid)|].
  unfold is_admin. split.
  - intros ((x & -> & ->) & -> & ->). reflexivity.
  - intros Hn p r Hin.
    destruct (isServerClosing s); [destruct Hin|].
    destruct (parseInt v) as [x|]; [|destruct Hin as [[=]|[]]].
    destruct (JsNum.eq x (Fin 1 0)) eqn:Ex; [|destruct Hin].
    destruct (isTerminated s); [destruct Hin|].
    apply Hn. eauto.
Qed.

(** Device 1 starts the monitoring of one connected client. *)
Lemma start_monitor_iff_admin_witness :
  step (Message (Some (VObj [("type", VStr "start_monitor");
                             ("deviceId", VNum (Fin 1 0))])) 0)
       (set_wss_clients [mkClient 1 OPEN] (initial (fun _ => 0)))
  = (Running (set_wss_clients [mkClient 1 OPEN] (initial (fun _ => 0))),
     [Broadcast StartMonitor [1%nat]]).
Proof.
  destruct (start_monitor_iff_admin
              (set_wss_clients [mkClient 1 OPEN] (initial (fun _ => 0)))
              (VObj [("type", VStr "start_monitor");
                     ("deviceId", VNum (Fin 1 0))])
              (VNum (Fin 1 0)) 0 eq_refl eq_refl) as (fx & E & Hyes & _).
  rewrite E. f_equal. apply Hyes.
  repeat split. exists (Fin 1 0). split; reflexivity.
Defined.

(** C5 as stated fails: the [deviceId] 1.5 is not 1, yet the broadcast goes
    out, because [parseInt] reads 1.5 as 1. *)
Lemma start_monitor_accepts_one_and_a_half :
  JsNum.eq (Fin 15 (-1)) (Fin 1 0) = false /\
  step (Message (Some (VObj [("type", VStr "start_monitor");
                             ("deviceId", VNum (Fin 15 (-1)))])) 0)
       (set_wss_clients [mkClient 1 OPEN] (initial (fun _ => 0)))
  = (Running (set_wss_clients [mkClient 1 OPEN] (initial (fun _ => 0))),
     [Broadcast StartMonitor [1%nat]]).
Proof. split; vm_compute; reflexivity. Qed.

(** C9.  A volume message whose [deviceId] passes the range guard of
    [updateDevice] without being one of the numbers 1..6 finds no device;
    the TypeError this raises is caught by the message handler, whose only
    trace is the error line on the console: no device changes, nothing is
    broadcast, and the process keeps running. *)
Theorem uncoerced_volume_id_is_caught
        (s : State) (data k : jsval) (now : Z) :
  reachable s ->
  isServerClosing s = false ->
  get_property data "type" = Some (VStr "volume") ->
  get_property data "deviceId" = Some k ->
  ToBoolean k = true ->
  lt_num k (Fin 1 0) = Some false ->
  gt_num k (Fin 6 0) = Some false ->
  (forall i, 1 <= i <= 6 -> same_key k i = false) ->
  Map_get (deviceMap s) k = None /\
  updateDevice data now s = (Throw, s, []) /\
  step (Message (Some data) now) s = (Running s, [ConsoleError]) /\
  escapes (Message (Some data) now) s = false.
Proof.
  intros Hreach Hrun Hty Hk Htrue Hlt Hgt Hkey.
  pose proof (reachable_well_formed s Hreach) as W.
  pose proof (Map_get_no_key s k W Hkey) as Hget.
  assert (U : updateDevice data now s = (Throw, s, [])).
  { enough (G : wp (updateDevice data now)
                   (fun r s' fx => r = Throw /\ s' = s /\ fx = []) s).
    { destruct (wp_result _ _ _ G) as (r & s' & fx & E & -> & -> & ->).
      exact E. }
    unfold updateDevice. wp_steps; auto; rewrite Htrue in *; discriminate. }
  repeat split; auto.
  - unfold step, handler, on_message, try_catch, bind, lift, ret, gets, emit.
    rewrite Hty. state_simpl. rewrite Hrun, U. reflexivity.
  - unfold escapes, handler, on_message, try_catch, bind, lift, ret, gets, emit.
    rewrite Hty. state_simpl. rewrite Hrun, U. reflexivity.
Qed.

(** The string ["3"], the number 2.5, and a string that the comparisons
    of the guard read as the double 6, as [deviceId]. *)
Lemma uncoerced_volume_id_is_caught_witness :
  step (Message (Some (VObj [("type", VStr "volume"); ("deviceId", VStr "3");
                             ("vol", VNum (Fin 55 0));
                             ("avg", VNum (Fin 55 0))])) 0)
       (initial (fun _ => 0))
  = (Running (initial (fun _ => 0)), [ConsoleError]) /\
  step (Message (Some (VObj [("type", VStr "volume");
                             ("deviceId", VNum (Fin 25 (-1)));
                             ("vol", VNum (Fin 55 0));
                             ("avg", VNum (Fin 55 0))])) 0)
       (initial (fun _ => 0))
  = (Running (initial (fun _ => 0)), [ConsoleError]) /\
  step (Message (Some (VObj [("type", VStr "volume");
                             ("deviceId", VStr "6.0000000000000001");
                             ("vol", VNum (Fin 55 0));
                             ("avg", VNum (Fin 55 0))])) 0)
       (initial (fun _ => 0))
  = (Running (initial (fun _ => 0)), [ConsoleError]).
Proof.
  split; [|split].
  - apply (uncoerced_volume_id_is_caught
             (initial (fun _ => 0)) _ (VStr "3") 0 (reach_initial _));
      try reflexivity.
  - apply (uncoerced_volume_id_is_caught
             (initial (fun _ => 0)) _ (VNum (Fin 25 (-1))) 0 (reach_initial _));
      try reflexivity.
    intros i Hi. unfold same_key, JsNum.eq. cbn [JsNum.compare].
    assert (C : i = 1 \/ i = 2 \/ i = 3 \/ i = 4 \/ i = 5 \/ i = 6) by lia.
    destruct C as [->|[->|[->|[->|[->| ->]]]]]; reflexivity.
  - apply (uncoerced_volume_id_is_caught
             (initial (fun _ => 0)) _ (VStr "6.0000000000000001") 0
             (reach_initial _));
      vm_compute; reflexivity.
Defined.

(** *** The Termination Reporter *)




(** C4 at a failing input.  A volume message that carries no [avg] field
    leaves [undefined] in the device; the first [terminate] then sets
    [isTerminated] and throws before anything is sent, and the second is a
    no-op: no [end_statistics] is ever broadcast. *)
Theorem end_statistics_lost_on_nonnumeric_avg :
  exists s fx,
    run [Connection 1;
         Message (Some (VObj [("type", VStr "volume");
                              ("deviceId", VNum (Fin 1 0));
                              ("vol", VNum (Fin 5 0))])) 0;
         Message (Some (VObj [("type", VStr "terminate")])) 1;
         Message (Some (VObj [("type", VStr "terminate")])) 2]
        (initial (fun _ => 0))
    = (Running s, fx) /\
    existsb is_end_statistics fx = false /\
    isTerminated s = true /\
    option_map avg (lookup (deviceMap s) 1) = Some VUndef.
Proof.
  eexists. eexists. split; [vm_compute; reflexivity|].
  vm_compute. auto.
Qed.

(** *** Watermarks *)

(** C6 at a failing input.  A volume message whose [vol] does not parse
    stores NaN in [vol], [max] and [min]; the watermarks stay NaN under every
    later reading, so [min <= vol <= max] fails from then on. *)
Theorem nan_reading_breaks_watermark_invariant :
  exists s fx d,
    run [Message (Some (VObj [("type", VStr "volume");
                              ("deviceId", VNum (Fin 2 0));
                              ("vol", VStr "abc");
                              ("avg", VNum (Fin 0 0))])) 0;
         Message (Some (VObj [("type", VStr "volume");
                              ("deviceId", VNum (Fin 2 0));
                              ("vol", VNum (Fin 50 0));
                              ("avg", VNum (Fin 50 0))])) 1]
        (initial (fun _ => 0))
    = (Running s, fx) /\
    lookup (deviceMap s) 2 = Some d /\
    vol d = Fin 50 0 /\ max d = NaN /\ min d = NaN /\
    JsNum.le (min d) (vol d) = false /\
    JsNum.le (vol d) (max d) = false.
Proof.
  eexists. eexists. eexists. split; [vm_compute; reflexivity|].
  split; [vm_compute; reflexivity|]. vm_compute. auto 10.
Qed.

(** C7.  In a run from start-up whose readings are all non-negative, no
    device's [max] ever decreases and no device's [min] ever increases:
    between any two points of the run, [max] has grown or stayed and [min]
    has shrunk or stayed. *)
Theorem watermarks_are_monotone
        (clock : Z -> Z) (before after : list event) (s1 s2 : State)
        (fx1 fx2 : list effect) (i : Z) (d1 : Device) :
  forallb nonneg_reading (before ++ after) = true ->
  run before (initial clock) = (Running s1, fx1) ->
  run after s1 = (Running s2, fx2) ->
  lookup (deviceMap s1) i = Some d1 ->
  exists d2,
    lookup (deviceMap s2) i = Some d2 /\
    JsNum.le (max d1) (max d2) = true /\
    JsNum.le (min d2) (min d1) = true.
Proof.
  intros Hnn Hbefore Hafter Hd1.
  rewrite forallb_app in Hnn. apply andb_true_iff in Hnn.
  destruct Hnn as [Hnn1 Hnn2].
  assert (N1 : numeric d1).
  { pose proof (run_same_keys _ _ _ _ Hbefore) as K.
    assert (I : In i (map fst (deviceMap (initial clock)))).
    { rewrite <- K. apply lookup_keys. eauto. }
    apply lookup_keys in I. destruct I as [d0 Hd0].
    destruct (run_watermarks_grow _ _ _ _ Hnn1 Hbefore i d0 Hd0
                (initial_numeric clock i d0 Hd0)) as (d & Hd & Hn & _).
    rewrite Hd1 in Hd. now injection Hd as <-. }
  destruct (run_watermarks_grow _ _ _ _ Hnn2 Hafter i d1 Hd1 N1)
    as (d2 & Hd2 & _ & Hmax & Hmin).
  exists d2. auto.
Qed.

(** Two readings of device 2: 55, then 80. *)
Lemma watermarks_are_monotone_witness :
  exists s2 fx2 d2,
    run [Message (Some (VObj [("type", VStr "volume");
                              ("deviceId", VNum (Fin 2 0));
                              ("vol", VNum (Fin 55 0));
                              ("avg", VNum (Fin 55 0))])) 0;
         Message (Some (VObj [("type", VStr "volume");
                              ("deviceId", VNum (Fin 2 0));
                              ("vol", VNum (Fin 80 0));
                              ("avg", VNum (Fin 675 (-1)))])) 1]
        (initial (fun _ => 0)) = (Running s2, fx2) /\
    lookup (deviceMap s2) 2 = Some d2 /\
    JsNum.le (Fin 0 0) (max d2) = true /\
    JsNum.le (min d2) (Fin 100 0) = true.
Proof.
  pose (evs := [Message (Some (VObj [("type", VStr "volume");
                                     ("deviceId", VNum (Fin 2 0));
                                     ("vol", VNum (Fin 55 0));
                                     ("avg", VNum (Fin 55 0))])) 0;
                Message (Some (VObj [("type", VStr "volume");
                                     ("deviceId", VNum (Fin 2 0));
                                     ("vol", VNum (Fin 80 0));
                                     ("avg", VNum (Fin 675 (-1)))])) 1]).
  fold evs.
  destruct (run evs (initial (fun _ => 0))) as [[s2|code] fx2] eqn:E;
    [|vm_compute in E; discriminate].
  assert (Hnn : forallb nonneg_reading ([] ++ evs) = true)
    by (vm_compute; reflexivity).
  destruct (watermarks_are_monotone
              (fun _ => 0) [] evs (initial (fun _ => 0)) s2 [] fx2 2
              (mkDevice 2 (Fin 0 0) (VNum (Fin 0 0)) (Fin 0 0) (Fin 100 0)
                        false 0)
              Hnn eq_refl E eq_refl) as (d2 & Hd2 & Hmax & Hmin).
  exists s2, fx2, d2. auto.
Defined.

End Properties.

(* ===================================================================== *)
(** ** Further properties of the program *)
(* ===================================================================== *)

Module Behaviour.

Import JsVal JsStr Server Spec JsNumFacts TableFacts Hoare HoareFacts ServerFacts.
Local Open Scope string_scope.
Local Open Scope list_scope.
Local Open Scope Z_scope.

(** *** The exit of the process *)

(** X1.  Whatever the events and whatever state they find, the process
    only ever exits with status 0: every exit goes through [forceExit],
    and the listener for uncaught exceptions never throws itself, so that
    no exception ends the process with an error status. *)
Theorem every_exit_has_status_zero
        (evs : list event) (s : State) (code : Z) (fx : list effect) :
  run evs s = (Exited code, fx) -> code = 0.
Proof.
  intros E.
  exact (proj2 (run_keeps (fun _ => True) (fun _ => True) evs
                  handler_exits_cleanly on_uncaught_exits_cleanly
                  s _ _ I E)).
Qed.

(** A fault while the server is closing after a fault. *)
Lemma every_exit_has_status_zero_witness :
  match run [Connection 1; Fault; Fault] (initial (fun _ => 0)) with
  | (Exited code, _) => code = 0
  | (Running _, _) => False
  end.
Proof.
  destruct (run [Connection 1; Fault; Fault] (initial (fun _ => 0)))
    as [[s'|code] fx] eqn:E; [vm_compute in E; discriminate|].
  exact (every_exit_has_status_zero _ _ _ _ E).
Defined.

(** *** What the flags rule out *)

(** X2.  Once [isServerClosing] is set it is never cleared, and from then
    on no event makes the server push anything to a client: no snapshot,
    no [start_monitor], no [end_statistics]. *)
Theorem closing_server_pushes_nothing
        (evs : list event) (s : State) (p : process) (fx : list effect) :
  isServerClosing s = true ->
  run evs s = (p, fx) ->
  (forall msg recipients, ~ In (Broadcast msg recipients) fx) /\
  (forall s', p = Running s' -> isServerClosing s' = true).
Proof.
  intros Hc E.
  destruct (run_keeps (fun s => isServerClosing s = true)
              (fun e => is_push e = false) evs
              handler_closing_silent on_uncaught_closing_silent
              s p fx Hc E) as [F H].
  split.
  - intros msg recipients Hin.
    rewrite Forall_forall in F. specialize (F _ Hin). discriminate.
  - intros s' ->. exact H.
Qed.

(** After a [terminate_process]: a login, a reading, the monitoring
    messages and a console command push nothing. *)
Lemma closing_server_pushes_nothing_witness :
  exists s1 fx1 s2 fx2,
    run [Connection 1;
         message_of [("type", VStr "terminate_process")] 0]
        (initial (fun _ => 0)) = (Running s1, fx1) /\
    run [message_of [("type", VStr "login"); ("device", VNum (Fin 2 0))] 1;
         message_of [("type", VStr "volume"); ("deviceId", VNum (Fin 2 0));
                     ("vol", VNum (Fin 9 0)); ("avg", VNum (Fin 9 0))] 2;
         message_of [("type", VStr "start_monitor");
                     ("deviceId", VNum (Fin 1 0))] 3;
         message_of [("type", VStr "terminate")] 4;
         Connection 2;
         Line "set 2 50" 5]
        s1 = (Running s2, fx2) /\
    (forall msg recipients, ~ In (Broadcast msg recipients) fx2) /\
    isServerClosing s2 = true.
Proof.
  destruct (run [Connection 1;
                 message_of [("type", VStr "terminate_process")] 0]
                (initial (fun _ => 0))) as [[s1|code] fx1] eqn:E1;
    [|vm_compute in E1; discriminate].
  assert (Hc : isServerClosing s1 = true)
    by (vm_compute in E1; injection E1 as <- _; reflexivity).
  destruct (run [message_of [("type", VStr "login");
                             ("device", VNum (Fin 2 0))] 1;
                 message_of [("type", VStr "volume");
                             ("deviceId", VNum (Fin 2 0));
                             ("vol", VNum (Fin 9 0));
                             ("avg", VNum (Fin 9 0))] 2;
                 message_of [("type", VStr "start_monitor");
                             ("deviceId", VNum (Fin 1 0))] 3;
                 message_of [("type", VStr "terminate")] 4;
                 Connection 2;
                 Line "set 2 50" 5] s1) as [[s2|code] fx2] eqn:E2.
  - destruct (closing_server_pushes_nothing _ _ _ _ Hc E2) as [Hno Hstay].
    exists s1, fx1, s2, fx2. repeat split; auto.
  - exfalso. vm_compute in E1. injection E1 as <- _.
    vm_compute in E2. discriminate.
Defined.

(** X3.  Once [isTerminated] is set it is never cleared, and from then on
    the server pushes neither a [start_monitor] nor an [end_statistics]
    event: the statistics are sent at most once, and a monitoring that was
    terminated is not started again. *)
Theorem terminated_monitoring_stays_silent
        (evs : list event) (s : State) (p : process) (fx : list effect) :
  isTerminated s = true ->
  run evs s = (p, fx) ->
  (forall recipients, ~ In (Broadcast StartMonitor recipients) fx) /\
  (forall data recipients, ~ In (Broadcast (EndStatistics data) recipients) fx) /\
  (forall s', p = Running s' -> isTerminated s' = true).
Proof.
  intros Ht E.
  destruct (run_keeps (fun s => isTerminated s = true)
              (fun e => is_monitoring_push e = false) evs
              handler_terminated_silent on_uncaught_terminated_silent
              s p fx Ht E) as [F H].
  rewrite Forall_forall in F.
  split; [|split].
  - intros recipients Hin. specialize (F _ Hin). discriminate.
  - intros data recipients Hin. specialize (F _ Hin). discriminate.
  - intros s' ->. exact H.
Qed.

(** After a first [terminate]: a second one and the admin's
    [start_monitor] push nothing. *)
Lemma terminated_monitoring_stays_silent_witness :
  exists s1 fx1 s2 fx2,
    run [Connection 1; message_of [("type", VStr "terminate")] 0]
        (initial (fun _ => 0)) = (Running s1, fx1) /\
    run [message_of [("type", VStr "terminate")] 1;
         message_of [("type", VStr "start_monitor");
                     ("deviceId", VNum (Fin 1 0))] 2]
        s1 = (Running s2, fx2) /\
    (forall recipients, ~ In (Broadcast StartMonitor recipients) fx2) /\
    (forall data recipients,
        ~ In (Broadcast (EndStatistics data) recipients) fx2) /\
    isTerminated s2 = true.
Proof.
  destruct (run [Connection 1; message_of [("type", VStr "terminate")] 0]
                (initial (fun _ => 0))) as [[s1|code] fx1] eqn:E1;
    [|vm_compute in E1; discriminate].
  assert (Ht : isTerminated s1 = true)
    by (vm_compute in E1; injection E1 as <- _; reflexivity).
  destruct (run [message_of [("type", VStr "terminate")] 1;
                 message_of [("type", VStr "start_monitor");
                             ("deviceId", VNum (Fin 1 0))] 2] s1)
    as [[s2|code] fx2] eqn:E2.
  - destruct (terminated_monitoring_stays_silent _ _ _ _ Ht E2)
      as (H1 & H2 & H3).
    exists s1, fx1, s2, fx2. repeat split; auto.
  - exfalso. vm_compute in E1. injection E1 as <- _.
    vm_compute in E2. discriminate.
Defined.

(** *** The snapshots *)

(** X4.  In every run from start-up, each snapshot pushed to the clients
    lists the six devices, in the order of their ids 1..6: no handler adds
    or removes a device or changes a [deviceId]. *)
Theorem snapshots_list_the_six_devices
        (clock : Z -> Z) (evs : list event) (p : process) (fx : list effect)
        (devices : list Device) (recipients : list nat) :
  run evs (initial clock) = (p, fx) ->
  In (Broadcast (Snapshot devices) recipients) fx ->
  map deviceId devices = [1; 2; 3; 4; 5; 6].
Proof.
  intros E Hin.
  destruct (run_keeps ids_in_place lists_six_devices evs
              handler_ids_in_place on_uncaught_ids_in_place
              _ p fx (ids_in_place_initial clock) E) as [F _].
  rewrite Forall_forall in F. exact (F _ Hin).
Qed.

(** The snapshot pushed on the login of device 3. *)
Lemma snapshots_list_the_six_devices_witness :
  exists devices,
    In (Broadcast (Snapshot devices) [1%nat])
       (snd (run [Connection 1;
                  message_of [("type", VStr "login");
                              ("device", VNum (Fin 3 0))] 100]
                 (initial (fun _ => 0)))) /\
    map con devices = [false; false; true; false; false; false] /\
    map deviceId devices = [1; 2; 3; 4; 5; 6].
Proof.
  destruct (run [Connection 1;
                 message_of [("type", VStr "login");
                             ("device", VNum (Fin 3 0))] 100]
                (initial (fun _ => 0))) as [p fx] eqn:E.
  assert (Hin : In (Broadcast
                      (Snapshot
                         (map snd
                            (update (initial_deviceMap (fun _ => 0)) 3
                               (fun d => set_lastUpdate 100 (set_con true d)))))
                      [1%nat]) fx).
  { vm_compute in E. injection E as _ <-. right. left. reflexivity. }
  eexists. split; [exact Hin|]. split; [reflexivity|].
  exact (snapshots_list_the_six_devices _ _ _ _ _ _ E Hin).
Defined.

(** X5.  While [isServerClosing] is set, a message, a console line, a
    tick of the sweep and the interrupt signal are all ignored: the state
    is left as it is, and nothing happens but, for a message that cannot
    be read, the error line of the catch clause. *)
Theorem closing_server_ignores_input (ev : event) (s : State) :
  isServerClosing s = true ->
  is_input ev = true ->
  exists fx,
    step ev s = (Running s, fx) /\ (fx = [] \/ fx = [ConsoleError]).
Proof.
  intros Hc Hin.
  enough (G : exists s' fx,
             step ev s = (Running s', fx) /\
             (s' = s /\ (fx = [] \/ fx = [ConsoleError]))).
  { destruct G as (s' & fx & E & -> & H). eauto. }
  apply step_of_wp.
  destruct ev; try discriminate;
    unfold handler, on_message, on_line, on_tick, on_sigint, closeServer,
      handleTerminateProcess;
    wp_steps; auto.
Qed.

(** A second [terminate_process] and the console's [exit] while closing. *)
Lemma closing_server_ignores_input_witness :
  step (message_of [("type", VStr "terminate_process")] 0)
       (set_isServerClosing true (initial (fun _ => 0)))
  = (Running (set_isServerClosing true (initial (fun _ => 0))), []) /\
  step (Line "exit" 0) (set_isServerClosing true (initial (fun _ => 0)))
  = (Running (set_isServerClosing true (initial (fun _ => 0))), []).
Proof.
  split.
  - destruct (closing_server_ignores_input
                (message_of [("type", VStr "terminate_process")] 0)
                (set_isServerClosing true (initial (fun _ => 0)))
                eq_refl eq_refl) as (fx & E & _).
    rewrite E. vm_compute in E. now injection E as <-.
  - destruct (closing_server_ignores_input
                (Line "exit" 0)
                (set_isServerClosing true (initial (fun _ => 0)))
                eq_refl eq_refl) as (fx & E & _).
    rewrite E. vm_compute in E. now injection E as <-.
Defined.

(** *** The liveness sweep and the console *)

(** X6.  A tick of the sweep pushes one snapshot, of the table as the
    sweep left it, exactly when at least one device timed out; otherwise
    it pushes nothing and changes nothing.  Once the sweep has run, no
    device is timed out at that instant, so that a second sweep at the
    same instant would be silent. *)
Theorem sweep_pushes_exactly_on_a_timeout (s : State) (now : Z) :
  reachable s ->
  deviceCheckInterval s = true ->
  isServerClosing s = false ->
  exists s',
    step (Tick now) s =
      (Running s',
       if existsb (timed_out now (deviceMap s)) device_ids
       then [Broadcast (Snapshot (map snd (deviceMap s'))) (open_clients s)]
       else []) /\
    (existsb (timed_out now (deviceMap s)) device_ids = false -> s' = s) /\
    existsb (timed_out now (deviceMap s')) device_ids = false.
Proof.
  intros Hreach Hsched Hclosing.
  pose proof (reachable_well_formed s Hreach) as W.
  exists (set_deviceMap (sweep_table now device_ids (deviceMap s)) s).
  split; [exact (tick_outcome now s W Hsched Hclosing)|]. split.
  - intros H. rewrite (sweep_table_fixed _ _ _ H).
    apply set_deviceMap_same.
  - state_simpl.
    destruct (existsb _ device_ids) eqn:E; [|reflexivity].
    apply existsb_exists in E. destruct E as (j & Hj & Habs).
    now rewrite (sweep_table_settled now device_ids (deviceMap s) j Hj) in Habs.
Qed.

(** Device 3, last updated at 100 and swept at 10100, is pushed offline. *)
Lemma sweep_pushes_exactly_on_a_timeout_witness :
  exists s' devices,
    step (Tick 10100)
         (set_deviceMap
            (update (initial_deviceMap (fun _ => 0)) 3
                    (fun d => set_lastUpdate 100 (set_con true d)))
            (initial (fun _ => 0)))
    = (Running s', [Broadcast (Snapshot devices) []]) /\
    map con devices = [false; false; false; false; false; false].
Proof.
  assert (R : reachable
                (set_deviceMap
                   (update (initial_deviceMap (fun _ => 0)) 3
                           (fun d => set_lastUpdate 100 (set_con true d)))
                   (initial (fun _ => 0)))).
  { apply (reach_step (initial (fun _ => 0)) _
             (message_of [("type", VStr "login");
                          ("device", VNum (Fin 3 0))] 100)
             [Broadcast
                (Snapshot
                   (map snd
                      (update (initial_deviceMap (fun _ => 0)) 3
                              (fun d => set_lastUpdate 100 (set_con true d)))))
                []]).
    - apply reach_initial.
    - vm_compute. reflexivity. }
  destruct (sweep_pushes_exactly_on_a_timeout _ 10100 R eq_refl eq_refl)
    as (s' & E & _ & _).
  exists s'. eexists. split; [exact E|].
  vm_compute in E. injection E as <-. reflexivity.
Defined.

(** X7.  The status display of the console (the empty line) formats the
    average of every device with [toFixed].  While every stored average is
    a number the command changes nothing; as soon as one is not (a volume
    message stores whatever [avg] the client sent), the command throws
    out of the console listener with the table untouched, and the listener
    for uncaught exceptions begins the shutdown. *)
Theorem status_display_needs_numeric_averages (s : State) (now : Z) :
  reachable s ->
  isServerClosing s = false ->
  (numeric_averages s -> step (Line "" now) s = (Running s, [])) /\
  ((exists i d, lookup (deviceMap s) i = Some d /\ not_a_number (avg d)) ->
   handler (Line "" now) s = (Throw, s, []) /\
   exists s' fx,
     step (Line "" now) s = (Running s', fx) /\
     isServerClosing s' = true /\
     deviceMap s' = deviceMap s).
Proof.
  intros Hreach Hc.
  pose proof (reachable_well_formed s Hreach) as W.
  assert (Hids : forall i, In i device_ids -> 1 <= i <= 6)
    by (unfold device_ids; cbn; lia).
  split.
  - intros Hnum. unfold step, handler.
    rewrite (on_line_empty now s Hc). unfold printDeviceStatus.
    now rewrite (print_loop_numeric s device_ids W Hids Hnum).
  - intros (i & d & Hd & Hnan).
    assert (T : handler (Line "" now) s = (Throw, s, [])).
    { unfold handler. rewrite (on_line_empty now s Hc).
      unfold printDeviceStatus.
      apply (print_loop_throws s device_ids W Hids).
      exists i, d. repeat split; auto.
      pose proof (well_formed_keys s i d W Hd). unfold device_ids. cbn. lia. }
    split; [exact T|].
    destruct (handleTerminateProcess_run (VStr "console") s Hc)
      as (s' & fx & E & Hclosing & _ & _ & (Htable & _) & _); [discriminate|].
    exists s', fx. unfold step. rewrite T.
    unfold on_uncaught, closeServer, bind, gets. rewrite Hc, Hc, E.
    auto.
Qed.

(** A reading without [avg], then the empty line on the console. *)
Lemma status_display_needs_numeric_averages_witness :
  step (Line "" 5) (initial (fun _ => 0)) = (Running (initial (fun _ => 0)), []) /\
  exists s1 fx1 s2 fx2,
    step (message_of [("type", VStr "volume"); ("deviceId", VNum (Fin 1 0));
                      ("vol", VNum (Fin 5 0))] 1)
         (initial (fun _ => 0)) = (Running s1, fx1) /\
    step (Line "" 5) s1 = (Running s2, fx2) /\
    isServerClosing s2 = true.
Proof.
  split.
  - apply (status_display_needs_numeric_averages
             (initial (fun _ => 0)) 5 (reach_initial _) eq_refl).
    intros i d Hd.
    unfold initial, initial_deviceMap, device_ids in Hd. cbn in Hd.
    repeat match type of Hd with
           | (if ?b then _ else _) = _ => destruct b
           end;
      try discriminate; injection Hd as <-; eexists; reflexivity.
  - destruct (step (message_of [("type", VStr "volume");
                                ("deviceId", VNum (Fin 1 0));
                                ("vol", VNum (Fin 5 0))] 1)
                   (initial (fun _ => 0))) as [[s1|code] fx1] eqn:E1;
      [|vm_compute in E1; discriminate].
    assert (R1 : reachable s1) by (eapply reach_step; [apply reach_initial | exact E1]).
    assert (Hs1 : isServerClosing s1 = false /\
                  lookup (deviceMap s1) 1
                  = Some (mkDevice 1 (Fin 5 0) VUndef (Fin 5 0) (Fin 5 0) true 1)).
    { vm_compute in E1. injection E1 as <- _. split; reflexivity. }
    destruct Hs1 as [Hc1 Hd1].
    destruct (status_display_needs_numeric_averages s1 5 R1 Hc1) as [_ H].
    destruct H as (_ & s2 & fx2 & E2 & Hc2 & _).
    { exists 1, (mkDevice 1 (Fin 5 0) VUndef (Fin 5 0) (Fin 5 0) true 1).
      split; [exact Hd1 | intros x; discriminate]. }
    exists s1, fx1, s2, fx2. auto.
Defined.

(** X8.  Whatever is typed on the console, the volume of every device is
    afterwards what it was, or a value within 0..100: the [set] command
    stores a volume only after checking its range. *)
Theorem console_stores_validated_volumes
        (input : string) (now : Z) (s s' : State) (fx : list effect)
        (i : Z) (d : Device) :
  step (Line input now) s = (Running s', fx) ->
  lookup (deviceMap s) i = Some d ->
  exists d',
    lookup (deviceMap s') i = Some d' /\
    (vol d' = vol d \/
     (JsNum.le (Fin 0 0) (vol d') = true /\
      JsNum.le (vol d') (Fin 100 0) = true)).
Proof.
  intros E Hd.
  exact (step_respects volumes_validated volumes_validated_trans
           (Line input now) s s' fx
           (on_line_validated input now) on_uncaught_validated E i d Hd).
Qed.

(** A volume of 101 is refused, a volume of 100 is stored. *)
Lemma console_stores_validated_volumes_witness :
  exists s1 fx1 d1 s2 fx2 d2,
    step (Line "set 2 101" 7) (initial (fun _ => 0)) = (Running s1, fx1) /\
    lookup (deviceMap s1) 2 = Some d1 /\ vol d1 = Fin 0 0 /\
    step (Line "set 2 100" 8) s1 = (Running s2, fx2) /\
    lookup (deviceMap s2) 2 = Some d2 /\ vol d2 = Fin 100 0.
Proof.
  destruct (step (Line "set 2 101" 7) (initial (fun _ => 0)))
    as [[s1|code] fx1] eqn:E1; [|vm_compute in E1; discriminate].
  destruct (console_stores_validated_volumes
              _ _ _ _ _ 2
              (mkDevice 2 (Fin 0 0) (VNum (Fin 0 0)) (Fin 0 0) (Fin 100 0)
                        false 0) E1 eq_refl) as (d1 & Hd1 & _).
  destruct (step (Line "set 2 100" 8) s1) as [[s2|code] fx2] eqn:E2;
    [|vm_compute in E1; injection E1 as <- _; vm_compute in E2; discriminate].
  destruct (console_stores_validated_volumes _ _ _ _ _ 2 d1 E2 Hd1)
    as (d2 & Hd2 & _).
  exists s1, fx1, d1, s2, fx2, d2.
  vm_compute in E1. injection E1 as <- <-.
  vm_compute in Hd1. injection Hd1 as <-.
  vm_compute in E2. injection E2 as <- <-.
  vm_compute in Hd2. injection Hd2 as <-.
  repeat split; reflexivity.
Defined.

(** X9.  Only messages, console lines and ticks of the sweep change the
    device table or the termination flag.  In particular a socket that
    closes or fails leaves its device as it is: the device goes offline by
    a logout or by the sweep, not by the disconnection. *)
Theorem only_input_changes_the_table
        (ev : event) (s s' : State) (fx : list effect) :
  table_event ev = false ->
  step ev s = (Running s', fx) ->
  deviceMap s' = deviceMap s /\ isTerminated s' = isTerminated s.
Proof.
  intros Hev E.
  exact (step_respects same_table same_table_trans ev s s' fx
           (handler_same_table ev Hev) on_uncaught_same_table E).
Qed.

(** The socket of an online device closes. *)
Lemma only_input_changes_the_table_witness :
  exists s1 fx1 s2 fx2,
    run [Connection 1;
         message_of [("type", VStr "login"); ("device", VNum (Fin 3 0))] 100]
        (initial (fun _ => 0)) = (Running s1, fx1) /\
    step (ClientClose 1) s1 = (Running s2, fx2) /\
    deviceMap s2 = deviceMap s1 /\
    option_map con (lookup (deviceMap s2) 3) = Some true.
Proof.
  destruct (run [Connection 1;
                 message_of [("type", VStr "login");
                             ("device", VNum (Fin 3 0))] 100]
                (initial (fun _ => 0))) as [[s1|code] fx1] eqn:E1;
    [|vm_compute in E1; discriminate].
  destruct (step (ClientClose 1) s1) as [[s2|code] fx2] eqn:E2;
    [|vm_compute in E1; injection E1 as <- _; vm_compute in E2; discriminate].
  destruct (only_input_changes_the_table (ClientClose 1) _ _ _ eq_refl E2)
    as [Ht _].
  exists s1, fx1, s2, fx2. repeat split; auto.
  rewrite Ht. vm_compute in E1. injection E1 as <- _. reflexivity.
Defined.

(** *** The statistics *)

(** X10.  In a run from start-up in which every volume message carried a
    number as its [avg], every stored average is a number, and the first
    [terminate] message (while the server is not closing) sets
    [isTerminated] and pushes one [end_statistics] event to the open
    clients: its data are the records of the devices 1..6, in this order,
    each with [max], [avg] and [min] rounded by
    [parseFloat(x.toFixed(2))]. *)
Theorem numeric_averages_deliver_the_statistics
        (clock : Z -> Z) (evs : list event) (s : State) (fx : list effect)
        (terminate : jsval) (now : Z) :
  run evs (initial clock) = (Running s, fx) ->
  forallb numeric_avg evs = true ->
  isServerClosing s = false ->
  isTerminated s = false ->
  get_property terminate "type" = Some (VStr "terminate") ->
  numeric_averages s /\
  exists stats,
    step (Message (Some terminate) now) s
    = (Running (set_isTerminated true s),
       [Broadcast (EndStatistics stats) (open_clients s)]) /\
    map (stat_entry (deviceMap s)) device_ids = map Some stats.
Proof.
  intros E Hnn Hc Ht Hty.
  assert (Hnum : numeric_averages s)
    by (apply (run_averages_kept _ _ _ _ Hnn E), initial_numeric_averages).
  assert (W : well_formed s)
    by (apply reachable_well_formed,
          (run_reachable _ _ _ _ (reach_initial clock) E)).
  split; [exact Hnum|].
  destruct (reporter_is_one_shot s W Ht Hnum) as (stats & Hstats & T & _).
  exists stats. split; [|exact Hstats].
  unfold step, handler, on_message, try_catch, bind, lift, ret, gets.
  rewrite Hty. state_simpl. now rewrite Hc, T.
Qed.

(** Two readings of device 2, the second with the average 1.005, whose
    double lies below 1.005 and is sent as 1; then [terminate]. *)
Lemma numeric_averages_deliver_the_statistics_witness :
  exists s stats,
    step (message_of [("type", VStr "terminate")] 9) s
    = (Running (set_isTerminated true s),
       [Broadcast (EndStatistics stats) [1%nat]]) /\
    nth_error stats 1
    = Some (mkStat 2 (Fin 8025 (-2)) (Fin 1 0) (Fin 55 0)).
Proof.
  pose (evs := [Connection 1;
                message_of [("type", VStr "volume");
                            ("deviceId", VNum (Fin 2 0));
                            ("vol", VNum (Fin 55 0));
                            ("avg", VNum (Fin 55 0))] 0;
                message_of [("type", VStr "volume");
                            ("deviceId", VNum (Fin 2 0));
                            ("vol", VStr "80.254");
                            ("avg", VNum (Fin 1005 (-3)))] 1]).
  destruct (run evs (initial (fun _ => 0))) as [[s|code] fx] eqn:E;
    [|vm_compute in E; discriminate].
  assert (Hs : isServerClosing s = false /\ isTerminated s = false /\
               open_clients s = [1%nat] /\
               stat_entry (deviceMap s) 2
               = Some (mkStat 2 (Fin 8025 (-2)) (Fin 1 0) (Fin 55 0))).
  { vm_compute in E. injection E as <- _. repeat split. }
  destruct Hs as (Hc & Ht & Ho & H2).
  destruct (numeric_averages_deliver_the_statistics
              (fun _ => 0) evs s fx (VObj [("type", VStr "terminate")]) 9
              E eq_refl Hc Ht eq_refl) as (_ & stats & T & Hstats).
  exists s, stats. unfold message_of. rewrite T, Ho. split; [reflexivity|].
  apply (f_equal (fun l => nth_error l 1)) in Hstats.
  rewrite (nth_error_map Some 1 stats) in Hstats.
  unfold device_ids in Hstats. cbn [map nth_error] in Hstats.
  rewrite H2 in Hstats.
  destruct stats as [|st0 [|st1 rest]]; cbn in *; congruence.
Defined.

(** *** Sessions *)

(** X11.  A [login] message whose [device] field reads, by [parseInt], as
    a number within 1..6 always finds its device: that device is marked
    online and its [lastUpdate] is set to the time of the message, its
    readings and every other device are left as they are, and the new
    table is pushed to the open clients. *)
Theorem login_brings_the_device_online
        (s : State) (data v : jsval) (x : num) (now : Z) :
  reachable s ->
  isServerClosing s = false ->
  get_property data "type" = Some (VStr "login") ->
  get_property data "device" = Some v ->
  parseInt v = Some x ->
  in_range x = true ->
  exists i d s',
    x = Fin i 0 /\ 1 <= i <= 6 /\
    lookup (deviceMap s) i = Some d /\
    step (Message (Some data) now) s
    = (Running s',
       [Broadcast (Snapshot (map snd (deviceMap s'))) (open_clients s)]) /\
    lookup (deviceMap s') i
    = Some (mkDevice (deviceId d) (vol d) (avg d) (max d) (min d) true now) /\
    forall j, j <> i -> lookup (deviceMap s') j = lookup (deviceMap s) j.
Proof.
  intros Hreach Hc Hty Hv Hx Hin.
  pose proof (reachable_well_formed s Hreach) as W.
  assert (Hstr : exists str, x = parseInt_str str).
  { unfold parseInt in Hx. destruct (ToString v) as [str|]; [|discriminate].
    injection Hx as <-. eauto. }
  destruct Hstr as [str ->].
  destruct (in_range_finds_device s str W Hin) as (i & Hi & Ei & Hget).
  destruct (well_formed_lookup s i W Hi) as [d Hd].
  exists i, d,
    (set_deviceMap
       (update (deviceMap s) i (fun d => set_lastUpdate now (set_con true d)))
       s).
  split; [exact Ei|]. split; [exact Hi|]. split; [exact Hd|]. split.
  - enough (G : exists s' fx,
               step (Message (Some data) now) s = (Running s', fx) /\
               (s' = set_deviceMap
                       (update (deviceMap s) i
                               (fun d => set_lastUpdate now (set_con true d))) s /\
                fx = [Broadcast (Snapshot (map snd (deviceMap s')))
                                (open_clients s)])).
    { destruct G as (s' & fx & E & -> & ->). exact E. }
    apply step_of_wp. unfold handler, on_message, broadcast.
    wp_steps. rewrite ?set_deviceMap_twice, ?update_update. auto.
  - state_simpl. split.
    + now rewrite (lookup_update_same _ _ _ _ Hd).
    + intros j Hj. apply lookup_update_other. congruence.
Qed.

(** The login of device 3, written as the string "3". *)
Lemma login_brings_the_device_online_witness :
  exists s' fx d',
    step (message_of [("type", VStr "login"); ("device", VStr "3")] 42)
         (initial (fun _ => 0)) = (Running s', fx) /\
    lookup (deviceMap s') 3 = Some d' /\
    con d' = true /\ lastUpdate d' = 42.
Proof.
  destruct (login_brings_the_device_online
              (initial (fun _ => 0))
              (VObj [("type", VStr "login"); ("device", VStr "3")])
              (VStr "3") (Fin 3 0) 42
              (reach_initial _) eq_refl eq_refl eq_refl eq_refl eq_refl)
    as (i & d & s' & Ei & Hi & Hd & E & Hd' & _).
  injection Ei as <-.
  exists s'. eexists. eexists.
  split; [exact E|]. split; [exact Hd'|]. split; reflexivity.
Defined.

(** X12.  A [logout] message whose [deviceId] field reads, by [parseInt],
    as a number within 1..6 always finds its device: that device is marked
    offline at once, its [lastUpdate], its readings and every other device
    are left as they are, and the new table is pushed to the open
    clients. *)
Theorem logout_takes_the_device_offline
        (s : State) (data v : jsval) (x : num) (now : Z) :
  reachable s ->
  isServerClosing s = false ->
  get_property data "type" = Some (VStr "logout") ->
  get_property data "deviceId" = Some v ->
  parseInt v = Some x ->
  in_range x = true ->
  exists i d s',
    x = Fin i 0 /\ 1 <= i <= 6 /\
    lookup (deviceMap s) i = Some d /\
    step (Message (Some data) now) s
    = (Running s',
       [Broadcast (Snapshot (map snd (deviceMap s'))) (open_clients s)]) /\
    lookup (deviceMap s') i
    = Some (mkDevice (deviceId d) (vol d) (avg d) (max d) (min d) false
                     (lastUpdate d)) /\
    forall j, j <> i -> lookup (deviceMap s') j = lookup (deviceMap s) j.
Proof.
  intros Hreach Hc Hty Hv Hx Hin.
  pose proof (reachable_well_formed s Hreach) as W.
  assert (Hstr : exists str, x = parseInt_str str).
  { unfold parseInt in Hx. destruct (ToString v) as [str|]; [|discriminate].
    injection Hx as <-. eauto. }
  destruct Hstr as [str ->].
  destruct (in_range_finds_device s str W Hin) as (i & Hi & Ei & Hget).
  destruct (well_formed_lookup s i W Hi) as [d Hd].
  exists i, d, (set_deviceMap (update (deviceMap s) i (set_con false)) s).
  split; [exact Ei|]. split; [exact Hi|]. split; [exact Hd|]. split.
  - enough (G : exists s' fx,
               step (Message (Some data) now) s = (Running s', fx) /\
               (s' = set_deviceMap (update (deviceMap s) i (set_con false)) s /\
                fx = [Broadcast (Snapshot (map snd (deviceMap s')))
                                (open_clients s)])).
    { destruct G as (s' & fx & E & -> & ->). exact E. }
    apply step_of_wp. unfold handler, on_message, broadcast.
    wp_steps. auto.
  - state_simpl. split.
    + now rewrite (lookup_update_same _ _ _ _ Hd).
    + intros j Hj. apply lookup_update_other. congruence.
Qed.

(** Device 3 logs in at 42 and out at 50. *)
Lemma logout_takes_the_device_offline_witness :
  exists s1 fx1 s2 fx2 d2,
    step (message_of [("type", VStr "login"); ("device", VNum (Fin 3 0))] 42)
         (initial (fun _ => 0)) = (Running s1, fx1) /\
    step (message_of [("type", VStr "logout"); ("deviceId", VNum (Fin 3 0))] 50)
         s1 = (Running s2, fx2) /\
    lookup (deviceMap s2) 3 = Some d2 /\
    con d2 = false /\ lastUpdate d2 = 42.
Proof.
  destruct (step (message_of [("type", VStr "login");
                              ("device", VNum (Fin 3 0))] 42)
                 (initial (fun _ => 0))) as [[s1|code] fx1] eqn:E1;
    [|vm_compute in E1; discriminate].
  assert (R1 : reachable s1)
    by (eapply reach_step; [apply reach_initial | exact E1]).
  assert (Hs1 : isServerClosing s1 = false /\
                lookup (deviceMap s1) 3
                = Some (mkDevice 3 (Fin 0 0) (VNum (Fin 0 0)) (Fin 0 0)
                                 (Fin 100 0) true 42)).
  { vm_compute in E1. injection E1 as <- _. split; reflexivity. }
  destruct Hs1 as [Hc1 Hd1].
  destruct (logout_takes_the_device_offline
              s1 (VObj [("type", VStr "logout"); ("deviceId", VNum (Fin 3 0))])
              (VNum (Fin 3 0)) (Fin 3 0) 50
              R1 Hc1 eq_refl eq_refl eq_refl eq_refl)
    as (i & d & s2 & Ei & Hi & Hd & E2 & Hd2 & _).
  injection Ei as <-. rewrite Hd1 in Hd. injection Hd as <-.
  exists s1, fx1, s2. eexists. eexists.
  split; [reflexivity|]. split; [exact E2|]. split; [exact Hd2|].
  split; reflexivity.
Defined.

(** X13.  A new connection, while the server is not closing, is added to
    the clients and the current table is pushed at once to every open
    client, the new one included; nothing else changes.  While the server
    is closing the connection is registered and nothing is pushed. *)
Theorem new_connection_gets_the_table (s : State) (c : nat) :
  step (Connection c) s
  = (Running (set_wss_clients (wss_clients s ++ [mkClient c OPEN]) s),
     if isServerClosing s then []
     else [Broadcast (Snapshot (map snd (deviceMap s)))
                     (open_clients s ++ [c])]).
Proof.
  unfold step, handler, on_connection, broadcast, bind, modify, gets, emit, ret.
  state_simpl. destruct (isServerClosing s); [reflexivity|].
  cbn [app]. unfold open_clients. state_simpl.
  rewrite filter_app, map_app. reflexivity.
Qed.

(** *** Before and after the shutdown begins *)

(** X14.  The process never exits in a turn that finds [isServerClosing]
    unset: a single event cannot end a running server.  It can only begin
    the shutdown; the exit comes in a later turn. *)
Theorem no_exit_before_shutdown
        (s : State) (ev : event) (code : Z) (fx : list effect) :
  reachable s ->
  step ev s = (Exited code, fx) ->
  isServerClosing s = true.
Proof.
  intros Hreach Hstep.
  destruct (isServerClosing s) eqn:Hc; [reflexivity|]. exfalso.
  pose proof (idle_turn ev s Hc (reachable_idle s Hreach Hc)) as T.
  unfold step in Hstep. unfold wp in T.
  destruct (handler ev s) as [[[[]| |code'] s1] fx1];
    destruct T as (T1 & T2 & _).
  - discriminate.
  - pose proof (closeServer_closes s1 (T2 eq_refl)) as C.
    unfold on_uncaught, bind, gets in Hstep.
    rewrite (T2 eq_refl) in Hstep. unfold wp in C.
    destruct (closeServer s1) as [[r s2] fx2]. destruct C as [-> _].
    discriminate.
  - now destruct (T1 code').
Qed.

(** The deadline fires after a SIGINT with one client connected. *)
Lemma no_exit_before_shutdown_witness :
  exists s1 fx1,
    run [Connection 1; Sigint] (initial (fun _ => 0)) = (Running s1, fx1) /\
    step CloseTimeout s1 = (Exited 0, []) /\
    isServerClosing s1 = true.
Proof.
  destruct (run [Connection 1; Sigint] (initial (fun _ => 0)))
    as [[s1|code] fx1] eqn:E1; [|vm_compute in E1; discriminate].
  assert (R1 : reachable s1)
    by (exact (run_reachable _ _ _ _ (reach_initial _) E1)).
  assert (E2 : step CloseTimeout s1 = (Exited 0, []))
    by (vm_compute in E1; injection E1 as <- _; reflexivity).
  exists s1, fx1. split; [reflexivity|]. split; [exact E2|].
  exact (no_exit_before_shutdown s1 CloseTimeout 0 [] R1 E2).
Defined.

(** X15.  As long as [isServerClosing] is unset after a turn, that turn
    asked no client to close and did not close the server, and nothing of
    the shutdown is under way: no deadline is pending, [wss.close] was
    never called, no socket is being drained. *)
Theorem nothing_is_closed_before_shutdown
        (s s' : State) (ev : event) (fx : list effect) :
  reachable s ->
  step ev s = (Running s', fx) ->
  isServerClosing s' = false ->
  (forall c, ~ In (CloseClient c) fx) /\ ~ In WssClose fx /\
  closeTimeoutTimer s' = None /\ wss_close_listeners s' = O /\
  drain s' = None.
Proof.
  intros Hreach Hstep Hc'.
  destruct (isServerClosing s) eqn:Hc.
  { pose proof (step_deadline_kept _ _ _ _ Hstep Hc) as [Habs _].
    congruence. }
  pose proof (idle_turn ev s Hc (reachable_idle s Hreach Hc)) as T.
  unfold step in Hstep. unfold wp in T.
  destruct (handler ev s) as [[[[]| |code'] s1] fx1];
    destruct T as (T1 & T2 & T3).
  - injection Hstep as <- <-.
    destruct (T3 Hc') as ((I1 & I2 & I3) & F).
    rewrite Forall_forall in F.
    repeat split; auto.
    + intros c Hin. specialize (F _ Hin). discriminate.
    + intros Hin. specialize (F _ Hin). discriminate.
  - exfalso.
    pose proof (closeServer_closes s1 (T2 eq_refl)) as C.
    unfold on_uncaught, bind, gets in Hstep.
    rewrite (T2 eq_refl) in Hstep. unfold wp in C.
    destruct (closeServer s1) as [[r s2] fx2]. destruct C as [-> C].
    injection Hstep as <- <-. congruence.
  - discriminate.
Qed.

(** A connection, a login, a reading and a socket that closes. *)
Lemma nothing_is_closed_before_shutdown_witness :
  exists s1 fx1 s2 fx2,
    run [Connection 1;
         message_of [("type", VStr "login"); ("device", VNum (Fin 1 0))] 0;
         message_of [("type", VStr "volume"); ("deviceId", VNum (Fin 1 0));
                     ("vol", VNum (Fin 30 0)); ("avg", VNum (Fin 30 0))] 1]
        (initial (fun _ => 0)) = (Running s1, fx1) /\
    step (ClientClose 1) s1 = (Running s2, fx2) /\
    ~ In WssClose fx2 /\ closeTimeoutTimer s2 = None.
Proof.
  destruct (run [Connection 1;
                 message_of [("type", VStr "login");
                             ("device", VNum (Fin 1 0))] 0;
                 message_of [("type", VStr "volume");
                             ("deviceId", VNum (Fin 1 0));
                             ("vol", VNum (Fin 30 0));
                             ("avg", VNum (Fin 30 0))] 1]
                (initial (fun _ => 0))) as [[s1|code] fx1] eqn:E1;
    [|vm_compute in E1; discriminate].
  assert (R1 : reachable s1)
    by (exact (run_reachable _ _ _ _ (reach_initial _) E1)).
  destruct (step (ClientClose 1) s1) as [[s2|code] fx2] eqn:E2;
    [|vm_compute in E1; injection E1 as <- _; vm_compute in E2; discriminate].
  assert (Hc2 : isServerClosing s2 = false).
  { vm_compute in E1. injection E1 as <- _.
    vm_compute in E2. injection E2 as <- _. reflexivity. }
  destruct (nothing_is_closed_before_shutdown s1 s2 (ClientClose 1) fx2
              R1 E2 Hc2) as (_ & H1 & H2 & _).
  exists s1, fx1, s2, fx2. auto.
Defined.

(** X16.  Once [wss.close] has been called, the notifications of the
    closed server end the process with status 0: on an error the
    callback exits at once; otherwise the callback closes the console
    (whose close listener does nothing, the server being already closing)
    or, if the console is closed already, exits; and the ['close'] event
    then finds the console closed and exits. *)
Theorem server_close_ends_the_process (s : State) (err : bool) :
  reachable s ->
  (0 < wss_close_listeners s)%nat ->
  run [WssCloseCallback err; WssCloseEvent] s = (Exited 0, []).
Proof.
  intros Hreach Hn.
  assert (Hc : isServerClosing s = true).
  { destruct (isServerClosing s) eqn:Hc; [reflexivity|].
    destruct (reachable_idle s Hreach Hc) as (_ & H0 & _). lia. }
  destruct (wss_close_listeners s) as [|k] eqn:Hl; [lia|].
  exact (close_notifications_exit s err k Hc Hl).
Qed.

(** SIGINT with no client connected, then the server closes. *)
Lemma server_close_ends_the_process_witness :
  run [Sigint; WssCloseCallback false; WssCloseEvent] (initial (fun _ => 0))
  = (Exited 0, [WssClose]).
Proof.
  destruct (step Sigint (initial (fun _ => 0))) as [[s1|code] fx1] eqn:E1;
    [|vm_compute in E1; discriminate].
  assert (R1 : reachable s1)
    by (eapply reach_step; [apply reach_initial | exact E1]).
  assert (H1 : (0 < wss_close_listeners s1)%nat /\ fx1 = [WssClose]).
  { vm_compute in E1. injection E1 as <- <-. split; [apply Nat.lt_0_1 | reflexivity]. }
  destruct H1 as [Hn ->].
  pose proof (server_close_ends_the_process s1 false R1 Hn) as E2.
  change (run [Sigint; WssCloseCallback false; WssCloseEvent]
              (initial (fun _ => 0)))
    with (match step Sigint (initial (fun _ => 0)) with
          | (Running s1, fx) =>
              match run [WssCloseCallback false; WssCloseEvent] s1 with
              | (p, fx') => (p, fx ++ fx')
              end
          | (Exited code, fx) => (Exited code, fx)
          end).
  rewrite E1, E2. reflexivity.
Defined.

(** X17.  The graceful shutdown, from its trigger to the exit.  When a
    shutdown is triggered while clients are connected, all of them open:
    each client is asked to close, once and in order; when the sockets
    then close one after the other, nothing happens until the last one,
    whose close makes the coordinator close the server, once; and the
    notifications of the closed server end the process with status 0,
    before the deadline is needed. *)
Theorem graceful_shutdown_completes (ev : event) (s : State) (err : bool) :
  reachable s ->
  isServerClosing s = false ->
  shutdown_trigger ev ->
  wss_clients s <> [] ->
  forallb is_open (wss_clients s) = true ->
  NoDup (map client_id (wss_clients s)) ->
  run (ev :: map ClientClose (map client_id (wss_clients s))
          ++ [WssCloseCallback err; WssCloseEvent]) s
  = (Exited 0, map CloseClient (map client_id (wss_clients s)) ++ [WssClose]).
Proof.
  intros Hreach Hc Htrig Hne Hopen Hnd.
  destruct (reachable_idle s Hreach Hc) as (_ & Hl & _).
  destruct (trigger_runs_coordinator ev s Htrig Hc) as (label & Hlabel & Hstep).
  destruct (handleTerminateProcess_drains label s Hc Hlabel Hne Hopen)
    as (s1 & L & E1 & Hc1 & Hl1 & Hd1 & HL).
  destruct (drain_acknowledged (map client_id (wss_clients s)) [] L s1)
    as (s2 & E2 & Hc2 & Hl2); auto.
  { destruct (wss_clients s); [now destruct Hne | discriminate]. }
  pose proof (close_notifications_exit s2 err O) as E3.
  rewrite Hc2, Hl2, Hl1, Hl in E3. specialize (E3 Hc1 eq_refl).
  cbn [run]. rewrite (Hstep _ _ E1), run_app, E2, E3.
  now rewrite app_nil_r.
Qed.

(** Two clients, the console's [exit], both sockets close. *)
Lemma graceful_shutdown_completes_witness :
  exists s fx,
    run [Connection 1; Connection 2] (initial (fun _ => 0)) = (Running s, fx) /\
    run [Line "exit" 0; ClientClose 1; ClientClose 2;
         WssCloseCallback false; WssCloseEvent] s
    = (Exited 0, [CloseClient 1; CloseClient 2; WssClose]).
Proof.
  destruct (run [Connection 1; Connection 2] (initial (fun _ => 0)))
    as [[s|code] fx] eqn:E; [|vm_compute in E; discriminate].
  assert (Hreach : reachable s)
    by (exact (run_reachable _ _ _ _ (reach_initial _) E)).
  assert (Hs : isServerClosing s = false /\
               wss_clients s = [mkClient 1 OPEN; mkClient 2 OPEN]).
  { vm_compute in E. injection E as <- _. split; reflexivity. }
  destruct Hs as [Hc Hcs].
  pose proof (graceful_shutdown_completes (Line "exit" 0) s false
                Hreach Hc (trigger_exit 0)) as G.
  rewrite Hcs in G. cbn [map app] in G.
  exists s, fx. split; [reflexivity|].
  apply G; [discriminate | reflexivity |].
  repeat constructor; cbn; intuition discriminate.
Defined.

(** *** Readings *)

(** X18.  In a run from start-up in which every reading of a volume
    message is a number (its [vol] does not parse to NaN), and as long as
    the server is not closing, both watermarks of every device are numbers
    and the device either still has the values of start-up (volume 0,
    maximum 0, minimum 100) or has its volume between its watermarks:
    [min <= vol <= max]. *)
Theorem readings_stay_between_watermarks
        (clock : Z -> Z) (evs : list event) (s : State) (fx : list effect)
        (i : Z) (d : Device) :
  run evs (initial clock) = (Running s, fx) ->
  forallb numeric_reading evs = true ->
  isServerClosing s = false ->
  lookup (deviceMap s) i = Some d ->
  max d <> NaN /\ min d <> NaN /\
  ((vol d = Fin 0 0 /\ max d = Fin 0 0 /\ min d = Fin 100 0) \/
   (JsNum.le (min d) (vol d) = true /\ JsNum.le (vol d) (max d) = true)).
Proof.
  intros E Hnn Hc Hd.
  destruct (run_bracketed evs _ _ _ (all_bracketed_initial clock) Hnn E Hc
              i d Hd) as [[H1 H2] H3].
  auto.
Qed.

(** Readings of 55 and 30.5 by message, then 80 from the console. *)
Lemma readings_stay_between_watermarks_witness :
  exists s fx,
    run [message_of [("type", VStr "volume"); ("deviceId", VNum (Fin 2 0));
                     ("vol", VNum (Fin 55 0)); ("avg", VNum (Fin 55 0))] 0;
         message_of [("type", VStr "volume"); ("deviceId", VNum (Fin 2 0));
                     ("vol", VStr "30.5"); ("avg", VNull)] 1;
         Line "set 2 80" 2]
        (initial (fun _ => 0)) = (Running s, fx) /\
    lookup (deviceMap s) 2
    = Some (mkDevice 2 (Fin 80 0) (VNum (Fin 40 0)) (Fin 80 0)
                     (Fin 305 (-1)) true 2) /\
    JsNum.le (Fin 305 (-1)) (Fin 80 0) = true /\
    JsNum.le (Fin 80 0) (Fin 80 0) = true.
Proof.
  pose (evs := [message_of [("type", VStr "volume");
                            ("deviceId", VNum (Fin 2 0));
                            ("vol", VNum (Fin 55 0));
                            ("avg", VNum (Fin 55 0))] 0;
                message_of [("type", VStr "volume");
                            ("deviceId", VNum (Fin 2 0));
                            ("vol", VStr "30.5"); ("avg", VNull)] 1;
                Line "set 2 80" 2]).
  fold evs.
  destruct (run evs (initial (fun _ => 0))) as [[s|code] fx] eqn:E;
    [|vm_compute in E; discriminate].
  assert (Hs : isServerClosing s = false /\
               lookup (deviceMap s) 2
               = Some (mkDevice 2 (Fin 80 0) (VNum (Fin 40 0)) (Fin 80 0)
                                (Fin 305 (-1)) true 2)).
  { vm_compute in E. injection E as <- _. split; reflexivity. }
  destruct Hs as [Hc Hd].
  destruct (readings_stay_between_watermarks
              (fun _ => 0) evs s fx 2 _ E eq_refl Hc Hd)
    as (_ & _ & [(Habs & _) | [H1 H2]]); [discriminate|].
  exists s, fx. repeat split; auto.
Defined.

(** X19.  A volume message for one of the devices 1..6 whose [vol]
    converts to a string: the device takes [parseFloat] of [vol] (the
    double nearest to the numeral, an infinity past the largest double) as
    its volume and the [avg] field as it came, its maximum and minimum are
    extended to the new volume by [Math.max] and [Math.min], it is marked
    online and its [lastUpdate] is the time of the message; the other
    devices are left as they are, and the new table is pushed to the open
    clients. *)
Theorem volume_message_updates_the_device
        (s : State) (data v a : jsval) (x : num) (i now : Z) :
  reachable s ->
  isServerClosing s = false ->
  get_property data "type" = Some (VStr "volume") ->
  get_property data "deviceId" = Some (VNum (Fin i 0)) ->
  1 <= i <= 6 ->
  get_property data "vol" = Some v ->
  parseFloat v = Some x ->
  get_property data "avg" = Some a ->
  exists d s',
    lookup (deviceMap s) i = Some d /\
    step (Message (Some data) now) s
    = (Running s',
       [Broadcast (Snapshot (map snd (deviceMap s'))) (open_clients s)]) /\
    lookup (deviceMap s') i
    = Some (mkDevice (deviceId d) x a (JsNum.Math_max (max d) x)
                     (JsNum.Math_min (min d) x) true now) /\
    forall j, j <> i -> lookup (deviceMap s') j = lookup (deviceMap s) j.
Proof.
  intros Hreach Hc Hty Hid Hi Hv Hx Ha.
  pose proof (reachable_well_formed s Hreach) as W.
  destruct (volume_run s data v a x i now W Hc Hty Hid Hi Hv Hx Ha)
    as (s' & d & Hd & -> & E).
  exists d. eexists. split; [exact Hd|]. split; [exact E|].
  state_simpl. split.
  - now rewrite (lookup_update_same _ _ _ _ Hd).
  - intros j Hj. apply lookup_update_other. congruence.
Qed.

(** A reading of 72.5 for device 4, sent as a string and without [avg];
    a reading written [1e400], which is read as [Infinity]. *)
Lemma volume_message_updates_the_device_witness :
  (exists s' fx,
     step (message_of [("type", VStr "volume"); ("deviceId", VNum (Fin 4 0));
                       ("vol", VStr "72.5dB")] 9)
          (initial (fun _ => 0)) = (Running s', fx) /\
     lookup (deviceMap s') 4
     = Some (mkDevice 4 (Fin 725 (-1)) VUndef (Fin 725 (-1)) (Fin 725 (-1))
                      true 9) /\
     lookup (deviceMap s') 5 = lookup (deviceMap (initial (fun _ => 0))) 5) /\
  (exists s' fx,
     step (message_of [("type", VStr "volume"); ("deviceId", VNum (Fin 4 0));
                       ("vol", VStr "1e400"); ("avg", VNum (Fin 1 400))] 9)
          (initial (fun _ => 0)) = (Running s', fx) /\
     lookup (deviceMap s') 4
     = Some (mkDevice 4 PInf (VNum (Fin 1 400)) PInf (Fin 100 0) true 9)).
Proof.
  split.
  - destruct (volume_message_updates_the_device
                (initial (fun _ => 0))
                (VObj [("type", VStr "volume"); ("deviceId", VNum (Fin 4 0));
                       ("vol", VStr "72.5dB")])
                (VStr "72.5dB") VUndef (Fin 725 (-1)) 4 9
                (reach_initial _) eq_refl eq_refl eq_refl)
      as (d & s' & Hd & E & Hd' & Hother); [lia | vm_compute; reflexivity .. |].
    exists s'. eexists. split; [exact E|].
    vm_compute in Hd. injection Hd as <-.
    split; [exact Hd' | apply Hother; discriminate].
  - destruct (volume_message_updates_the_device
                (initial (fun _ => 0))
                (VObj [("type", VStr "volume"); ("deviceId", VNum (Fin 4 0));
                       ("vol", VStr "1e400"); ("avg", VNum (Fin 1 400))])
                (VStr "1e400") (VNum (Fin 1 400)) PInf 4 9
                (reach_initial _) eq_refl eq_refl eq_refl)
      as (d & s' & Hd & E & Hd' & _); [lia | vm_compute; reflexivity .. |].
    exists s'. eexists. split; [exact E|].
    vm_compute in Hd. injection Hd as <-. exact Hd'.
Defined.

(** X20.  The console's [set] command, when the line has three
    space-separated parts, the second reads by [parseInt] as one of
    1..6 and the third reads by [parseFloat] as a number within 0..100:
    the device takes that volume, its average becomes [(avg + vol) / 2]
    (the previous average is here a number; the sum and the quotient are
    rounded to doubles), its maximum and minimum are
    extended to the new volume, it is marked online and its
    [lastUpdate] is the time of the command; the other devices are left as
    they are, and the new table is pushed to the open clients. *)
Theorem console_set_updates_the_device
        (s : State) (input p0 p1 p2 : string) (i now : Z) (x a : num)
        (d : Device) :
  reachable s ->
  isServerClosing s = false ->
  prefix "set " input = true ->
  split_space input = [p0; p1; p2] ->
  parseInt_str p1 = Fin i 0 ->
  1 <= i <= 6 ->
  parseFloat_str p2 = x ->
  JsNum.le (Fin 0 0) x = true ->
  JsNum.le x (Fin 100 0) = true ->
  lookup (deviceMap s) i = Some d ->
  avg d = VNum a ->
  exists s',
    step (Line input now) s
    = (Running s',
       [Broadcast (Snapshot (map snd (deviceMap s'))) (open_clients s)]) /\
    lookup (deviceMap s') i
    = Some (mkDevice (deviceId d) x (VNum (JsNum.half (JsNum.add a x)))
                     (JsNum.Math_max (max d) x) (JsNum.Math_min (min d) x)
                     true now) /\
    forall j, j <> i -> lookup (deviceMap s') j = lookup (deviceMap s) j.
Proof.
  intros Hreach Hc Hprefix Hsplit Hp1 Hi Hp2 Hlo Hhi Hd Ha.
  pose proof (reachable_well_formed s Hreach) as W.
  destruct (console_set_run s input p0 p1 p2 i now x a d
              W Hc Hprefix Hsplit Hp1 Hi Hp2 Hlo Hhi Hd Ha)
    as (s' & -> & E).
  eexists. split; [exact E|]. state_simpl. split.
  - now rewrite (lookup_update_same _ _ _ _ Hd).
  - intros j Hj. apply lookup_update_other. congruence.
Qed.

(** [set 2 50] at start-up: the average becomes (0 + 50) / 2.  After a
    reading with the average 0.1, [set 1 0.2] leaves the double
    0.15000000000000002.  A volume written [100.00000000000000001] is
    read as 100 and stored. *)
Lemma console_set_updates_the_device_witness :
  (exists s' fx,
     step (Line "set 2 50" 7) (initial (fun _ => 0)) = (Running s', fx) /\
     lookup (deviceMap s') 2
     = Some (mkDevice 2 (Fin 50 0) (VNum (Fin 25 0)) (Fin 50 0) (Fin 50 0)
                      true 7)) /\
  (exists s1 fx1 s2 fx2 d2 y,
     step (message_of [("type", VStr "volume"); ("deviceId", VNum (Fin 1 0));
                       ("vol", VNum (Fin 1 (-1)));
                       ("avg", VNum (Fin 1 (-1)))] 0)
          (initial (fun _ => 0)) = (Running s1, fx1) /\
     step (Line "set 1 0.2" 7) s1 = (Running s2, fx2) /\
     lookup (deviceMap s2) 1 = Some d2 /\ avg d2 = VNum y /\
     num_to_string y = "0.15000000000000002") /\
  (exists s' fx d',
     step (Line "set 3 100.00000000000000001" 7) (initial (fun _ => 0))
     = (Running s', fx) /\
     lookup (deviceMap s') 3 = Some d' /\ vol d' = Fin 100 0).
Proof.
  split; [|split].
  - destruct (console_set_updates_the_device
                (initial (fun _ => 0)) "set 2 50" "set" "2" "50" 2 7
                (Fin 50 0) (Fin 0 0)
                (mkDevice 2 (Fin 0 0) (VNum (Fin 0 0)) (Fin 0 0) (Fin 100 0)
                          false 0)
                (reach_initial _) eq_refl eq_refl eq_refl)
      as (s' & E & Hd' & _);
      [vm_compute; reflexivity | lia | vm_compute; reflexivity .. |].
    exists s'. eexists. split; [exact E | exact Hd'].
  - destruct (step (message_of [("type", VStr "volume");
                                ("deviceId", VNum (Fin 1 0));
                                ("vol", VNum (Fin 1 (-1)));
                                ("avg", VNum (Fin 1 (-1)))] 0)
                   (initial (fun _ => 0))) as [[s1|code] fx1] eqn:E1;
      [|vm_compute in E1; discriminate].
    assert (R1 : reachable s1)
      by (eapply reach_step; [apply reach_initial | exact E1]).
    destruct (lookup (deviceMap s1) 1) as [d|] eqn:Hd;
      [|vm_compute in E1; injection E1 as <- _; vm_compute in Hd; discriminate].
    assert (Hs1 : isServerClosing s1 = false /\ avg d = VNum (Fin 1 (-1))).
    { vm_compute in E1. injection E1 as <- _.
      vm_compute in Hd. injection Hd as <-. split; reflexivity. }
    destruct Hs1 as [Hc1 Ha].
    destruct (console_set_updates_the_device
                s1 "set 1 0.2" "set" "1" "0.2" 1 7
                (parseFloat_str "0.2") (Fin 1 (-1)) d
                R1 Hc1 eq_refl eq_refl)
      as (s2 & E2 & Hd2 & _);
      [vm_compute; reflexivity | lia | reflexivity
      | vm_compute; reflexivity | vm_compute; reflexivity
      | exact Hd | exact Ha |].
    exists s1, fx1, s2. do 3 eexists.
    split; [reflexivity|]. split; [exact E2|]. split; [exact Hd2|].
    split; [reflexivity | vm_compute; reflexivity].
  - destruct (console_set_updates_the_device
                (initial (fun _ => 0)) "set 3 100.00000000000000001"
                "set" "3" "100.00000000000000001" 3 7
                (Fin 100 0) (Fin 0 0)
                (mkDevice 3 (Fin 0 0) (VNum (Fin 0 0)) (Fin 0 0) (Fin 100 0)
                          false 0)
                (reach_initial _) eq_refl eq_refl eq_refl)
      as (s' & E & Hd' & _);
      [vm_compute; reflexivity | lia | vm_compute; reflexivity .. |].
    exists s'. do 2 eexists. split; [exact E|]. split; [exact Hd' | reflexivity].
Defined.

(** *** The bookkeeping of the shutdown *)

(** X21.  The bookkeeping of the shutdown.  [wss.close] is called only
    once every socket captured when the shutdown began has been counted
    in [closedClients], and no socket is counted twice: a socket that
    reports both an error and a close counts once, so that the server is
    not closed while another captured socket is still to close. *)
Theorem server_closes_after_every_socket (s : State) :
  reachable s ->
  (0 < wss_close_listeners s)%nat ->
  exists d,
    drain s = Some d /\
    NoDup (closedClients d) /\
    forall c, In c (clients d) <-> In c (closedClients d).
Proof.
  intros Hreach Hn.
  pose proof (reachable_accounted s Hreach) as K.
  unfold drain_accounted in K.
  destruct (drain s) as [d|]; [|lia].
  destruct K as (K1 & K2 & _ & K4).
  exists d. split; [reflexivity|]. split; [exact K1|].
  intros c. split; [apply (K4 Hn) | apply K2].
Qed.

(** Two clients; the first reports an error and then a close, and the
    server is closed only when the second has closed too. *)
Lemma server_closes_after_every_socket_witness :
  exists s1 fx1 s2 fx2 d,
    run [Connection 1; Connection 2; Sigint; ClientError 1; ClientClose 1]
        (initial (fun _ => 0)) = (Running s1, fx1) /\
    wss_close_listeners s1 = O /\
    step (ClientClose 2) s1 = (Running s2, fx2) /\
    fx2 = [WssClose] /\
    drain s2 = Some d /\
    clients d = [1%nat; 2%nat] /\
    forall c, In c (clients d) <-> In c (closedClients d).
Proof.
  destruct (run [Connection 1; Connection 2; Sigint; ClientError 1;
                 ClientClose 1] (initial (fun _ => 0)))
    as [[s1|code] fx1] eqn:E1; [|vm_compute in E1; discriminate].
  assert (R1 : reachable s1)
    by (exact (run_reachable _ _ _ _ (reach_initial _) E1)).
  destruct (step (ClientClose 2) s1) as [[s2|code] fx2] eqn:E2;
    [|vm_compute in E1; injection E1 as <- _; vm_compute in E2; discriminate].
  assert (R2 : reachable s2) by (eapply reach_step; eauto).
  assert (H : wss_close_listeners s1 = O /\ fx2 = [WssClose] /\
              wss_close_listeners s2 = 1%nat /\
              option_map clients (drain s2) = Some [1%nat; 2%nat]).
  { vm_compute in E1. injection E1 as <- _.
    vm_compute in E2. injection E2 as <- <-. repeat split. }
  destruct H as (H1 & H2 & H3 & H4).
  destruct (server_closes_after_every_socket s2 R2) as (d & Hd & _ & Hall).
  { rewrite H3. apply Nat.lt_0_1. }
  rewrite Hd in H4. injection H4 as H4.
  exists s1, fx1, s2, fx2, d. repeat split; auto; apply Hall.
Defined.

End Behaviour.
